(** * BOBO cloud-based compiler: the workspace synchronization engine

  A shallow embedding of the synchronization code of the Electron shell
  ([src/main.js], the main process, and [src/renderer.js], the renderer)
  together with the properties its specification states about it.

  JavaScript strings are modelled as [string] (byte sequences, UTF-8 for
  the one non-ASCII literal of the source); [null]/[undefined] as [None];
  the external collaborators (filesystem, the path functions of the
  platform, remote endpoint, child process) as explicit oracles; the side effects of the renderer as a trace of
  events. *)

From Stdlib Require Import ZArith Lia Ascii String.
From stdpp Require Import strings pretty gmap list.

#[local] Arguments String.append !_ _ / : simpl nomatch.

(** ** The string methods the source uses *)

Module JsString.

(** [s.startsWith(p)] *)
Definition startsWith (s p : string) : bool := String.prefix p s.

(** [s.includes(p)]: [p] is a prefix of some suffix of [s]. *)
Fixpoint includes (s p : string) : bool :=
  if String.prefix p s then true
  else match s with
       | EmptyString => false
       | String _ s' => includes s' p
       end.

(** [s.endsWith(p)]: some suffix of [s] is [p]. *)
Fixpoint endsWith (s p : string) : bool :=
  if String.eqb s p then true
  else match s with
       | EmptyString => false
       | String _ s' => endsWith s' p
       end.

(** [s.split(re)] for a regular expression [re] that matches exactly the
    single characters satisfying [sep]; the result is never empty. *)
Fixpoint split (sep : ascii -> bool) (s : string) : list string :=
  match s with
  | EmptyString => [EmptyString]
  | String c s' =>
      if sep c then EmptyString :: split sep s'
      else match split sep s' with
           | h :: t => String c h :: t
           | [] => [String c EmptyString]
           end
  end.

(** [a.pop()] read for its value on a non-empty array. *)
Definition pop (a : list string) : string := List.last a EmptyString.

(** [a.join(sep)] *)
Fixpoint join (sep : string) (a : list string) : string :=
  match a with
  | [] => EmptyString
  | [x] => x
  | x :: rest => x +:+ sep +:+ join sep rest
  end.

Definition lower_ascii (c : ascii) : ascii :=
  let n := nat_of_ascii c in
  if (65 <=? n)%nat && (n <=? 90)%nat then ascii_of_nat (n + 32) else c.

(** [s.toLowerCase()] on the ASCII letters.  No character outside ASCII
    lowercases to one of the letters of the tool's name, which is all
    the source compares the result with. *)
Fixpoint toLowerCase (s : string) : string :=
  match s with
  | EmptyString => EmptyString
  | String c s' => String (lower_ascii c) (toLowerCase s')
  end.

(** No character of [s] satisfies [sep]. *)
Fixpoint free_of (sep : ascii -> bool) (s : string) : bool :=
  match s with
  | EmptyString => true
  | String c s' => negb (sep c) && free_of sep s'
  end.

(** Truthiness of a string value: the empty string is falsy. *)
Definition truthy (s : string) : bool := negb (String.eqb s EmptyString).

(** [v || d] for a value that is a string or [undefined]. *)
Definition or_default (v : option string) (d : string) : string :=
  match v with
  | Some s => if truthy s then s else d
  | None => d
  end.

Definition newline : ascii := ascii_of_nat 10.
Definition is_newline (c : ascii) : bool := Ascii.eqb c newline.
Definition nl : string := String newline EmptyString.

(** The double quote character, and a text between double quotes. *)
Definition dquote : string := String (ascii_of_nat 34) EmptyString.
Definition quoted (s : string) : string := dquote +:+ s +:+ dquote.

(** The character class [[/\\]] of the source's regular expressions. *)
Definition is_sep (c : ascii) : bool :=
  Ascii.eqb c "/"%char || Ascii.eqb c "\"%char.

End JsString.
Import JsString.

(** ** Sync-tool path resolution, at its three sites *)

Module ToolPath.

(** [updateRcloneConfig], main.js lines 64-85. *)
Definition resolve_updateRcloneConfig (rclonePath : option string) : string :=
  let rcloneExecutable := or_default rclonePath "rclone" in
  if truthy rcloneExecutable then
    if endsWith rcloneExecutable "\" || endsWith rcloneExecutable "/" then
      rcloneExecutable +:+ "rclone.exe"
    else if includes rcloneExecutable "\" || includes rcloneExecutable "/" then
      let lastPart := pop (split is_sep rcloneExecutable) in
      if String.eqb (toLowerCase lastPart) "rclone" then
        rcloneExecutable +:+ ".exe"
      else rcloneExecutable
    else if negb (endsWith rcloneExecutable ".exe") then
      rcloneExecutable +:+ ".exe"
    else rcloneExecutable
  else rcloneExecutable.

(** [syncWithServer], renderer.js lines 137-154. *)
Definition resolve_syncWithServer (rclonePath : option string) : string :=
  let rcloneExecutable := or_default rclonePath "rclone" in
  if truthy rcloneExecutable then
    if endsWith rcloneExecutable "\" || endsWith rcloneExecutable "/" then
      rcloneExecutable +:+ "rclone.exe"
    else if includes rcloneExecutable "\" || includes rcloneExecutable "/" then
      let lastPart := pop (split is_sep rcloneExecutable) in
      if String.eqb (toLowerCase lastPart) "rclone" then
        rcloneExecutable +:+ ".exe"
      else rcloneExecutable
    else rcloneExecutable
  else rcloneExecutable.

(** [checkRcloneAvailability], renderer.js lines 77-94. *)
Definition resolve_checkRcloneAvailability (rclonePath : option string) : string :=
  let rcloneExecutable := or_default rclonePath "rclone" in
  if truthy rcloneExecutable then
    if endsWith rcloneExecutable "\" || endsWith rcloneExecutable "/" then
      rcloneExecutable +:+ "rclone.exe"
    else if includes rcloneExecutable "\" || includes rcloneExecutable "/" then
      let lastPart := pop (split is_sep rcloneExecutable) in
      if String.eqb (toLowerCase lastPart) "rclone" then
        rcloneExecutable +:+ ".exe"
      else rcloneExecutable
    else rcloneExecutable
  else rcloneExecutable.

(** The specification's vocabulary, stated without the string methods. *)

(** The value ends in a path separator. *)
Definition ends_in_separator (v : string) : Prop :=
  exists p c, v = p +:+ String c EmptyString /\ is_sep c = true.

(** The value contains a path separator. *)
Definition contains_separator (v : string) : Prop :=
  exists p c q, v = p +:+ String c q /\ is_sep c = true.

(** The value contains a separator and [seg] is what follows the last one. *)
Definition last_segment (v seg : string) : Prop :=
  exists p c, v = p +:+ String c seg /\ is_sep c = true
              /\ free_of is_sep seg = true.

(** [v] ends with the text [suffix]. *)
Definition ends_with (v suffix : string) : Prop :=
  exists p, v = p +:+ suffix.

End ToolPath.

(** ** The filesystem as the main process observes it *)

Module Fs.

(** What [entry.isDirectory()] and [entry.isFile()] report for a
    directory entry; [KOther] is an entry that is neither (a symbolic
    link, a socket, a device). *)
Inductive DirentKind := KDirectory | KFile | KOther.

#[global] Instance DirentKind_eq_dec : EqDecision DirentKind.
Proof. solve_decision. Defined.

Record Dirent := { d_name : string; d_kind : DirentKind }.

Record Stats := { isDirectory : bool }.

(** The answers of the filesystem calls, [None] when the call throws.
    The answers are independent of one another: a directory listed by
    [readdirSync] of its parent may be gone when [statSync] reaches it,
    which is how a change in the middle of a walk shows. *)
Record t := {
  statSync : string -> option Stats;
  readdirSync : string -> option (list Dirent);
  (** whether [fs.watch(dir, ...)] returns a watcher (it throws on a
      directory that does not exist) *)
  watch_ok : string -> bool;
  (** [path.join] and [path.basename] of the platform the process runs
      on: what they give depends on its separator and on how the
      directory is written *)
  path_join : string -> string -> string;
  path_basename : string -> string
}.

(** main.js lines 194-196 *)
Definition safeStat (fs : t) (p : string) : option Stats := statSync fs p.

End Fs.

(** ** Tree Snapshot Builder (main.js, [readTree]) *)

Module Tree.
Import Fs.

(** The objects [readTree] builds.  An element of [children] is whatever
    was pushed, which for a directory entry is the value the recursive
    call returned, [null] included. *)
#[warnings="-register-all"]
Inductive TreeNode :=
| Folder (name path : string) (children : list (option TreeNode))
| FileNode (name path : string).

(** The [for (const entry of entries)] loop of lines 217-228, with the
    recursive call abstracted. [None] is a recursive call that ran out
    of fuel. *)
Fixpoint readTree_loop (fs : Fs.t)
    (rec : string -> option (option TreeNode))
    (dirPath : string) (entries : list Dirent)
    (children : list (option TreeNode)) : option (list (option TreeNode)) :=
  match entries with
  | [] => Some children
  | entry :: rest =>
      let full := path_join fs dirPath (d_name entry) in
      match d_kind entry with
      | KDirectory =>
          match rec full with
          | None => None
          | Some sub => readTree_loop fs rec dirPath rest (children ++ [sub])
          end
      | KFile =>
          readTree_loop fs rec dirPath rest
            (children ++ [Some (FileNode (d_name entry) full)])
      | KOther => readTree_loop fs rec dirPath rest children
      end
  end.

(** main.js lines 199-230.  The outer [option] is the fuel (the depth the
    recursion may reach); the inner one is the JavaScript result, [None]
    for [null]. *)
Fixpoint readTree (fuel : nat) (fs : Fs.t) (dirPath : string)
    : option (option TreeNode) :=
  match fuel with
  | O => None
  | S fuel' =>
      match safeStat fs dirPath with
      | None => Some None
      | Some stat =>
          if negb (isDirectory stat) then Some None
          else
            let entries :=
              match readdirSync fs dirPath with
              | Some es => es
              | None => []
              end in
            match readTree_loop fs (readTree fuel' fs) dirPath entries [] with
            | None => None
            | Some children =>
                Some (Some (Folder (path_basename fs dirPath) dirPath children))
            end
      end
  end.

(** A child entry a consumer can render: an object, and for a folder one
    whose children are all such. *)
Fixpoint well_formed (n : TreeNode) : bool :=
  match n with
  | FileNode _ _ => true
  | Folder _ _ children =>
      forallb (fun c => match c with
                        | Some n' => well_formed n'
                        | None => false
                        end) children
  end.

End Tree.

(** ** Vocabulary for snapshots *)

Module Snapshot.
Import Fs Tree.

Definition node_path (n : TreeNode) : string :=
  match n with Folder _ path _ | FileNode _ path => path end.

Definition node_name (n : TreeNode) : string :=
  match n with Folder name _ _ | FileNode name _ => name end.

Definition is_folder (n : TreeNode) : bool :=
  match n with Folder _ _ _ => true | FileNode _ _ => false end.

(** The entries of a directory the walk makes a child of: those that are
    a directory or a file; none when the directory cannot be listed. *)
Definition listed (fs : Fs.t) (dirPath : string) : list Dirent :=
  filter (fun e => d_kind e <> KOther)
    (match readdirSync fs dirPath with
     | Some es => es
     | None => []
     end).

(** The child pushed for an entry: the file node of a file, a folder node
    with the entry's path for a directory, or [null] for a directory. *)
Definition child_of (fs : Fs.t) (dirPath : string) (child : option TreeNode)
    (entry : Dirent) : Prop :=
  match child with
  | None => d_kind entry = KDirectory
  | Some n =>
      node_path n = path_join fs dirPath (d_name entry)
      /\ match d_kind entry with
         | KFile => n = FileNode (d_name entry) (path_join fs dirPath (d_name entry))
         | _ => is_folder n = true
         end
  end.

(** Every directory that is listed can still be stat'ed as a directory
    when the walk reaches it. *)
Definition stable (fs : Fs.t) : Prop :=
  forall dirPath entries entry,
    readdirSync fs dirPath = Some entries ->
    entry ∈ entries -> d_kind entry = KDirectory ->
    statSync fs (path_join fs dirPath (d_name entry))
    = Some {| isDirectory := true |}.

(** A child that is an object whose own children are well formed. *)
Definition child_ok (c : option TreeNode) : Prop :=
  match c with
  | Some n => well_formed n = true
  | None => False
  end.

End Snapshot.

(** ** Change Watcher (main.js, [watchFolderRecursive], [attachWatcher]) *)

Module Watch.
Import Fs.

(** The module-level [watchers] map, with the watcher objects as handles
    numbered in creation order, and the set of handles [close()] was
    called on. *)
Record State := {
  watchers : gmap string nat;
  closed : gset nat;
  next_handle : nat
}.

(** How a call ends: [Thrown] carries the state at the point an
    exception leaves the function. *)
Inductive Completion := Normal (s : State) | Thrown (s : State).

Definition state_of (c : Completion) : State :=
  match c with Normal s | Thrown s => s end.

(** The [for (const entry of entries)] loop of lines 267-271. *)
Fixpoint attach_loop (fs : Fs.t)
    (rec : string -> State -> option Completion)
    (dir : string) (entries : list Dirent) (s : State) : option Completion :=
  match entries with
  | [] => Some (Normal s)
  | entry :: rest =>
      match d_kind entry with
      | KDirectory =>
          match rec (path_join fs dir (d_name entry)) s with
          | None => None
          | Some (Thrown s') => Some (Thrown s')
          | Some (Normal s') => attach_loop fs rec dir rest s'
          end
      | _ => attach_loop fs rec dir rest s
      end
  end.

(** main.js lines 244-272; the callback given to [fs.watch] runs on later
    filesystem events and is no part of the call. *)
Fixpoint attachWatcher (fuel : nat) (fs : Fs.t) (dir : string) (s : State)
    : option Completion :=
  match fuel with
  | O => None
  | S fuel' =>
      match watchers s !! dir with
      | Some _ => Some (Normal s)
      | None =>
          if negb (watch_ok fs dir) then Some (Thrown s)
          else
            let watcher := next_handle s in
            let s1 := {| watchers := <[dir := watcher]> (watchers s);
                         closed := closed s;
                         next_handle := S (next_handle s) |} in
            let entries :=
              match readdirSync fs dir with
              | Some es => es
              | None => []
              end in
            attach_loop fs (attachWatcher fuel' fs) dir entries s1
      end
  end.

(** The body of the loop of lines 235-240 for one entry of the copy
    [[...watchers]].  The entries are visited in some order; the map and
    the set of closed watchers that result do not depend on it. *)
Definition clear_one (root : string) (s : State) (pw : string * nat) : State :=
  let '(p, w) := pw in
  if startsWith p root then
    {| watchers := delete p (watchers s);
       closed := closed s ∪ {[w]};
       next_handle := next_handle s |}
  else s.

(** main.js lines 233-242 *)
Definition watchFolderRecursive (fuel : nat) (fs : Fs.t) (root : string)
    (s : State) : option Completion :=
  let s' := foldl (clear_one root) s (map_to_list (watchers s)) in
  attachWatcher fuel fs root s'.

(** [p] is [root] or lies below it in the directory tree. *)
Definition descendant_or_self (root p : string) : Prop :=
  p = root \/ exists c rest, is_sep c = true /\ p = root +:+ String c rest.

(** A watch is armed: it is in the watch set and was not closed. *)
Definition armed (s : State) (p : string) (w : nat) : Prop :=
  watchers s !! p = Some w /\ w ∉ closed s.

End Watch.

(** ** The main process: opening a workspace and reacting to changes
       (main.js, [openWorkspace], the [fs.watch] callback, the
       [pick-workspace] handler) *)

Module MainProcess.
Import Fs Tree.

(** The module-level variables of main.js. *)
Record State := {
  workspaceRoot : option string;
  watch : Watch.State
}.

(** What is sent to the renderer with [win.webContents.send]. *)
Inductive Message :=
| WorkspaceOpened (rootPath : string) (tree : option TreeNode)
| WorkspaceRefresh (rootPath : string) (tree : option TreeNode).

(** How a call ends: the state it leaves, what it sent, and whether an
    exception left it. *)
Record Outcome := {
  after : State;
  sent : list Message;
  threw : bool
}.

Definition finish (root : option string) (sent : list Message)
    (c : Watch.Completion) : Outcome :=
  {| after := {| workspaceRoot := root; watch := Watch.state_of c |};
     sent := sent;
     threw := match c with Watch.Thrown _ => true | Watch.Normal _ => false end |}.

(** main.js lines 187-192; [None] when the fuel does not suffice. *)
Definition openWorkspace (fuel : nat) (fs : Fs.t) (folderPath : string)
    (st : State) : option Outcome :=
  match readTree fuel fs folderPath with
  | None => None
  | Some tree =>
      match Watch.watchFolderRecursive fuel fs folderPath (watch st) with
      | None => None
      | Some c =>
          Some (finish (Some folderPath) [WorkspaceOpened folderPath tree] c)
      end
  end.

(** The callback of lines 246-257, for an event on the watched directory
    [dir] that reports [filename] ([None] or empty when none is given). *)
Definition on_change (fuel : nat) (fs : Fs.t) (dir : string)
    (filename : option string) (st : State) : option Outcome :=
  let rootPath :=
    match workspaceRoot st with
    | Some root => if truthy root then root else dir
    | None => dir
    end in
  match readTree fuel fs rootPath with
  | None => None
  | Some fullTree =>
      let sent := [WorkspaceRefresh rootPath fullTree] in
      let subPath :=
        match filename with
        | Some name => if truthy name then Some (path_join fs dir name) else None
        | None => None
        end in
      let st' :=
        match subPath with
        | Some sub => safeStat fs sub
        | None => None
        end in
      match subPath, st' with
      | Some sub, Some stat =>
          if isDirectory stat then
            match Watch.attachWatcher fuel fs sub (watch st) with
            | None => None
            | Some c => Some (finish (workspaceRoot st) sent c)
            end
          else Some (finish (workspaceRoot st) sent (Watch.Normal (watch st)))
      | _, _ => Some (finish (workspaceRoot st) sent (Watch.Normal (watch st)))
      end
  end.

(** What the handler resolves to: [null], or the root and its tree. *)
Definition Picked : Type := option (string * option TreeNode).

(** The [pick-workspace] handler of lines 276-289, called with [path]
    ([None] for [undefined]); [dialog] is the folder the user picks,
    [None] when the dialog is cancelled.  The result is the state left and
    the value resolved, [None] for a handler that throws. *)
Definition pick_workspace (fuel : nat) (fs : Fs.t) (path : option string)
    (dialog : option string) (st : State)
    : option (State * option Picked) :=
  match path with
  | Some folder =>
      match readTree fuel fs folder with
      | None => None
      | Some tree => Some (st, Some (Some (folder, tree)))
      end
  | None =>
      match dialog with
      | None => Some (st, Some None)
      | Some folder =>
          if truthy folder then
            match Watch.watchFolderRecursive fuel fs folder (watch st) with
            | None => None
            | Some (Watch.Thrown s) =>
                Some ({| workspaceRoot := workspaceRoot st; watch := s |}, None)
            | Some (Watch.Normal s) =>
                match readTree fuel fs folder with
                | None => None
                | Some tree =>
                    Some ({| workspaceRoot := Some folder; watch := s |},
                          Some (Some (folder, tree)))
                end
            end
          else Some (st, Some None)
      end
  end.

(** The watch set is sound: every watcher in the map is open and was
    handed out before, no two directories share a watcher, and every
    closed watcher was handed out before. *)
Definition sound (s : Watch.State) : Prop :=
  (forall p w, Watch.watchers s !! p = Some w ->
               w < Watch.next_handle s /\ w ∉ Watch.closed s)
  /\ (forall p q w, Watch.watchers s !! p = Some w ->
                    Watch.watchers s !! q = Some w -> p = q)
  /\ (forall w, w ∈ Watch.closed s -> w < Watch.next_handle s).

(** No watch at all, as when the process starts. *)
Definition no_watch : Watch.State :=
  {| Watch.watchers := ∅; Watch.closed := ∅; Watch.next_handle := 0 |}.

(** The [window-all-closed] handler of lines 167-172: [close()] is called
    on every watcher in the map, and the map is left as it is.  [darwin]
    tells whether [process.platform] is ['darwin'].  The result is the
    state left and whether [app.quit()] is called; on darwin it is not,
    and the process goes on. *)
Definition window_all_closed (darwin : bool) (st : State) : State * bool :=
  ({| workspaceRoot := workspaceRoot st;
      watch :=
        {| Watch.watchers := Watch.watchers (watch st);
           Watch.closed :=
             Watch.closed (watch st) ∪ map_img (Watch.watchers (watch st));
           Watch.next_handle := Watch.next_handle (watch st) |} |},
   negb darwin).

End MainProcess.

(** ** Vocabulary for the watch set *)

Module Reach.
Import Fs.

(** [child] is a directory listed in [dir]. *)
Definition subdirectory (fs : Fs.t) (dir child : string) : Prop :=
  exists entries entry,
    readdirSync fs dir = Some entries /\ entry ∈ entries
    /\ d_kind entry = KDirectory /\ child = path_join fs dir (d_name entry).

(** The directories reached from [root] through the listings. *)
Inductive reachable (fs : Fs.t) (root : string) : string -> Prop :=
| reach_root : reachable fs root root
| reach_step dir child :
    reachable fs root dir -> subdirectory fs dir child ->
    reachable fs root child.

(** Every watched directory outside [pending] has all its listed
    subdirectories watched. *)
Definition covered (fs : Fs.t) (pending : string -> Prop) (s : Watch.State)
    : Prop :=
  forall dir child,
    is_Some (Watch.watchers s !! dir) -> ~ pending dir ->
    subdirectory fs dir child ->
    is_Some (Watch.watchers s !! child).

End Reach.

(** ** Sync Credential Store (main.js, [readServerSettings]) *)

Module Settings.

(** The values [JSON.parse] produces. *)
#[warnings="-register-all"]
Inductive Json :=
| JNull
| JBool (b : bool)
| JNum (z : Z)
| JStr (s : string)
| JArr (items : list Json)
| JObj (fields : list (string * Json)).

(** The empty record [{}]. *)
Definition empty_record : Json := JObj [].

(** A call either returns or throws; a rejected promise, once awaited,
    is a throw. *)
Inductive Result (A : Type) := Returns (a : A) | Throws.
Arguments Returns {A} a.
Arguments Throws {A}.

#[global] Instance Result_bind : MBind Result :=
  fun A B (k : A -> Result B) (m : Result A) =>
    match m with
    | Returns a => k a
    | Throws => Throws
    end.

Fixpoint lookup_field (k : string) (fields : list (string * Json)) : option Json :=
  match fields with
  | [] => None
  | (k', v) :: rest => if String.eqb k k' then Some v else lookup_field k rest
  end.

(** [settings.k]: a [TypeError] on [null], [undefined] ([None]) where the
    value has no such property. *)
Definition get (settings : Json) (k : string) : Result (option Json) :=
  match settings with
  | JNull => Throws
  | JObj fields => Returns (lookup_field k fields)
  | _ => Returns None
  end.

(** Truthiness of a property value. *)
Definition truthy_value (v : option Json) : bool :=
  match v with
  | None | Some JNull => false
  | Some (JBool b) => b
  | Some (JNum z) => negb (Z.eqb z 0)
  | Some (JStr s) => truthy s
  | Some (JArr _) | Some (JObj _) => true
  end.

(** [String(v)] for a parsed value: an array prints its elements joined
    by commas, [null] elements as nothing; an object of [JSON.parse] prints
    as [[object Object]].  A [JNum] is an integer, printed in decimal (as
    the engine does below 10^21). *)
Fixpoint to_string (v : Json) : string :=
  match v with
  | JNull => "null"
  | JBool true => "true"
  | JBool false => "false"
  | JNum z => pretty z
  | JStr s => s
  | JArr items =>
      join ","
        (map (fun item => match item with
                          | JNull => EmptyString
                          | _ => to_string item
                          end) items)
  | JObj _ => "[object Object]"
  end.

(** What a template literal prints for a property value. *)
Definition show (v : option Json) : string :=
  match v with
  | None => "undefined"
  | Some value => to_string value
  end.

(** How [exec(command, options, callback)] ends: it throws at once, or
    calls back with or without an error.  A child process that never
    exits is not modelled. *)
Inductive ExecOutcome := ExecThrows | ExecError | ExecOk.

(** The state of the machine as the main process finds it. *)
Record World := {
  existsSync : string -> bool;
  readFileSync : string -> option string;      (* [None]: throws *)
  writeFileSync_ok : string -> bool;           (* [false]: throws *)
  mkdirSync_ok : string -> bool;               (* [false]: throws *)
  APPDATA : option string;                     (* [process.env.APPDATA] *)
  exec : string -> ExecOutcome;
  path_join : string -> string -> string       (* [path.join] on the machine *)
}.

Section WithPlatform.

(** [JSON.parse], [None] for a [SyntaxError]. *)
Variable JSON_parse : string -> option Json.
(** [path.join(app.getPath('userData'), 'server-settings.json')] *)
Variable SERVER_SETTINGS_PATH : string.
(** [path.join(__dirname, 'server-settings.json')] *)
Variable defaultSettingsPath : string.

Definition parse (data : string) : Result Json :=
  match JSON_parse data with
  | Some v => Returns v
  | None => Throws
  end.

Definition read (w : World) (p : string) : Result string :=
  match readFileSync w p with
  | Some data => Returns data
  | None => Throws
  end.

(** Lines 64-85 on the value of [settings.rclonePath]: a truthy value
    that is not a string has no [endsWith] method. *)
Definition rcloneExecutable_of (v : option Json) : Result string :=
  if truthy_value v then
    match v with
    | Some (JStr s) => Returns (ToolPath.resolve_updateRcloneConfig (Some s))
    | _ => Throws
    end
  else Returns (ToolPath.resolve_updateRcloneConfig None).

(** The command line of lines 88-94. *)
Definition config_command (rcloneExecutable : string)
    (ip user pass : option Json) : string :=
  let configName := "cloud-compiler-sftp" in
  rcloneExecutable +:+ " config create " +:+ configName
  +:+ " sftp " +:+ "host=" +:+ quoted (show ip) +:+ " "
  +:+ "user=" +:+ quoted (show user) +:+ " " +:+ "port=22 "
  +:+ (if truthy_value pass
       then "pass=" +:+ quoted (show pass) +:+ " " else EmptyString)
  +:+ "--non-interactive".

(** main.js lines 45-110: the value the promise resolves to, or
    [Throws] when the executor throws and the promise is rejected. *)
Definition updateRcloneConfig (w : World) (settings : Json) : Result bool :=
  ip ← get settings "ip";
  user ← get settings "user";
  if negb (truthy_value ip) || negb (truthy_value user) then Returns false
  else
    match APPDATA w with
    | None => Throws        (* [path.join(undefined, 'rclone')] *)
    | Some appdata =>
        let rcloneConfigDir := path_join w appdata "rclone" in
        if negb (existsSync w rcloneConfigDir)
           && negb (mkdirSync_ok w rcloneConfigDir)
        then Returns false
        else
          rclonePath ← get settings "rclonePath";
          rcloneExecutable ← rcloneExecutable_of rclonePath;
          pass ← get settings "pass";
          let command := config_command rcloneExecutable ip user pass in
          match exec w command with
          | ExecThrows => Throws
          | ExecError => Returns false
          | ExecOk => Returns true
          end
    end.

(** The [try] block of lines 17-37: [Returns (Some v)] where a [return]
    statement is reached, [Returns None] where the block ends without
    one. *)
Definition readServerSettings_try (w : World) : Result (option Json) :=
  if existsSync w SERVER_SETTINGS_PATH then
    data ← read w SERVER_SETTINGS_PATH;
    settings ← parse data;
    _ ← updateRcloneConfig w settings;
    Returns (Some settings)
  else if existsSync w defaultSettingsPath then
    defaultData ← read w defaultSettingsPath;
    defaultSettings ← parse defaultData;
    _ ← (if writeFileSync_ok w SERVER_SETTINGS_PATH
          then Returns tt else Throws);
    _ ← updateRcloneConfig w defaultSettings;
    Returns (Some defaultSettings)
  else Returns None.

(** main.js lines 16-42: the [catch] logs to the console and falls
    through to [return {}]. *)
Definition readServerSettings (w : World) : Result Json :=
  match readServerSettings_try w with
  | Returns (Some settings) => Returns settings
  | Returns None => Returns empty_record
  | Throws => Returns empty_record
  end.

End WithPlatform.

End Settings.

(** ** Saving the settings (main.js, [writeServerSettings]) *)

Module SettingsWrite.
Import Settings.

Section WithPlatform.

(** [path.join(app.getPath('userData'), 'server-settings.json')] *)
Variable SERVER_SETTINGS_PATH : string.

(** The [try] block of lines 114-118.  The text written is
    [JSON.stringify(settings, null, 2)]; only whether the write throws
    bears on the value returned. *)
Definition writeServerSettings_try (w : World) (settings : Json) : Result bool :=
  _ ← (if writeFileSync_ok w SERVER_SETTINGS_PATH
        then Returns tt else Throws);
  _ ← updateRcloneConfig w settings;
  Returns true.

(** main.js lines 113-123 *)
Definition writeServerSettings (w : World) (settings : Json) : Result bool :=
  match writeServerSettings_try w settings with
  | Returns b => Returns b
  | Throws => Returns false
  end.

End WithPlatform.

End SettingsWrite.

(** ** The renderer: state, collaborators and the trace of effects *)

Module Renderer.

(** A value of [serverSettings.syncInterval], which is whatever the
    settings file or the settings dialog gave.  A number is held as such
    (an integer: the dialog stores [parseInt] of its field).  Any other
    value, [undefined] for a missing property included, is given by what
    [setupAutoSync] observes of it: whether it is truthy, what [ToNumber]
    makes of it ([None] for [NaN]), and what a template literal prints
    for it. *)
Inductive Interval :=
| Seconds (z : Z)
| NotNumber (is_truthy : bool) (number : option Z) (text : string).

(** [undefined], the value of a property that is missing. *)
Definition missing : Interval := NotNumber false None "undefined".

(** The [serverSettings] object of the renderer. *)
Record ServerSettings := {
  ip : option string;
  user : option string;
  pass : option string;
  rclonePath : option string;
  syncInterval : Interval
}.

(** The module-level variables of renderer.js the sync code reads and
    writes.  [autoSyncInterval] is [null] or the id [setInterval] gave. *)
Record State := {
  workspaceRoot : option string;
  serverSettings : ServerSettings;
  autoSyncInterval : option nat
}.

Definition truthy_opt (v : option string) : bool :=
  match v with
  | Some s => truthy s
  | None => false
  end.

(** What a template literal prints for a string that may be missing. *)
Definition show (missing : string) (v : option string) : string :=
  match v with
  | Some s => s
  | None => missing
  end.

(** The response object of the remote endpoint. *)
Record Reply := {
  success : bool;
  folderPath : option string;
  error : option string;
  output : option string;
  returncode : option Z
}.

(** How the [fetch] of [sendToServer] settles: it fails (a network error,
    a status that is not ok, a body that is no JSON) with a message, or
    yields a falsy JSON value, or a response object. *)
Inductive FetchResult :=
| FetchFailed (message : string)
| FetchFalsy
| FetchReply (r : Reply).

(** The object the [execute-rclone] handler of main.js resolves to. *)
Record ExecResult := {
  x_error : option string;
  x_stdout : string;
  x_stderr : string
}.

(** How [window.api.executeRclone] settles. *)
Inductive IpcResult :=
| IpcRejected (message : string)
| IpcOk (result : ExecResult).

(** The collaborators, as oracles, and the message of the [TypeError]
    the engine throws when [split] is read of [null]. *)
Record Env := {
  fetch : string -> string -> list (string * string) -> FetchResult;
  executeRclone : string -> IpcResult;
  null_split_message : string
}.

(** The observable effects. *)
Inductive Event :=
| Log (message : string)          (* [updateRunOutput], without the time *)
| Post (url action : string) (data : list (string * string))
| Exec (command : string).        (* an external process is started *)

(** A computation that emits events. *)
Definition M (A : Type) : Type := A * list Event.

Definition ret {A} (a : A) : M A := (a, []).

Definition bind {A B} (m : M A) (k : A -> M B) : M B :=
  let '(a, t1) := m in
  let '(b, t2) := k a in
  (b, (t1 ++ t2)%list).

Definition tell (e : Event) : M unit := (tt, [e]).

Definition log {A} (message : string) (k : M A) : M A :=
  bind (tell (Log message)) (fun _ => k).

Definition value {A} (m : M A) : A := fst m.
Definition trace {A} (m : M A) : list Event := snd m.

End Renderer.

(** ** Sync Engine (renderer.js, [sendToServer] and [syncWithServer]) *)

Module Sync.
Import Renderer.

(** [sendToServer] up to its [await fetch], lines 22-38: [true] when the
    request is sent. *)
Definition sendToServer_begin (st : State) (action : string)
    (data : list (string * string)) : M bool :=
  if negb (truthy_opt (ip (serverSettings st))) then
    log "Error: Server IP not configured" (ret false)
  else
    let url := "http://" +:+ show "undefined" (ip (serverSettings st))
               +:+ ":3100" in
    bind (tell (Post url action data)) (fun _ => ret true).

(** [sendToServer] once the request has settled, lines 40-49. *)
Definition sendToServer_settle (r : FetchResult) : M (option Reply) :=
  match r with
  | FetchFailed message =>
      log ("Error communicating with server: " +:+ message) (ret None)
  | FetchFalsy => ret None
  | FetchReply reply => ret (Some reply)
  end.

(** renderer.js lines 22-50 *)
Definition sendToServer (env : Env) (st : State) (action : string)
    (data : list (string * string)) : M (option Reply) :=
  bind (sendToServer_begin st action data) (fun sent =>
  if sent then
    let url := "http://" +:+ show "undefined" (ip (serverSettings st))
               +:+ ":3100" in
    sendToServer_settle (fetch env url action data)
  else ret None).

(** [syncWithServer] before the folder check, lines 114-120: the project
    name, or [None] where the function returns [false]. *)
Definition sync_begin (st : State) : M (option string) :=
  if negb (truthy_opt (workspaceRoot st))
     || negb (truthy_opt (ip (serverSettings st)))
     || negb (truthy_opt (user (serverSettings st)))
  then
    log "Error: Workspace not opened or server settings not configured"
      (ret None)
  else
    ret (Some (pop (split is_sep (show "null" (workspaceRoot st))))).

(** [syncWithServer] from the folder check's result to the command it
    is about to run, lines 124-162; [None] where it returns [false]. *)
Definition sync_after_check (st : State) (projectName : string)
    (checkResult : option Reply) : M (option string) :=
  match checkResult with
  | None => log "Error checking folder on server" (ret None)
  | Some checkResult =>
      if success checkResult then
        log ("Server folder ready: "
             +:+ show "undefined" (folderPath checkResult))
        (let rcloneExecutable :=
           ToolPath.resolve_syncWithServer (rclonePath (serverSettings st)) in
         let remotePath := "/shareOnling/" +:+ projectName in
         let rcloneCommand :=
           rcloneExecutable +:+ " sync "
           +:+ quoted (show "null" (workspaceRoot st)) +:+ " "
           +:+ quoted ("cloud-compiler-sftp:" +:+ remotePath) +:+ " "
           +:+ "--progress" in
         log ("Starting sync: " +:+ rcloneCommand) (ret (Some rcloneCommand)))
      else
        log ("Error preparing server folder: "
             +:+ show "undefined" (error checkResult))
          (ret None)
  end.

(** Lines 172-175. *)
Definition isRcloneNotFound (error : string) : bool :=
  (includes error "系统找不到指定的文件"
   || includes error "command not found"
   || includes error "The system cannot find")
  && negb (includes error "didn't find section").

(** Lines 196-198. *)
Definition keep_line (line : string) : bool :=
  negb (startsWith line "Transferred:")
  && negb (startsWith line "Elapsed time:")
  && negb (startsWith line "Checking:").

Definition filteredStderr (stderr : string) : string :=
  join nl (filter (fun line => keep_line line = true)
                  (split is_newline stderr)).

(** [syncWithServer] on the result of the sync tool, lines 167-209, and
    the [catch] of lines 210-213 for a rejected call. *)
Definition sync_after_rclone (result : IpcResult) : M bool :=
  match result with
  | IpcRejected message => log ("Sync exception: " +:+ message) (ret false)
  | IpcOk result =>
      if truthy_opt (x_error result) then
        let error := show EmptyString (x_error result) in
        log ("Sync error: " +:+ error)
        (if isRcloneNotFound error then
           log "Error: rclone executable not found. Please specify the full path to rclone.exe in server settings."
          (log "Example: F:\rclone\rclone.exe"
          (log "Download rclone from: https://rclone.org/downloads/"
          (ret false)))
         else
           log (nl +:+ "Troubleshooting tips:")
          (log "1. Check if server IP, username, and password are correct"
          (log "2. Ensure SFTP port 22 is open on the server"
          (log "3. Verify that the server has SFTP enabled"
          (log "4. Check if the remote directory exists on the server"
          (log "5. Ensure your network connection is stable"
          (ret false)))))))
      else
        bind (if truthy (x_stderr result) then
                let filtered := filteredStderr (x_stderr result) in
                if truthy filtered
                then tell (Log ("Sync stderr: " +:+ filtered))
                else ret tt
              else ret tt) (fun _ =>
        bind (if truthy (x_stdout result)
              then tell (Log ("Sync stdout: " +:+ x_stdout result))
              else ret tt) (fun _ =>
        log "Sync completed successfully - all files synced" (ret true)))
  end.

(** renderer.js lines 113-214, the awaits taken in sequence.  [st] holds
    the renderer's variables when the function is called, [later] what
    they are when the folder check has settled: the project name is taken
    before the [await] of line 123, and [serverSettings.rclonePath] and
    [workspaceRoot] are read after it (lines 138 and 159), when the
    handlers that ran meanwhile may have replaced them. *)
Definition syncWithServer_over (env : Env) (st later : State) : M bool :=
  bind (sync_begin st) (fun started =>
  match started with
  | None => ret false
  | Some projectName =>
      bind (sendToServer env st "checkFolder"
              [("folderName", projectName)]) (fun checkResult =>
      bind (sync_after_check later projectName checkResult) (fun ready =>
      match ready with
      | None => ret false
      | Some rcloneCommand =>
          bind (tell (Exec rcloneCommand)) (fun _ =>
          sync_after_rclone (executeRclone env rcloneCommand))
      end))
  end).

(** [syncWithServer] when no handler writes the renderer's variables
    while the folder check is awaited. *)
Definition syncWithServer (env : Env) (st : State) : M bool :=
  syncWithServer_over env st st.

(** The outcome kinds of the specification. *)
Inductive SyncOutcome :=
| Success
| ToolNotFound
| RemoteFolderError (message : string)
| TransferError (message : string).

(** The branch lines 177-189 take on a non-empty error message. *)
Definition classify (error : string) : SyncOutcome :=
  if isRcloneNotFound error then ToolNotFound else TransferError error.

(** The specification's vocabulary, stated without the string methods. *)

(** The text [p] occurs in [s]. *)
Definition contains (s p : string) : Prop := exists a b, s = a +:+ p +:+ b.

(** The message carries one of the tool-not-found signatures. *)
Definition tool_not_found_signature (error : string) : Prop :=
  contains error "系统找不到指定的文件"
  \/ contains error "command not found"
  \/ contains error "The system cannot find".

(** The message mentions a missing configuration section. *)
Definition mentions_missing_section (error : string) : Prop :=
  contains error "didn't find section".

(** The line begins with one of the progress prefixes. *)
Definition progress_line (line : string) : Prop :=
  exists rest,
    line = "Transferred:" +:+ rest
    \/ line = "Elapsed time:" +:+ rest
    \/ line = "Checking:" +:+ rest.

(** The guided remediation of lines 178-180 and the generic
    troubleshooting of lines 183-188, as they appear in the log. *)
Definition remediation : list Event :=
  [ Log "Error: rclone executable not found. Please specify the full path to rclone.exe in server settings.";
    Log "Example: F:\rclone\rclone.exe";
    Log "Download rclone from: https://rclone.org/downloads/" ].

Definition troubleshooting : list Event :=
  [ Log (nl +:+ "Troubleshooting tips:");
    Log "1. Check if server IP, username, and password are correct";
    Log "2. Ensure SFTP port 22 is open on the server";
    Log "3. Verify that the server has SFTP enabled";
    Log "4. Check if the remote directory exists on the server";
    Log "5. Ensure your network connection is stable" ].

(** The result object of a sync tool that ended with [error]. *)
Definition failed_with (error stdout stderr : string) : IpcResult :=
  IpcOk {| x_error := Some error; x_stdout := stdout; x_stderr := stderr |}.

(** The result object of a sync tool that ended without error. *)
Definition succeeded_with (stdout stderr : string) : IpcResult :=
  IpcOk {| x_error := None; x_stdout := stdout; x_stderr := stderr |}.

End Sync.

(** ** Remote Run Orchestrator (renderer.js, [runCodeOnServer]) *)

Module Run.
Import Renderer Sync.

(** [s.replace(pattern, '')] for a string pattern: the first occurrence
    is removed. *)
Fixpoint remove_first (s pattern : string) : string :=
  if String.prefix pattern s then
    String.substring (String.length pattern)
      (String.length s - String.length pattern) s
  else match s with
       | EmptyString => EmptyString
       | String c s' => String c (remove_first s' pattern)
       end.

(** [s.replace(/^[/\\]/, '')] *)
Definition strip_leading_sep (s : string) : string :=
  match s with
  | String c s' => if is_sep c then s' else s
  | EmptyString => EmptyString
  end.

Definition show_code (v : option Z) : string :=
  match v with
  | Some z => pretty z
  | None => "undefined"
  end.

(** Lines 681-704: the report of the run result. *)
Definition report (runResult : option Reply) : M unit :=
  match runResult with
  | Some runResult =>
      if success runResult then
        log (nl +:+ "=== RUN SUCCESS ===")
        (bind (if truthy_opt (output runResult)
               then log "Output:"
                      (tell (Log (show EmptyString (output runResult))))
               else ret tt) (fun _ =>
         bind (if truthy_opt (error runResult)
               then log "Warnings:"
                      (tell (Log (show EmptyString (error runResult))))
               else ret tt) (fun _ =>
         tell (Log ("Return code: " +:+ show_code (returncode runResult))))))
      else
        log (nl +:+ "=== RUN FAILED ===")
        (bind (if truthy_opt (error runResult)
               then log "Error:"
                      (tell (Log (show EmptyString (error runResult))))
               else ret tt) (fun _ =>
         match returncode runResult with
         | Some z => tell (Log ("Return code: " +:+ pretty z))
         | None => ret tt
         end))
  | None => tell (Log "Error: Failed to get run result from server")
  end.

(** [runCodeOnServer] after its [await syncWithServer()], lines 664-708,
    on the renderer's variables of that moment.  With [workspaceRoot]
    [null], line 669 throws and the [catch] of line 705 logs the message. *)
Definition run_after_sync (env : Env) (st : State) (filePath content : string)
    (syncSuccess : bool) : M unit :=
  if negb syncSuccess then
    tell (Log "Error: Failed to sync with server before running")
  else
    match workspaceRoot st with
    | None => tell (Log ("Run error: " +:+ null_split_message env))
    | Some root =>
        let projectName := pop (split is_sep root) in
        let relativeFilePath :=
          strip_leading_sep (remove_first filePath root) in
        log ("Running code: " +:+ relativeFilePath)
        (bind (sendToServer env st "runCode"
                 [("folderName", projectName);
                  ("filePath", relativeFilePath);
                  ("content", content)]) report)
    end.

(** renderer.js lines 655-709.  [st] holds the renderer's variables when
    the function is called, [later] what they are when the folder check
    of the mirror has settled, and [after] what they are when the mirror
    has returned: lines 669-679 read [workspaceRoot] and
    [serverSettings.ip] only then. *)
Definition runCodeOnServer_over (env : Env) (st later after : State)
    (filePath content : string) : M unit :=
  if negb (truthy_opt (workspaceRoot st))
     || negb (truthy_opt (ip (serverSettings st)))
  then tell (Log "Error: Workspace not opened or server not configured")
  else
    bind (syncWithServer_over env st later)
      (run_after_sync env after filePath content).




End Run.

(** ** Auto-Sync Scheduler (renderer.js, [setupAutoSync]) *)

Module Scheduler.
Import Renderer.

(** The interval timers of the runtime: the live ones, each with its id
    and its period in milliseconds, and the id the next one gets.  Timer
    ids are positive. *)
Record Timers := {
  live : list (nat * Z);
  next_id : nat
}.

Definition no_timers : Timers := {| live := []; next_id := 1 |}.

(** [setInterval(callback, ms)]; the callback is always the one of lines
    722-724, which calls [syncWithServer]. *)
Definition setInterval (ms : Z) (tm : Timers) : nat * Timers :=
  (next_id tm,
   {| live := live tm ++ [(next_id tm, ms)]; next_id := S (next_id tm) |}).

(** [clearInterval(id)] *)
Definition clearInterval (id : nat) (tm : Timers) : Timers :=
  {| live := filter (fun t => fst t ≠ id) (live tm);
     next_id := next_id tm |}.

(** Truthiness of [autoSyncInterval]: [null] and [0] are falsy. *)
Definition timer_truthy (v : option nat) : bool :=
  match v with
  | Some id => negb (Nat.eqb id 0)
  | None => false
  end.

(** Truthiness of an interval value: [0] is falsy. *)
Definition interval_truthy (v : Interval) : bool :=
  match v with
  | Seconds z => negb (Z.eqb z 0)
  | NotNumber is_truthy _ _ => is_truthy
  end.

(** [serverSettings.syncInterval || 30] *)
Definition interval_or_default (v : Interval) : Interval :=
  if interval_truthy v then v else Seconds 30.

(** [ToNumber], [None] for [NaN]. *)
Definition to_number (v : Interval) : option Z :=
  match v with
  | Seconds z => Some z
  | NotNumber _ number _ => number
  end.

(** What the template literal of line 721 prints. *)
Definition interval_text (v : Interval) : string :=
  match v with
  | Seconds z => pretty z
  | NotNumber _ _ text => text
  end.

(** renderer.js lines 712-726.  A comparison with [NaN] is false. *)
Definition setupAutoSync (st : State) (tm : Timers) : M (State * Timers) :=
  let '(st1, tm1) :=
    if timer_truthy (autoSyncInterval st) then
      (* clearInterval(autoSyncInterval); autoSyncInterval = null *)
      ({| workspaceRoot := workspaceRoot st;
          serverSettings := serverSettings st;
          autoSyncInterval := None |},
       match autoSyncInterval st with
       | Some id => clearInterval id tm
       | None => tm
       end)
    else (st, tm) in
  let interval := interval_or_default (syncInterval (serverSettings st1)) in
  match to_number interval with
  | Some z =>
      if (0 <? z)%Z then
        log ("Setting up auto sync every " +:+ interval_text interval
             +:+ " seconds")
          (let '(id, tm2) := setInterval (z * 1000)%Z tm1 in
           ret ({| workspaceRoot := workspaceRoot st1;
                   serverSettings := serverSettings st1;
                   autoSyncInterval := Some id |}, tm2))
      else ret (st1, tm1)
  | None => ret (st1, tm1)
  end.

(** The period in milliseconds of the timer [setupAutoSync] arms for a
    value of [syncInterval], [None] when it arms none. *)
Definition period (v : Interval) : option Z :=
  match to_number (interval_or_default v) with
  | Some z => if (0 <? z)%Z then Some (z * 1000)%Z else None
  | None => None
  end.

(** [serverSettings.syncInterval] is given a new value, as the
    settings-save handler and [loadServerSettings] do before they call
    [setupAutoSync]. *)
Definition with_syncInterval (v : Interval) (st : State) : State :=
  {| workspaceRoot := workspaceRoot st;
     serverSettings :=
       {| ip := ip (serverSettings st);
          user := user (serverSettings st);
          pass := pass (serverSettings st);
          rclonePath := rclonePath (serverSettings st);
          syncInterval := v |};
     autoSyncInterval := autoSyncInterval st |}.

(** A sequence of calls of [setupAutoSync], each with the configured
    interval of its time. *)
Fixpoint rearm (intervals : list Interval) (st : State) (tm : Timers)
    : State * Timers :=
  match intervals with
  | [] => (st, tm)
  | v :: rest =>
      let '(st', tm') := value (setupAutoSync (with_syncInterval v st) tm) in
      rearm rest st' tm'
  end.

(** The renderer when it starts: no timer requested, none live. *)
Definition initial (root : option string) (settings : ServerSettings) : State :=
  {| workspaceRoot := root; serverSettings := settings;
     autoSyncInterval := None |}.

(** The timer the renderer remembers is the only live one. *)
Definition tidy (st : State) (tm : Timers) : Prop :=
  next_id tm <> 0
  /\ ((autoSyncInterval st = None /\ live tm = [])
      \/ exists id ms,
           autoSyncInterval st = Some id /\ id <> 0
           /\ live tm = [(id, ms)]).

End Scheduler.

(** ** The renderer's event loop: activations of [syncWithServer] that
     interleave at their awaits *)

Module EventLoop.
Import Renderer Sync.

(** Where an activation of [syncWithServer] stands: suspended at
    [await sendToServer('checkFolder', ...)], suspended at
    [await window.api.executeRclone(...)] with the sync tool's process
    running, or returned. *)
Inductive Phase :=
| AwaitCheck (projectName url : string)
| AwaitRclone (rcloneCommand : string)
| Returned (result : bool).

(** Who calls [syncWithServer]: [runCodeOnServer] for the run button
    (line 663), [syncWorkspace] for the settings-save handler (line 736),
    [applyWorkspace] on workspace open (line 318), the timer's callback
    (line 723). *)
Inductive Caller := RunButton | SettingsSave | WorkspaceOpen | AutoSyncTick.

Inductive Input :=
| Call (c : Caller)
| CheckSettled (i : nat) (r : FetchResult)
| RcloneSettled (i : nat) (r : IpcResult).

(** The loop: the renderer's variables, the activations in the order
    they were started, and the events so far. *)
Record Loop := {
  state : State;
  tasks : list Phase;
  events : list Event
}.

(** What the caller checks itself before it calls [syncWithServer]: the
    guard of [runCodeOnServer] (lines 656-659), a live timer for a tick,
    nothing for the others. *)
Definition caller_proceeds (c : Caller) (st : State) : M bool :=
  match c with
  | RunButton =>
      if negb (truthy_opt (workspaceRoot st))
         || negb (truthy_opt (ip (serverSettings st)))
      then log "Error: Workspace not opened or server not configured"
             (ret false)
      else ret true
  | AutoSyncTick => ret (Scheduler.timer_truthy (autoSyncInterval st))
  | SettingsSave | WorkspaceOpen => ret true
  end.

(** [syncWithServer()] is called: it runs to its first await. *)
Definition start (st : State) : M Phase :=
  bind (sync_begin st) (fun started =>
  match started with
  | None => ret (Returned false)
  | Some projectName =>
      bind (sendToServer_begin st "checkFolder"
              [("folderName", projectName)]) (fun sent =>
      if sent then
        ret (AwaitCheck projectName
               ("http://" +:+ show "undefined" (ip (serverSettings st))
                +:+ ":3100"))
      else
        (* [sendToServer] returned [null] without a request *)
        bind (sync_after_check st projectName None) (fun _ =>
        ret (Returned false)))
  end).

(** The folder check of an activation settles: it runs to the next
    await, where the sync tool is started. *)
Definition resume_check (st : State) (projectName : string)
    (r : FetchResult) : M Phase :=
  bind (sendToServer_settle r) (fun checkResult =>
  bind (sync_after_check st projectName checkResult) (fun ready =>
  match ready with
  | None => ret (Returned false)
  | Some rcloneCommand =>
      bind (tell (Exec rcloneCommand)) (fun _ =>
      ret (AwaitRclone rcloneCommand))
  end)).

(** The sync tool of an activation ends: it runs to its return. *)
Definition resume_rclone (r : IpcResult) : M Phase :=
  bind (sync_after_rclone r) (fun b => ret (Returned b)).

Definition emit (l : Loop) (ts : list Phase) (m : list Event) : Loop :=
  {| state := state l; tasks := ts; events := events l ++ m |}.

Definition step (l : Loop) (i : Input) : Loop :=
  match i with
  | Call c =>
      let '(go, t0) := caller_proceeds c (state l) in
      if go then
        let '(ph, t1) := start (state l) in
        emit l (tasks l ++ [ph]) (t0 ++ t1)
      else emit l (tasks l) t0
  | CheckSettled i r =>
      match tasks l !! i with
      | Some (AwaitCheck projectName _) =>
          let '(ph, t) := resume_check (state l) projectName r in
          emit l (<[i := ph]> (tasks l)) t
      | _ => l
      end
  | RcloneSettled i r =>
      match tasks l !! i with
      | Some (AwaitRclone _) =>
          let '(ph, t) := resume_rclone r in
          emit l (<[i := ph]> (tasks l)) t
      | _ => l
      end
  end.

Definition run (l : Loop) (inputs : list Input) : Loop :=
  foldl step l inputs.

Definition fresh (st : State) : Loop :=
  {| state := st; tasks := []; events := [] |}.

Definition is_running (ph : Phase) : bool :=
  match ph with AwaitRclone _ => true | _ => false end.

Definition is_pending (ph : Phase) : bool :=
  match ph with Returned _ => false | _ => true end.

(** The sync-tool processes started and not yet ended. *)
Definition in_flight (l : Loop) : nat :=
  length (filter (fun ph => is_running ph = true) (tasks l)).

(** The activations that have not returned. *)
Definition pending (l : Loop) : nat :=
  length (filter (fun ph => is_pending ph = true) (tasks l)).

(** No caller overlaps another: each call arrives when every earlier
    activation has returned. *)
Fixpoint serial (l : Loop) (inputs : list Input) : Prop :=
  match inputs with
  | [] => True
  | i :: rest =>
      match i with
      | Call _ => pending l = 0
      | _ => True
      end /\ serial (step l i) rest
  end.

(** One activation driven to its end by the answers of the collaborators. *)
Definition drive (env : Env) (l : Loop) (i : nat)
    : Loop :=
  match tasks l !! i with
  | Some (AwaitCheck projectName url) =>
      let l' :=
        step l
          (CheckSettled i
             (fetch env url "checkFolder"
                [("folderName", projectName)])) in
      match tasks l' !! i with
      | Some (AwaitRclone rcloneCommand) =>
          step l'
            (RcloneSettled i
               (executeRclone env rcloneCommand))
      | _ => l'
      end
  | _ => l
  end.

End EventLoop.

(** ** The mirror's request and command, and the availability check
       (renderer.js, [syncWithServer] and [checkRcloneAvailability]) *)

Module Mirror.
Import Renderer Sync.

(** The endpoint [sendToServer] posts to, line 28. *)
Definition url (st : State) : string :=
  "http://" +:+ show "undefined" (ip (serverSettings st)) +:+ ":3100".

(** [workspaceRoot.split(/[/\\]/).pop()], line 120. *)
Definition projectName (st : State) : string :=
  pop (split is_sep (show "null" (workspaceRoot st))).

(** The command line of lines 158-160. *)
Definition rcloneCommand (st : State) : string :=
  ToolPath.resolve_syncWithServer (rclonePath (serverSettings st))
  +:+ " sync " +:+ quoted (show "null" (workspaceRoot st)) +:+ " "
  +:+ quoted ("cloud-compiler-sftp:" +:+ "/shareOnling/" +:+ projectName st)
  +:+ " " +:+ "--progress".

(** The command line of lines 158-160 for the project name taken at line
    120 and the variables as they are read at lines 138 and 159. *)
Definition commandLine (projectName : string) (later : State) : string :=
  ToolPath.resolve_syncWithServer (rclonePath (serverSettings later))
  +:+ " sync " +:+ quoted (show "null" (workspaceRoot later)) +:+ " "
  +:+ quoted ("cloud-compiler-sftp:" +:+ "/shareOnling/" +:+ projectName)
  +:+ " " +:+ "--progress".

(** The precondition of line 114. *)
Definition preconditions (st : State) : bool :=
  truthy_opt (workspaceRoot st)
  && truthy_opt (ip (serverSettings st))
  && truthy_opt (user (serverSettings st)).




Definition is_exec (e : Event) : bool :=
  match e with Exec _ => true | _ => false end.

Definition is_post (e : Event) : bool :=
  match e with Post _ _ _ => true | _ => false end.

Definition is_log (e : Event) : bool :=
  match e with Log _ => true | _ => false end.

End Mirror.

(** ** Language detection (renderer.js, [detectLanguage]) *)

Module Language.

(** renderer.js lines 630-653 *)
Definition detectLanguage (filename content : string) : string :=
  let f := toLowerCase filename in
  if endsWith f ".ts" then "typescript"
  else if endsWith f ".js" then "javascript"
  else if endsWith f ".jsx" then "javascript"
  else if endsWith f ".tsx" then "typescript"
  else if endsWith f ".py" then "python"
  else if endsWith f ".cpp" || endsWith f ".cc" || endsWith f ".cxx" then "cpp"
  else if endsWith f ".c" then "c"
  else if endsWith f ".java" then "java"
  else if endsWith f ".json" then "json"
  else if endsWith f ".md" then "markdown"
  else if endsWith f ".html" then "html"
  else if endsWith f ".css" then "css"
  else if endsWith f ".sh" then "shell"
  else if truthy content && startsWith content "#!" then
    if includes content "python" then "python"
    else if includes content "node" then "javascript"
    else if includes content "bash" || includes content "sh" then "shell"
    else "plaintext"
  else "plaintext".

(** The language ids the function can return. *)
Definition languages : list string :=
  ["typescript"; "javascript"; "python"; "cpp"; "c"; "java"; "json";
   "markdown"; "html"; "css"; "shell"; "plaintext"].

(** The extensions lines 632-644 test. *)
Definition extensions : list string :=
  [".ts"; ".js"; ".jsx"; ".tsx"; ".py"; ".cpp"; ".cc"; ".cxx"; ".c";
   ".java"; ".json"; ".md"; ".html"; ".css"; ".sh"].

(** The lowercased file name ends in one of the known extensions. *)
Definition known_extension (filename : string) : bool :=
  existsb (endsWith (toLowerCase filename)) extensions.

End Language.

(** ** Tabs (renderer.js, [openFile], [activateTab], [closeTab],
       [saveActiveTab], the content-change listener, [promptRename]) *)

Module Tabs.

(** A tab object; [model] is the Monaco model it holds, named by the uri
    it was created for. *)
Record Tab := {
  path : string;
  name : string;
  model : string;
  language : string;
  dirty : bool
}.

(** A Monaco text model. *)
Record Model := {
  value : string;
  model_language : string
}.

(** The module-level [tabs] and [activeTabPath], the model the editor
    shows ([editor.setModel]), and Monaco's models by uri. *)
Record State := {
  tabs : list Tab;
  activeTabPath : option string;
  shown : option string;
  models : gmap string Model
}.

Definition with_tabs (ts : list Tab) (st : State) : State :=
  {| tabs := ts; activeTabPath := activeTabPath st; shown := shown st;
     models := models st |}.

(** [tabs.find(t => t.path === filePath)] *)
Definition find_path (filePath : string) (ts : list Tab) : option Tab :=
  List.find (fun t => String.eqb (path t) filePath) ts.

(** [tabs.findIndex(t => t.path === filePath)], [None] for [-1] *)
Fixpoint findIndex_path (filePath : string) (ts : list Tab) : option nat :=
  match ts with
  | [] => None
  | t :: rest =>
      if String.eqb (path t) filePath then Some 0
      else match findIndex_path filePath rest with
           | Some i => Some (S i)
           | None => None
           end
  end.

(** The first tab that satisfies [test] is replaced by its image under
    [change]: a [find] followed by an assignment to the object found. *)
Fixpoint update_first (test : Tab -> bool) (change : Tab -> Tab)
    (ts : list Tab) : list Tab :=
  match ts with
  | [] => []
  | t :: rest =>
      if test t then change t :: rest
      else t :: update_first test change rest
  end.

Definition set_dirty (d : bool) (t : Tab) : Tab :=
  {| path := path t; name := name t; model := model t;
     language := language t; dirty := d |}.

(** The listener of lines 230-237, for a change of the content of the
    model [m]. *)
Definition on_content_change (m : string) (st : State) : State :=
  with_tabs
    (update_first (fun t => String.eqb (model t) m)
       (fun t => if negb (dirty t) then set_dirty true t else t) (tabs st))
    st.

(** renderer.js lines 534-542 *)
Definition activateTab (filePath : string) (st : State) : State :=
  match find_path filePath (tabs st) with
  | None => st
  | Some tab =>
      {| tabs := tabs st; activeTabPath := Some filePath;
         shown := Some (model tab); models := models st |}
  end.

Section WithMonaco.

(** [monaco.Uri.file]; Monaco keeps one model for a uri, and this program
    disposes of none, so a model is named by its uri. *)
Variable Uri_file : string -> string.

(** renderer.js lines 508-513: the part of [openFile] before the [await]
    of [window.api.readFile].  The boolean tells whether the file is to
    be read. *)
Definition openFile_begin (filePath : string) (st : State) : State * bool :=
  match find_path filePath (tabs st) with
  | Some existing => (activateTab (path existing) st, false)
  | None => (st, true)
  end.

(** renderer.js lines 515-530: the part of [openFile] after the [await],
    run on the state of that moment.  [read] is what
    [window.api.readFile] resolves to, [None] when it rejects; [fires]
    tells whether Monaco reports a content change for the [setValue] of
    line 522. *)
Definition openFile_resume (filePath fileName : string)
    (read : option string) (fires : bool) (st : State) : State :=
  match read with
  | None => st
  | Some content =>
      let language := Language.detectLanguage fileName content in
      let uri := Uri_file filePath in
      let st1 :=
        match models st !! uri with
        | None => st
        | Some _ => if fires then on_content_change uri st else st
        end in
      let tab := {| path := filePath; name := fileName; model := uri;
                    language := language; dirty := false |} in
      activateTab filePath
        {| tabs := tabs st1 ++ [tab];
           activeTabPath := activeTabPath st1;
           shown := shown st1;
           models := <[uri := {| value := content;
                                 model_language := language |}]>
                       (models st1) |}
  end.

(** [openFile] when nothing else happens while the file is read. *)
Definition openFile (filePath fileName : string) (read : option string)
    (fires : bool) (st : State) : State :=
  let '(st0, reads) := openFile_begin filePath st in
  if reads then openFile_resume filePath fileName read fires st0 else st0.

End WithMonaco.

(** renderer.js lines 545-568.  [confirmed] is the answer to the
    [confirm] dialog, asked only for a dirty tab. *)
Definition closeTab (filePath : string) (confirmed : bool) (st : State)
    : State :=
  match findIndex_path filePath (tabs st) with
  | None => st
  | Some idx =>
      match tabs st !! idx with
      | None => st
      | Some tab =>
          if dirty tab && negb confirmed then st
          else
            let ts := delete idx (tabs st) in
            match activeTabPath st with
            | Some active =>
                if String.eqb active filePath then
                  let next :=
                    match ts !! idx with
                    | Some t => Some t
                    | None =>
                        match idx with
                        | O => None
                        | S i => ts !! i
                        end
                    end in
                  {| tabs := ts;
                     activeTabPath := path <$> next;
                     shown := model <$> next;
                     models := models st |}
                else with_tabs ts st
            | None => with_tabs ts st
            end
      end
  end.

(** renderer.js lines 570-579, when nothing else happens while the file
    is written.  [saved] tells whether [window.api.saveFile] resolves.
    The result is the state and the save request made, if any. *)
Definition saveActiveTab (saved : bool) (st : State)
    : State * option (string * string) :=
  match activeTabPath st with
  | None => (st, None)
  | Some active =>
      match find_path active (tabs st) with
      | None => (st, None)
      | Some tab =>
          let content :=
            match models st !! model tab with
            | Some m => value m
            | None => EmptyString
            end in
          let request := Some (path tab, content) in
          if saved then
            (with_tabs
               (update_first (fun t => String.eqb (path t) active)
                  (set_dirty false) (tabs st)) st,
             request)
          else (st, request)
      end
  end.

Definition rename_tab (oldPath newPath newName : string) (t : Tab) : Tab :=
  if String.eqb (path t) oldPath then
    {| path := newPath; name := newName; model := model t;
       language := language t; dirty := dirty t |}
  else t.

(** The Enter branch of the handler of [promptRename], lines 461-483, for
    the trimmed text [newName] of the input.  [renamed] is the [path] of
    what [window.api.renameEntry] resolves to, [None] when the call
    rejects or gives no path, and [st] the state when it settles.  The
    result is the state and whether the rename was requested. *)
Definition promptRename_enter (oldPath newName : string)
    (renamed : option string) (st : State) : State * bool :=
  let base := pop (split is_sep oldPath) in
  if negb (truthy newName) || String.eqb newName base then (st, false)
  else
    match renamed with
    | None => (st, true)
    | Some newPath =>
        if truthy newPath then
          ({| tabs := map (rename_tab oldPath newPath newName) (tabs st);
              activeTabPath :=
                match activeTabPath st with
                | Some active =>
                    if String.eqb active oldPath then Some newPath
                    else Some active
                | None => None
                end;
              shown := shown st;
              models := models st |}, true)
        else (st, true)
    end.

(** No tab open, as when the renderer starts. *)
Definition initial : State :=
  {| tabs := []; activeTabPath := None; shown := None; models := ∅ |}.

(** The tab bar is coherent: no two tabs have the same path, and the
    active path, if any, is the path of an open tab whose model the editor
    shows. *)
Definition coherent (st : State) : Prop :=
  NoDup (path <$> tabs st)
  /\ forall p, activeTabPath st = Some p ->
       exists t, t ∈ tabs st /\ path t = p /\ shown st = Some (model t).

End Tabs.

(** ** The explorer of the renderer *)

Module Explorer.
Import Tree Snapshot.

(** renderer.js line 8 *)
Definition ALWAYS_COLLAPSED : list string :=
  ["node_modules"; ".git"; ".venv"; "venv"; "__pycache__"].

(** [ALWAYS_COLLAPSED.has(name)] *)
Definition always_collapsed (name : string) : bool :=
  existsb (String.eqb name) ALWAYS_COLLAPSED.

(** The [li] element built for a node: the name shown, for a folder
    whether its icon is the expanded one, and the items of its list of
    children. *)
#[warnings="-register-all"]
Inductive Item :=
| FileItem (name : string)
| FolderItem (name : string) (expanded : bool) (children : list Item).

(** [isExpanded] of lines 339-342 *)
Definition isExpanded (expandedPaths : gset string) (node : TreeNode)
    : bool :=
  match node with
  | Folder name path _ =>
      bool_decide (path ∈ expandedPaths) && negb (always_collapsed name)
  | FileNode _ _ => false
  end.

(** The [for] loop of lines 376-378 over a list of children, with the
    recursive call abstracted.  [None] is an exception: the call on a
    [null] child reads [node.type] and throws a [TypeError]. *)
Definition items_of (render : TreeNode -> option Item)
    : list (option TreeNode) -> option (list Item) :=
  fix loop (cs : list (option TreeNode)) : option (list Item) :=
    match cs with
    | [] => Some []
    | None :: _ => None
    | Some child :: rest =>
        match render child with
        | None => None
        | Some item =>
            match loop rest with
            | None => None
            | Some items => Some (item :: items)
            end
        end
    end.

(** renderer.js lines 330-384, for a node that is an object; [None] when
    the function throws. *)
Fixpoint createTreeItem (expandedPaths : gset string) (node : TreeNode)
    : option Item :=
  match node with
  | FileNode name _ => Some (FileItem name)
  | Folder name path children =>
      if isExpanded expandedPaths node then
        match items_of (createTreeItem expandedPaths) children with
        | None => None
        | Some items => Some (FolderItem name true items)
        end
      else Some (FolderItem name false [])
  end.

(** renderer.js lines 321-328, for the tree an IPC message carries. *)
Definition renderTree (expandedPaths : gset string)
    (tree : option TreeNode) : option Item :=
  match tree with
  | None => None
  | Some node => createTreeItem expandedPaths node
  end.

(** The [onclick] of a folder row, lines 361-370: the new
    [expandedPaths]. *)
Definition click (expandedPaths : gset string) (node : TreeNode)
    : gset string :=
  match node with
  | Folder name path _ =>
      if bool_decide (path ∈ expandedPaths) && negb (always_collapsed name)
      then expandedPaths ∖ {[path]}
      else expandedPaths ∪ {[path]}
  | FileNode _ _ => expandedPaths
  end.

(** [workspaceRoot] and [expandedPaths] *)
Record State := {
  workspaceRoot : option string;
  expandedPaths : gset string
}.

(** renderer.js lines 310-319, up to the call of [syncWithServer]: the
    state, and the item rendered, [None] when [renderTree] throws, in
    which case the function ends there and [syncWithServer] is not
    called. *)
Definition applyWorkspace (rootPath : string) (tree : option TreeNode)
    : State * option Item :=
  ({| workspaceRoot := Some rootPath; expandedPaths := {[rootPath]} |},
   renderTree {[rootPath]} tree).

End Explorer.

(** ** The refresh of the explorer after a change made from it *)

Module Refresh.
Import Fs Tree.

(** preload.js line 5: [pickWorkspace: () =>
    ipcRenderer.invoke('pick-workspace')].  Whatever the renderer passes,
    the handler is invoked with no path. *)
Definition api_pickWorkspace (fuel : nat) (fs : Fs.t) (arg : option string)
    (dialog : option string) (st : MainProcess.State)
    : option (MainProcess.State * option MainProcess.Picked) :=
  MainProcess.pick_workspace fuel fs None dialog st.

(** [res && res.rootPath === workspaceRoot] *)
Definition same_root (res : MainProcess.Picked)
    (workspaceRoot : option string) : bool :=
  match res, workspaceRoot with
  | Some (rootPath, _), Some root => String.eqb rootPath root
  | _, _ => false
  end.

(** renderer.js lines 438-439 in [promptCreate], 486-487 in
    [promptRename] and 503-504 in [promptDelete], for the renderer's
    [workspaceRoot]: the state of the main process afterwards and the tree
    [renderTree] is called with, if it is called.  The outer [option] is
    the fuel. *)
Definition refresh (fuel : nat) (fs : Fs.t) (workspaceRoot : option string)
    (dialog : option string) (st : MainProcess.State)
    : option (MainProcess.State * option (option TreeNode)) :=
  match api_pickWorkspace fuel fs workspaceRoot dialog st with
  | None => None
  | Some (st', None) => Some (st', None)
  | Some (st', Some res) =>
      if same_root res workspaceRoot then
        match res with
        | Some (_, tree) => Some (st', Some tree)
        | None => Some (st', None)
        end
      else Some (st', None)
  end.

End Refresh.

(** ** Vocabulary for the ends of strings *)

Module Ends.

(** The last character of a string. *)
Fixpoint last_char (s : string) : option ascii :=
  match s with
  | EmptyString => None
  | String c EmptyString => Some c
  | String _ s' => last_char s'
  end.

End Ends.

(** ** Scenarios *)

(** [path.join] and [path.basename] as they are on POSIX for a normalised
    absolute directory other than the root and a plain entry name, which
    is how the scenarios below use them. *)
Definition posix_join (dir name : string) : string := dir +:+ "/" +:+ name.

Definition posix_basename (p : string) : string :=
  pop (split (fun c => Ascii.eqb c "/"%char) p).

(** A workspace with two files and a subdirectory that is removed after
    the workspace was listed and before the walk reaches it. *)
Definition vanishing_fs : Fs.t :=
  {| Fs.statSync := fun p =>
       if String.eqb p "/ws" then Some {| Fs.isDirectory := true |} else None;
     Fs.readdirSync := fun p =>
       if String.eqb p "/ws" then
         Some [ {| Fs.d_name := "a.txt"; Fs.d_kind := Fs.KFile |};
                {| Fs.d_name := "gone"; Fs.d_kind := Fs.KDirectory |};
                {| Fs.d_name := "b.txt"; Fs.d_kind := Fs.KFile |} ]
       else None;
     Fs.watch_ok := fun _ => true;
     Fs.path_join := posix_join;
     Fs.path_basename := posix_basename |}.

(** Two sibling folders whose names share a prefix, both watched. *)
Definition siblings_watched : Watch.State :=
  {| Watch.watchers := <["/ws/app" := 0]> (<["/ws/app-old" := 1]> ∅);
     Watch.closed := ∅;
     Watch.next_handle := 2 |}.

Definition flat_fs : Fs.t :=
  {| Fs.statSync := fun _ => Some {| Fs.isDirectory := true |};
     Fs.readdirSync := fun _ => Some [];
     Fs.watch_ok := fun _ => true;
     Fs.path_join := posix_join;
     Fs.path_basename := posix_basename |}.

(** [path.join] on Windows for a normalised directory and a plain name. *)
Definition win32_join (dir name : string) : string := dir +:+ "\" +:+ name.

(** A machine with no settings file at all, one whose persisted file
    cannot be parsed, and one whose bundled default cannot be read. *)
Definition bare_world (present : string -> bool)
    (content : string -> option string) : Settings.World :=
  {| Settings.existsSync := present;
     Settings.readFileSync := content;
     Settings.writeFileSync_ok := fun _ => true;
     Settings.mkdirSync_ok := fun _ => true;
     Settings.APPDATA := Some "C:\Users\u\AppData\Roaming";
     Settings.exec := fun _ => Settings.ExecOk;
     Settings.path_join := win32_join |}.

(** A parser that accepts the text of the empty record only. *)
Definition parse_empty_record_only (data : string) : option Settings.Json :=
  if String.eqb data "{}" then Some Settings.empty_record else None.

(** A renderer with a workspace open and no server settings yet. *)
Definition unconfigured : Renderer.State :=
  {| Renderer.workspaceRoot := Some "/home/u/app";
     Renderer.serverSettings :=
       {| Renderer.ip := None; Renderer.user := None; Renderer.pass := None;
          Renderer.rclonePath := None;
          Renderer.syncInterval := Renderer.missing |};
     Renderer.autoSyncInterval := None |}.

(** A renderer with a workspace open and the server configured. *)
Definition configured : Renderer.State :=
  {| Renderer.workspaceRoot := Some "/home/u/app";
     Renderer.serverSettings :=
       {| Renderer.ip := Some "10.0.0.5"; Renderer.user := Some "u";
          Renderer.pass := Some "secret"; Renderer.rclonePath := None;
          Renderer.syncInterval := Renderer.Seconds 60 |};
     Renderer.autoSyncInterval := Some 1 |}.

(** The same renderer after another workspace was opened. *)
Definition moved : Renderer.State :=
  {| Renderer.workspaceRoot := Some "/home/u/other";
     Renderer.serverSettings := Renderer.serverSettings configured;
     Renderer.autoSyncInterval := Some 1 |}.

(** An endpoint that refuses to prepare the folder. *)
Definition refusing : Renderer.Env :=
  {| Renderer.fetch := fun _ _ _ =>
       Renderer.FetchReply
         {| Renderer.success := false; Renderer.folderPath := None;
            Renderer.error := Some "disk full"; Renderer.output := None;
            Renderer.returncode := None |};
     Renderer.executeRclone := fun _ => Renderer.IpcRejected "unused";
     Renderer.null_split_message :=
       "Cannot read properties of null (reading 'split')" |}.

(** An endpoint that prepares the folder, and a sync tool that runs. *)
Definition folder_ready : Renderer.FetchResult :=
  Renderer.FetchReply
    {| Renderer.success := true;
       Renderer.folderPath := Some "/shareOnling/app";
       Renderer.error := None; Renderer.output := None;
       Renderer.returncode := None |}.

(** The workspace is opened, and the timer ticks before the mirror of the
    opening has finished; both folder checks then succeed. *)
Definition overlapping_calls : list EventLoop.Input :=
  [ EventLoop.Call EventLoop.WorkspaceOpen;
    EventLoop.Call EventLoop.AutoSyncTick;
    EventLoop.CheckSettled 0 folder_ready;
    EventLoop.CheckSettled 1 folder_ready ].

(** One caller after the other: the workspace is opened, its mirror runs
    to the end, and only then the timer ticks. *)
Definition calls_in_turn : list EventLoop.Input :=
  [ EventLoop.Call EventLoop.WorkspaceOpen;
    EventLoop.CheckSettled 0 folder_ready;
    EventLoop.RcloneSettled 0
      (Sync.succeeded_with "Transferred: 3 files" EmptyString);
    EventLoop.Call EventLoop.AutoSyncTick ].

(** An endpoint that prepares the folder and runs what it is asked to,
    and a sync tool that ends without error. *)
Definition working : Renderer.Env :=
  {| Renderer.fetch := fun _ _ _ => folder_ready;
     Renderer.executeRclone := fun _ =>
       Sync.succeeded_with EmptyString "Transferred: 3 files";
     Renderer.null_split_message :=
       "Cannot read properties of null (reading 'split')" |}.

(** A parser that knows one settings file, with an address and a user. *)
Definition stored_settings : Settings.Json :=
  Settings.JObj [("ip", Settings.JStr "10.0.0.5");
                 ("user", Settings.JStr "u")].

Definition parse_stored (data : string) : option Settings.Json :=
  if String.eqb data "stored" then Some stored_settings else None.

(** A machine on which [APPDATA] is not set and every file operation and
    command succeeds. *)
Definition no_appdata (present : string -> bool) : Settings.World :=
  {| Settings.existsSync := present;
     Settings.readFileSync := fun _ => Some "stored";
     Settings.writeFileSync_ok := fun _ => true;
     Settings.mkdirSync_ok := fun _ => true;
     Settings.APPDATA := None;
     Settings.exec := fun _ => Settings.ExecOk;
     Settings.path_join := win32_join |}.

(** A machine on which the sync tool's command fails. *)
Definition failing_tool (present : string -> bool) : Settings.World :=
  {| Settings.existsSync := present;
     Settings.readFileSync := fun _ => Some "stored";
     Settings.writeFileSync_ok := fun _ => true;
     Settings.mkdirSync_ok := fun _ => true;
     Settings.APPDATA := Some "C:\Users\u\AppData\Roaming";
     Settings.exec := fun _ => Settings.ExecError;
     Settings.path_join := win32_join |}.

(** A workspace with a file and a subdirectory holding one file. *)
Definition small_fs : Fs.t :=
  {| Fs.statSync := fun p =>
       if String.eqb p "/ws" || String.eqb p "/ws/src"
       then Some {| Fs.isDirectory := true |} else None;
     Fs.readdirSync := fun p =>
       if String.eqb p "/ws" then
         Some [ {| Fs.d_name := "a.txt"; Fs.d_kind := Fs.KFile |};
                {| Fs.d_name := "src"; Fs.d_kind := Fs.KDirectory |} ]
       else if String.eqb p "/ws/src" then
         Some [ {| Fs.d_name := "main.py"; Fs.d_kind := Fs.KFile |} ]
       else None;
     Fs.watch_ok := fun _ => true;
     Fs.path_join := posix_join;
     Fs.path_basename := posix_basename |}.


(** The main process after [/ws] of [small_fs] was opened. *)
Definition opened_ws : MainProcess.State :=
  {| MainProcess.workspaceRoot := Some "/ws";
     MainProcess.watch :=
       {| Watch.watchers := <["/ws/src" := 1]> (<["/ws" := 0]> ∅);
          Watch.closed := ∅; Watch.next_handle := 2 |} |}.

(** Three open tabs, the middle one active. *)
Definition tab_a : Tabs.Tab :=
  {| Tabs.path := "/ws/a.py"; Tabs.name := "a.py"; Tabs.model := "/ws/a.py";
     Tabs.language := "python"; Tabs.dirty := false |}.

Definition tab_b : Tabs.Tab :=
  {| Tabs.path := "/ws/b.py"; Tabs.name := "b.py"; Tabs.model := "/ws/b.py";
     Tabs.language := "python"; Tabs.dirty := false |}.

Definition tab_c : Tabs.Tab :=
  {| Tabs.path := "/ws/c.py"; Tabs.name := "c.py"; Tabs.model := "/ws/c.py";
     Tabs.language := "python"; Tabs.dirty := true |}.

Definition three_tabs : Tabs.State :=
  {| Tabs.tabs := [tab_a; tab_b; tab_c];
     Tabs.activeTabPath := Some "/ws/b.py";
     Tabs.shown := Some "/ws/b.py";
     Tabs.models := ∅ |}.
(** * Properties *)

(** ** The string methods *)

Section StringFacts.

Lemma append_nil_r (s : string) : s +:+ EmptyString = s.
Proof. induction s as [|c s IH]; simpl; [reflexivity | now rewrite IH]. Qed.

Lemma append_assoc (a b c : string) : (a +:+ b) +:+ c = a +:+ (b +:+ c).
Proof. induction a as [|x a IH]; simpl; [reflexivity | now rewrite IH]. Qed.

Lemma prefix_spec (p s : string) :
  String.prefix p s = true <-> exists r, s = p +:+ r.
Proof.
  revert s; induction p as [|c p IH]; intros s.
  - destruct s; simpl; split; eauto.
  - destruct s as [|d s]; simpl.
    + split; [discriminate | intros [r Hr]; discriminate].
    + destruct (ascii_dec c d) as [->|Hne].
      * rewrite IH. split; intros [r Hr]; exists r; congruence.
      * split; [discriminate | intros [r Hr]; congruence].
Qed.

Lemma startsWith_spec (s p : string) :
  startsWith s p = true <-> exists r, s = p +:+ r.
Proof. apply prefix_spec. Qed.

Lemma includes_unfold (s p : string) :
  includes s p =
  if String.prefix p s then true
  else match s with
       | EmptyString => false
       | String _ s' => includes s' p
       end.
Proof. destruct s; reflexivity. Qed.

Lemma includes_spec (s p : string) :
  includes s p = true <-> exists a b, s = a +:+ p +:+ b.
Proof.
  induction s as [|c s IH]; rewrite includes_unfold;
    destruct (String.prefix p _) eqn:Hp.
  - apply prefix_spec in Hp as [r Hr]. split; [|reflexivity].
    intros _. exists EmptyString, r. exact Hr.
  - split; [discriminate|]. intros (a & b & Hab).
    destruct a; [|discriminate]. simpl in Hab.
    assert (String.prefix p EmptyString = true) by (apply prefix_spec; eauto).
    congruence.
  - apply prefix_spec in Hp as [r Hr]. split; [|reflexivity].
    intros _. exists EmptyString, r. exact Hr.
  - rewrite IH. split.
    + intros (a & b & ->). exists (String c a), b. reflexivity.
    + intros (a & b & Hab). destruct a as [|d a]; simpl in Hab.
      * assert (String.prefix p (String c s) = true)
          by (apply prefix_spec; eauto).
        congruence.
      * injection Hab as -> ->. eauto.
Qed.

Lemma endsWith_unfold (s p : string) :
  endsWith s p =
  if String.eqb s p then true
  else match s with
       | EmptyString => false
       | String _ s' => endsWith s' p
       end.
Proof. destruct s; reflexivity. Qed.

Lemma endsWith_spec (s p : string) :
  endsWith s p = true <-> exists a, s = a +:+ p.
Proof.
  induction s as [|c s IH]; rewrite endsWith_unfold.
  - destruct (String.eqb_spec EmptyString p) as [<-|Hne].
    + split; [intros _; exists EmptyString; reflexivity | reflexivity].
    + split; [discriminate|]. intros [a Ha].
      destruct a; simpl in Ha; [congruence | discriminate].
  - destruct (String.eqb_spec (String c s) p) as [<-|Hne].
    + split; [intros _; exists EmptyString; reflexivity | reflexivity].
    + rewrite IH. split.
      * intros [a ->]. exists (String c a). reflexivity.
      * intros [a Ha]. destruct a as [|d a]; simpl in Ha.
        -- congruence.
        -- injection Ha as -> ->. eauto.
Qed.

Variable sep : ascii -> bool.

Lemma split_nonempty (s : string) : split sep s <> [].
Proof.
  induction s as [|c s IH]; simpl; [discriminate|].
  destruct (sep c); [discriminate|].
  destruct (split sep s); discriminate.
Qed.

Lemma split_free (s : string) :
  free_of sep s = true -> split sep s = [s].
Proof.
  induction s as [|c s IH]; simpl; [reflexivity|].
  intros [Hc Hs]%andb_prop. apply negb_true_iff in Hc.
  rewrite Hc, (IH Hs). reflexivity.
Qed.

(** A free line followed by a separator is the first segment. *)
Lemma split_line (l rest : string) (c : ascii) :
  free_of sep l = true -> sep c = true ->
  split sep (l +:+ String c rest) = l :: split sep rest.
Proof.
  intros Hl Hc. induction l as [|x l IH]; simpl.
  - now rewrite Hc.
  - simpl in Hl. apply andb_prop in Hl as [Hx Hl].
    apply negb_true_iff in Hx. rewrite Hx, (IH Hl). reflexivity.
Qed.

Lemma split_two (a b : string) (c : ascii) :
  sep c = true -> exists h x t, split sep (a +:+ String c b) = h :: x :: t.
Proof.
  intros Hc. induction a as [|d a (h & x & t & IH)]; simpl.
  - rewrite Hc. destruct (split sep b) as [|x t] eqn:E.
    + now apply split_nonempty in E.
    + eauto.
  - rewrite IH. destruct (sep d); eauto.
Qed.

(** What follows the last separator is the last segment. *)
Lemma pop_split (a b : string) (c : ascii) :
  sep c = true -> free_of sep b = true ->
  pop (split sep (a +:+ String c b)) = b.
Proof.
  intros Hc Hb. induction a as [|d a IH]; simpl.
  - rewrite Hc, (split_free _ Hb). reflexivity.
  - destruct (split_two a b c Hc) as (h & x & t & E).
    rewrite E in IH |- *. destruct (sep d); exact IH.
Qed.

Lemma free_of_app (a b : string) :
  free_of sep (a +:+ b) = free_of sep a && free_of sep b.
Proof.
  induction a as [|c a IH]; simpl; [reflexivity|].
  rewrite IH. now rewrite andb_assoc.
Qed.

(** A string is free of separators or has a last one. *)
Lemma last_separator (s : string) :
  free_of sep s = true \/
  exists a c b, s = a +:+ String c b /\ sep c = true /\ free_of sep b = true.
Proof.
  induction s as [|x s [IH|(a & c & b & -> & Hc & Hb)]]; simpl.
  - now left.
  - destruct (sep x) eqn:Hx; simpl; [|now left].
    right. exists EmptyString, x, s. auto.
  - right. exists (String x a), c, b. auto.
Qed.

End StringFacts.

(** ** Sync-tool path resolution *)

Section ToolPathFacts.
Import ToolPath.

Lemma is_sep_cases (c : ascii) :
  is_sep c = true <-> c = "/"%char \/ c = "\"%char.
Proof.
  unfold is_sep. rewrite orb_true_iff, !Ascii.eqb_eq. reflexivity.
Qed.

Lemma truthy_nonempty (v : string) : truthy v = true <-> v <> EmptyString.
Proof.
  unfold truthy. rewrite negb_true_iff. apply String.eqb_neq.
Qed.

Lemma or_default_truthy (v : option string) :
  truthy (or_default v "rclone") = true.
Proof.
  destruct v as [s|]; simpl; [|reflexivity].
  destruct (truthy s) eqn:E; [exact E | reflexivity].
Qed.

Lemma or_default_some (v : string) :
  v <> EmptyString -> or_default (Some v) "rclone" = v.
Proof. intros H%truthy_nonempty. simpl. now rewrite H. Qed.

Lemma ends_sep_iff (v : string) :
  endsWith v "\" || endsWith v "/" = true <-> ends_in_separator v.
Proof.
  rewrite orb_true_iff, !endsWith_spec. unfold ends_in_separator. split.
  - intros [[a ->]|[a ->]]; eexists a, _; (split; [reflexivity|]); reflexivity.
  - intros (a & c & -> & [->| ->]%is_sep_cases); eauto.
Qed.

Lemma has_sep_iff (v : string) :
  includes v "\" || includes v "/" = true <-> contains_separator v.
Proof.
  rewrite orb_true_iff, !includes_spec. unfold contains_separator. split.
  - intros [(a & b & ->)|(a & b & ->)]; eexists a, _, b;
      (split; [reflexivity|]); reflexivity.
  - intros (a & c & b & -> & [->| ->]%is_sep_cases); eauto.
Qed.

Lemma ends_contains (v : string) :
  ends_in_separator v -> contains_separator v.
Proof. intros (a & c & -> & Hc). exists a, c, EmptyString. auto. Qed.

Lemma last_segment_contains (v seg : string) :
  last_segment v seg -> contains_separator v.
Proof. intros (a & c & -> & Hc & _). exists a, c, seg. auto. Qed.

(** The source's [split(/[/\\]/).pop()] is the last segment. *)
Lemma lastPart_is_last_segment (v : string) :
  contains_separator v -> last_segment v (pop (split is_sep v)).
Proof.
  intros (p & c & q & -> & Hc).
  destruct (last_separator is_sep (p +:+ String c q))
    as [Hfree|(a & d & b & E & Hd & Hb)].
  - rewrite free_of_app in Hfree. simpl in Hfree. rewrite Hc in Hfree.
    simpl in Hfree. now rewrite andb_false_r in Hfree.
  - rewrite E, (pop_split _ a b d Hd Hb). exists a, d. auto.
Qed.

Lemma last_segment_unique (v seg : string) :
  last_segment v seg -> pop (split is_sep v) = seg.
Proof. intros (a & c & -> & Hc & Hb). now apply pop_split. Qed.

(** The three sites written as one rule over the two tests and the
    last segment, with what each does to a bare name. *)
Lemma resolve_syncWithServer_some (v : string) :
  v <> EmptyString ->
  resolve_syncWithServer (Some v) =
  if endsWith v "\" || endsWith v "/" then v +:+ "rclone.exe"
  else if includes v "\" || includes v "/" then
         if String.eqb (toLowerCase (pop (split is_sep v))) "rclone"
         then v +:+ ".exe" else v
       else v.
Proof.
  intros Hv. unfold resolve_syncWithServer.
  rewrite (or_default_some _ Hv).
  apply truthy_nonempty in Hv. now rewrite Hv.
Qed.

Lemma resolve_updateRcloneConfig_some (v : string) :
  v <> EmptyString ->
  resolve_updateRcloneConfig (Some v) =
  if endsWith v "\" || endsWith v "/" then v +:+ "rclone.exe"
  else if includes v "\" || includes v "/" then
         if String.eqb (toLowerCase (pop (split is_sep v))) "rclone"
         then v +:+ ".exe" else v
       else if negb (endsWith v ".exe") then v +:+ ".exe" else v.
Proof.
  intros Hv. unfold resolve_updateRcloneConfig.
  rewrite (or_default_some _ Hv).
  apply truthy_nonempty in Hv. now rewrite Hv.
Qed.

End ToolPathFacts.


(** C3, as amended.  The two renderer sites ([syncWithServer] and
    [checkRcloneAvailability]) resolve every configured value to the same
    executable.  [updateRcloneConfig] of the main process agrees with them
    exactly on the values that, once defaulted to "rclone", contain a path
    separator or end in ".exe"; on a bare name that does not end in ".exe"
    it yields the renderer's result with ".exe" appended. *)
Theorem resolution_sites_compared (rclonePath : option string) :
  let configured := or_default rclonePath "rclone" in
  ToolPath.resolve_syncWithServer rclonePath
  = ToolPath.resolve_checkRcloneAvailability rclonePath
  /\ (ToolPath.contains_separator configured
      \/ ToolPath.ends_with configured ".exe" ->
      ToolPath.resolve_updateRcloneConfig rclonePath
      = ToolPath.resolve_syncWithServer rclonePath)
  /\ (~ ToolPath.contains_separator configured ->
      ~ ToolPath.ends_with configured ".exe" ->
      ToolPath.resolve_updateRcloneConfig rclonePath
      = ToolPath.resolve_syncWithServer rclonePath +:+ ".exe").
Proof.
  intros configured. split; [reflexivity|].
  unfold ToolPath.resolve_updateRcloneConfig, ToolPath.resolve_syncWithServer.
  fold configured. rewrite (or_default_truthy rclonePath : truthy configured = true).
  destruct (endsWith configured "\" || endsWith configured "/") eqn:Hend.
  - apply ends_sep_iff, ends_contains in Hend. split; [reflexivity|].
    intros Hno. contradiction.
  - destruct (includes configured "\" || includes configured "/") eqn:Hin.
    + apply has_sep_iff in Hin. split; [reflexivity|].
      intros Hno. contradiction.
    + assert (Hno : ~ ToolPath.contains_separator configured).
      { intros H%has_sep_iff. congruence. }
      destruct (endsWith configured ".exe") eqn:Hexe; simpl.
      * apply endsWith_spec in Hexe. split; [reflexivity|].
        intros _ Hne. contradiction.
      * split; [|reflexivity].
        intros [H|H%endsWith_spec]; [contradiction | congruence].
Qed.

(** The bare command name at the three sites. *)
Lemma resolution_sites_compared_witness :
  ToolPath.resolve_syncWithServer (Some "rclone")
  = ToolPath.resolve_checkRcloneAvailability (Some "rclone")
  /\ ToolPath.resolve_updateRcloneConfig (Some "C:\tools\rclone")
     = ToolPath.resolve_syncWithServer (Some "C:\tools\rclone")
  /\ ToolPath.resolve_updateRcloneConfig (Some "rclone") = "rclone.exe".
Proof.
  split; [|split].
  - exact (proj1 (resolution_sites_compared (Some "rclone"))).
  - apply (proj1 (proj2 (resolution_sites_compared (Some "C:\tools\rclone")))).
    left. exists "C:\tools", "\"%char, "rclone". split; reflexivity.
  - apply (proj2 (proj2 (resolution_sites_compared (Some "rclone")))).
    + intros H%has_sep_iff. discriminate H.
    + intros H%endsWith_spec. discriminate H.
Defined.

(** C3 as stated fails: for the bare name "rclone" the main process
    resolves to "rclone.exe" and the renderer to "rclone". *)
Lemma resolution_sites_differ :
  ~ (forall rclonePath : option string,
       ToolPath.resolve_updateRcloneConfig rclonePath
       = ToolPath.resolve_syncWithServer rclonePath
       /\ ToolPath.resolve_syncWithServer rclonePath
          = ToolPath.resolve_checkRcloneAvailability rclonePath).
Proof.
  intros H. destruct (H (Some "rclone")) as [H1 _]. discriminate H1.
Qed.

(** C4, as amended.  For every non-empty configured value the renderer
    ([syncWithServer]) follows the three cases of the rule, and "rclone"
    stays "rclone"; a missing or empty value is resolved as "rclone".
    [updateRcloneConfig] follows the first two cases; in the third it uses
    the value verbatim when it contains a separator or ends in ".exe" and
    appends ".exe" to any other bare name, "rclone" included. *)
Theorem resolution_rule (v : string) :
  v <> EmptyString ->
  (ToolPath.ends_in_separator v ->
     ToolPath.resolve_syncWithServer (Some v) = v +:+ "rclone.exe"
     /\ ToolPath.resolve_updateRcloneConfig (Some v) = v +:+ "rclone.exe")
  /\ (~ ToolPath.ends_in_separator v ->
      forall seg, ToolPath.last_segment v seg ->
      toLowerCase seg = "rclone" ->
      ToolPath.resolve_syncWithServer (Some v) = v +:+ ".exe"
      /\ ToolPath.resolve_updateRcloneConfig (Some v) = v +:+ ".exe")
  /\ (~ ToolPath.ends_in_separator v ->
      (forall seg, ToolPath.last_segment v seg -> toLowerCase seg <> "rclone") ->
      ToolPath.resolve_syncWithServer (Some v) = v
      /\ (ToolPath.contains_separator v \/ ToolPath.ends_with v ".exe" ->
          ToolPath.resolve_updateRcloneConfig (Some v) = v)
      /\ (~ ToolPath.contains_separator v -> ~ ToolPath.ends_with v ".exe" ->
          ToolPath.resolve_updateRcloneConfig (Some v) = v +:+ ".exe"))
  /\ ToolPath.resolve_syncWithServer (Some "rclone") = "rclone"
  /\ ToolPath.resolve_syncWithServer None = "rclone"
  /\ ToolPath.resolve_syncWithServer (Some EmptyString) = "rclone".
Proof.
  intros Hv.
  rewrite (resolve_syncWithServer_some v Hv),
          (resolve_updateRcloneConfig_some v Hv).
  split; [|split; [|split; [|repeat split]]].
  - intros Hend%ends_sep_iff. now rewrite Hend.
  - intros Hend seg Hseg Hlow.
    destruct (endsWith v "\" || endsWith v "/") eqn:E;
      [now apply ends_sep_iff in E|].
    pose proof (last_segment_contains _ _ Hseg) as Hin%has_sep_iff.
    rewrite Hin, (last_segment_unique _ _ Hseg), Hlow. now split.
  - intros Hend Hseg.
    destruct (endsWith v "\" || endsWith v "/") eqn:E;
      [now apply ends_sep_iff in E|].
    destruct (includes v "\" || includes v "/") eqn:Hin.
    + apply has_sep_iff in Hin.
      pose proof (Hseg _ (lastPart_is_last_segment _ Hin)) as Hne.
      apply String.eqb_neq in Hne. rewrite Hne.
      split; [reflexivity|]. split; [reflexivity|]. intros Hno. contradiction.
    + assert (Hno : ~ ToolPath.contains_separator v).
      { intros H%has_sep_iff. congruence. }
      split; [reflexivity|].
      destruct (endsWith v ".exe") eqn:Hexe; simpl.
      * apply endsWith_spec in Hexe. split; [reflexivity|].
        intros _ Hne. contradiction.
      * split; [|reflexivity].
        intros [H|H%endsWith_spec]; [contradiction | congruence].
Qed.

(** The three examples of the specification, in the renderer. *)
Lemma resolution_rule_witness :
  ToolPath.resolve_syncWithServer (Some "C:\tools\") = "C:\tools\rclone.exe"
  /\ ToolPath.resolve_syncWithServer (Some "C:\tools\rclone")
     = "C:\tools\rclone.exe"
  /\ ToolPath.resolve_syncWithServer (Some "rclone") = "rclone"
  /\ ToolPath.resolve_updateRcloneConfig (Some "rclone") = "rclone.exe".
Proof.
  assert (Hend : ~ ToolPath.ends_in_separator "rclone").
  { intros H%ends_sep_iff. discriminate H. }
  assert (Hin : ~ ToolPath.contains_separator "rclone").
  { intros H%has_sep_iff. discriminate H. }
  assert (Hseg : forall seg, ToolPath.last_segment "rclone" seg ->
                             toLowerCase seg <> "rclone").
  { intros seg H%last_segment_contains. contradiction. }
  split; [|split; [|split]].
  - refine (proj1 (proj1 (resolution_rule "C:\tools\" _) _)).
    + discriminate.
    + exists "C:\tools", "\"%char. split; reflexivity.
  - refine (proj1 (proj1 (proj2 (resolution_rule "C:\tools\rclone" _))
                     _ "rclone" _ _)).
    + discriminate.
    + intros H%ends_sep_iff. discriminate H.
    + exists "C:\tools", "\"%char. repeat split; reflexivity.
    + reflexivity.
  - refine (proj1 (proj1 (proj2 (proj2 (resolution_rule "rclone" _)))
                     Hend Hseg)).
    discriminate.
  - refine (proj2 (proj2 (proj1 (proj2 (proj2 (resolution_rule "rclone" _)))
                            Hend Hseg)) Hin _).
    + discriminate.
    + intros H%endsWith_spec. discriminate H.
Defined.

(** C4 as stated fails in [updateRcloneConfig]: the bare name "rclone"
    ends in no separator and contains none, and is not used verbatim. *)
Lemma bare_name_not_verbatim_in_main :
  ~ (forall v : string,
       ~ ToolPath.ends_in_separator v ->
       (forall seg, ToolPath.last_segment v seg -> toLowerCase seg <> "rclone") ->
       ToolPath.resolve_updateRcloneConfig (Some v) = v).
Proof.
  intros H.
  assert (E : ToolPath.resolve_updateRcloneConfig (Some "rclone") = "rclone").
  { apply H.
    - intros Hs%ends_sep_iff. discriminate Hs.
    - intros seg Hseg%last_segment_contains%has_sep_iff. discriminate Hseg. }
  discriminate E.
Qed.

(** ** Tree Snapshot Builder *)

Section TreeFacts.
Import Fs Tree.

(** [readTree] returns [null] exactly when the path cannot be stat'ed or
    is no directory. *)
Lemma readTree_null_iff (fuel : nat) (fs : Fs.t) (dirPath : string) :
  readTree (S fuel) fs dirPath = Some None <->
  statSync fs dirPath = None
  \/ exists stat, statSync fs dirPath = Some stat /\ isDirectory stat = false.
Proof.
  simpl. unfold safeStat. destruct (statSync fs dirPath) as [stat|].
  - destruct (isDirectory stat) eqn:E; simpl.
    + destruct (readTree_loop _ _ _ _ _); split; try discriminate;
        intros [H|(st & H & H')]; try discriminate; congruence.
    + split; eauto.
  - split; auto.
Qed.

(** A directory that can be stat'ed but not listed is a folder node with
    no children. *)
Lemma readTree_unlistable (fuel : nat) (fs : Fs.t) (dirPath : string) :
  statSync fs dirPath = Some {| isDirectory := true |} ->
  readdirSync fs dirPath = None ->
  readTree (S fuel) fs dirPath
  = Some (Some (Folder (path_basename fs dirPath) dirPath [])).
Proof. intros Hs Hr. simpl. unfold safeStat. now rewrite Hs, Hr. Qed.

(** The loop pushes one child for every entry that is a directory or a
    file, in order, and whatever the recursive call returned for a
    directory, [null] included. *)
Lemma readTree_loop_children fs rec dirPath entries children out :
  readTree_loop fs rec dirPath entries children = Some out ->
  exists pushed,
    out = children ++ pushed
    /\ length pushed
       = length (filter (fun e => d_kind e <> KOther) entries)
    /\ forall entry,
         entry ∈ entries -> d_kind entry = KDirectory ->
         rec (path_join fs dirPath (d_name entry)) = Some None ->
         None ∈ pushed.
Proof.
  revert children out.
  induction entries as [|entry rest IH]; intros children out; simpl.
  - intros [= <-]. exists []. rewrite app_nil_r.
    repeat split. intros entry H. inversion H.
  - destruct (d_kind entry) eqn:K.
    + destruct (rec _) as [sub|] eqn:R; [|discriminate].
      intros (pushed & -> & Hlen & Hnull)%IH.
      exists (sub :: pushed). rewrite <- app_assoc. split; [reflexivity|].
      rewrite filter_cons_True by congruence. split; [simpl; now rewrite Hlen|].
      intros e [->|He]%elem_of_cons Hk Hr.
      * rewrite R in Hr. injection Hr as ->. left.
      * right. eauto.
    + intros (pushed & -> & Hlen & Hnull)%IH.
      eexists (_ :: pushed). rewrite <- app_assoc. split; [reflexivity|].
      rewrite filter_cons_True by congruence. split; [simpl; now rewrite Hlen|].
      intros e [->|He]%elem_of_cons Hk Hr; [congruence|].
      right. eauto.
    + intros (pushed & -> & Hlen & Hnull)%IH.
      exists pushed. split; [reflexivity|].
      rewrite filter_cons_False by (intros H; now apply H).
      split; [exact Hlen|].
      intros e [->|He]%elem_of_cons Hk Hr; [congruence|]. eauto.
Qed.

(** Whatever the filesystem: a listed subdirectory whose [statSync] fails
    when the walk reaches it becomes a [null] element of [children]. *)
Lemma readTree_vanished_child fuel fs dirPath entries entry name path children :
  readdirSync fs dirPath = Some entries ->
  entry ∈ entries -> d_kind entry = KDirectory ->
  statSync fs (path_join fs dirPath (d_name entry)) = None ->
  readTree (S (S fuel)) fs dirPath = Some (Some (Folder name path children)) ->
  None ∈ children.
Proof.
  intros Hls Hin Hk Hgone. cbn [readTree]. unfold safeStat.
  destruct (statSync fs dirPath) as [stat|]; [|discriminate].
  destruct (isDirectory stat); simpl; [|discriminate].
  rewrite Hls.
  destruct (readTree_loop _ _ _ _ _) as [out|] eqn:L; [|discriminate].
  intros [= _ _ <-].
  apply readTree_loop_children in L as (pushed & -> & _ & Hnull).
  simpl. apply (Hnull entry Hin Hk).
  apply (readTree_null_iff fuel). now left.
Qed.

End TreeFacts.

(** C5.  The walk is not aborted and the siblings are kept, but the
    subdirectory that vanished in the middle of the walk contributes
    [null], not a folder node with an empty children list: the snapshot is
    not well formed. *)
Theorem readTree_vanished_subdirectory :
  Tree.readTree 2 vanishing_fs "/ws"
  = Some (Some (Tree.Folder "ws" "/ws"
                  [ Some (Tree.FileNode "a.txt" "/ws/a.txt");
                    None;
                    Some (Tree.FileNode "b.txt" "/ws/b.txt") ]))
  /\ (forall snapshot, Tree.readTree 2 vanishing_fs "/ws" = Some (Some snapshot) ->
      Tree.well_formed snapshot = false).
Proof.
  split; [reflexivity|]. intros snapshot [= <-]. reflexivity.
Qed.

(** ** Change Watcher *)

Section WatchFacts.
Import Fs Watch.

(** Clearing leaves the entry of a path that does not start with the
    text of [root] as it is. *)
Lemma clear_keeps_other (root p : string) (l : list (string * nat)) (s : State) :
  startsWith p root = false ->
  watchers (foldl (clear_one root) s l) !! p = watchers s !! p.
Proof.
  intros Hp. revert s. induction l as [|[q w] l IH]; intros s; simpl.
  - reflexivity.
  - rewrite IH. destruct (startsWith q root) eqn:Hq; simpl; [|reflexivity].
    apply lookup_delete_ne. congruence.
Qed.

(** Clearing closes the watchers of the paths that start with the text of
    [root], and only those. *)
Lemma clear_closed (root : string) (l : list (string * nat)) (s : State) :
  closed (foldl (clear_one root) s l)
  = closed s
    ∪ list_to_set (filter (fun pw => startsWith pw.1 root = true) l).*2.
Proof.
  revert s. induction l as [|[q w] l IH]; intros s; simpl.
  - now rewrite union_empty_r_L.
  - rewrite IH. destruct (startsWith q root) eqn:Hq; simpl.
    + rewrite filter_cons_True by exact Hq. simpl.
      now rewrite (assoc_L (∪)).
    + rewrite filter_cons_False by (simpl; congruence). reflexivity.
Qed.

Lemma attach_loop_keeps fs rec dir entries :
  (forall d s c, rec d s = Some c ->
     closed (state_of c) = closed s
     /\ forall p w, watchers s !! p = Some w ->
                    watchers (state_of c) !! p = Some w) ->
  forall s c, attach_loop fs rec dir entries s = Some c ->
    closed (state_of c) = closed s
    /\ forall p w, watchers s !! p = Some w ->
                   watchers (state_of c) !! p = Some w.
Proof.
  intros Hrec. induction entries as [|entry rest IH]; intros s c; simpl.
  - intros [= <-]. auto.
  - destruct (d_kind entry); try apply IH.
    destruct (rec _ s) as [[s'|s']|] eqn:R; [| |discriminate].
    + intros H. apply IH in H as [Hc Hw].
      apply Hrec in R as [Hc' Hw']. simpl in *. split; [congruence|eauto].
    + intros [= <-]. apply (Hrec _ _ _ R).
Qed.

(** Arming adds watches and closes none: a path already in the watch set
    keeps its watcher. *)
Lemma attachWatcher_keeps fuel fs dir s c :
  attachWatcher fuel fs dir s = Some c ->
  closed (state_of c) = closed s
  /\ forall p w, watchers s !! p = Some w ->
                 watchers (state_of c) !! p = Some w.
Proof.
  revert dir s c. induction fuel as [|fuel IH]; intros dir s c; simpl;
    [discriminate|].
  destruct (watchers s !! dir) eqn:Hdir; [intros [= <-]; auto|].
  destruct (watch_ok fs dir); simpl; [|intros [= <-]; auto].
  intros H. apply (attach_loop_keeps _ _ _ _ (IH)) in H as [Hc Hw].
  simpl in *. split; [exact Hc|].
  intros p w Hp. apply Hw. rewrite lookup_insert_ne; [exact Hp|congruence].
Qed.

(** The frame the code has: a watch on a path that does not start with
    the text of [root] stays in the watch set with its watcher, and the
    watchers closed are those of the paths that start with it. *)
Lemma watchFolderRecursive_frame fuel fs root s c :
  watchFolderRecursive fuel fs root s = Some c ->
  (forall p w, startsWith p root = false ->
     watchers s !! p = Some w -> watchers (state_of c) !! p = Some w)
  /\ closed (state_of c)
     = closed s
       ∪ list_to_set (filter (fun pw => startsWith pw.1 root = true)
                        (map_to_list (watchers s))).*2.
Proof.
  unfold watchFolderRecursive. intros [Hc Hw]%attachWatcher_keeps. split.
  - intros p w Hp Hs. apply Hw. now rewrite clear_keeps_other.
  - now rewrite Hc, clear_closed.
Qed.

End WatchFacts.

(** C9.  [watchFolderRecursive("/ws/app")] closes and drops the watch of
    the sibling "/ws/app-old", which is neither the root nor below it, and
    does not arm it again. *)
Theorem watchFolderRecursive_drops_sibling :
  Watch.armed siblings_watched "/ws/app-old" 1
  /\ ~ Watch.descendant_or_self "/ws/app" "/ws/app-old"
  /\ Watch.watchFolderRecursive 1 flat_fs "/ws/app" siblings_watched
     = Some (Watch.Normal
               {| Watch.watchers := <["/ws/app" := 2]> ∅;
                  Watch.closed := {[0; 1]};
                  Watch.next_handle := 3 |}).
Proof.
  split; [|split].
  - split; [reflexivity|]. apply not_elem_of_empty.
  - intros [H|(c & rest & Hc & H)]; [discriminate|].
    injection H as <- _. discriminate Hc.
  - vm_compute. reflexivity.
Qed.

(** ** Sync Credential Store *)

(** C10.  [readServerSettings] returns a value for every state of the
    machine and never throws to its caller; it returns the empty record
    when neither settings file exists, and when the file it turns to (the
    persisted one if it exists, else the bundled default) cannot be read
    or parsed. *)
Theorem readServerSettings_total
    (JSON_parse : string -> option Settings.Json)
    (SERVER_SETTINGS_PATH defaultSettingsPath : string) (w : Settings.World) :
  let result :=
    Settings.readServerSettings JSON_parse SERVER_SETTINGS_PATH
      defaultSettingsPath w in
  let unusable (p : string) :=
    Settings.readFileSync w p = None
    \/ exists data, Settings.readFileSync w p = Some data
                    /\ JSON_parse data = None in
  (exists settings, result = Settings.Returns settings)
  /\ (Settings.existsSync w SERVER_SETTINGS_PATH = false ->
      Settings.existsSync w defaultSettingsPath = false ->
      result = Settings.Returns Settings.empty_record)
  /\ (Settings.existsSync w SERVER_SETTINGS_PATH = true ->
      unusable SERVER_SETTINGS_PATH ->
      result = Settings.Returns Settings.empty_record)
  /\ (Settings.existsSync w SERVER_SETTINGS_PATH = false ->
      Settings.existsSync w defaultSettingsPath = true ->
      unusable defaultSettingsPath ->
      result = Settings.Returns Settings.empty_record).
Proof.
  intros result unusable. subst result unusable.
  unfold Settings.readServerSettings.
  split; [|split; [|split]].
  - destruct (Settings.readServerSettings_try _ _ _ w) as [[settings|]|]; eauto.
  - intros HP HD. unfold Settings.readServerSettings_try.
    now rewrite HP, HD.
  - intros HP Hbad. unfold Settings.readServerSettings_try, Settings.read,
      Settings.parse. rewrite HP.
    destruct Hbad as [->|(data & -> & Hparse)]; [reflexivity|].
    simpl. now rewrite Hparse.
  - intros HP HD Hbad. unfold Settings.readServerSettings_try, Settings.read,
      Settings.parse. rewrite HP, HD.
    destruct Hbad as [->|(data & -> & Hparse)]; [reflexivity|].
    simpl. now rewrite Hparse.
Qed.

Lemma readServerSettings_total_witness :
  Settings.readServerSettings parse_empty_record_only "user.json" "default.json"
    (bare_world (fun _ => false) (fun _ => None))
  = Settings.Returns Settings.empty_record
  /\ Settings.readServerSettings parse_empty_record_only "user.json" "default.json"
       (bare_world (fun p => String.eqb p "user.json") (fun _ => Some "{ip:"))
     = Settings.Returns Settings.empty_record
  /\ Settings.readServerSettings parse_empty_record_only "user.json" "default.json"
       (bare_world (fun p => String.eqb p "default.json") (fun _ => None))
     = Settings.Returns Settings.empty_record.
Proof.
  split; [|split].
  - apply (proj1 (proj2
      (readServerSettings_total parse_empty_record_only "user.json"
         "default.json" (bare_world (fun _ => false) (fun _ => None)))));
      reflexivity.
  - apply (proj1 (proj2 (proj2
      (readServerSettings_total parse_empty_record_only "user.json"
         "default.json"
         (bare_world (fun p => String.eqb p "user.json")
            (fun _ => Some "{ip:")))))).
    + reflexivity.
    + right. exists "{ip:". split; reflexivity.
  - apply (proj2 (proj2 (proj2
      (readServerSettings_total parse_empty_record_only "user.json"
         "default.json"
         (bare_world (fun p => String.eqb p "default.json")
            (fun _ => None)))))).
    + reflexivity.
    + reflexivity.
    + left. reflexivity.
Defined.

(** ** Sync Engine: outcome classification and diagnostic filtering *)

Section SyncFacts.
Import Renderer Sync.

Lemma isRcloneNotFound_spec (error : string) :
  isRcloneNotFound error = true <->
  tool_not_found_signature error /\ ~ mentions_missing_section error.
Proof.
  unfold isRcloneNotFound, tool_not_found_signature, mentions_missing_section,
    contains.
  rewrite andb_true_iff, !orb_true_iff, negb_true_iff, !includes_spec.
  rewrite <- (includes_spec error "didn't find section").
  rewrite not_true_iff_false. tauto.
Qed.

(** C6.  A non-empty error message of the sync tool is classified as
    ToolNotFound exactly when it carries a tool-not-found signature and
    does not mention a missing configuration section, and as TransferError
    otherwise; the log then carries the guided remediation, respectively
    the generic troubleshooting tips, and the mirror reports failure. *)
Theorem classification_of_errors (error stdout stderr : string) :
  error <> EmptyString ->
  (classify error = ToolNotFound <->
   tool_not_found_signature error /\ ~ mentions_missing_section error)
  /\ (~ (tool_not_found_signature error /\ ~ mentions_missing_section error) ->
      classify error = TransferError error)
  /\ sync_after_rclone (failed_with error stdout stderr)
     = (false,
        Log ("Sync error: " +:+ error)
        :: match classify error with
           | ToolNotFound => remediation
           | _ => troubleshooting
           end)
  /\ classify "bash: rclone: command not found" = ToolNotFound
  /\ classify "didn't find section in config file"
     = TransferError "didn't find section in config file".
Proof.
  intros Hne. pose proof (isRcloneNotFound_spec error) as Hspec.
  unfold classify. split; [|split; [|split; [|split; reflexivity]]].
  - destruct (isRcloneNotFound error); split; try discriminate; try tauto.
    intros H%Hspec. discriminate H.
  - intros Hn. destruct (isRcloneNotFound error); [|reflexivity].
    destruct Hn. now apply Hspec.
  - unfold sync_after_rclone, failed_with. cbn [x_error truthy_opt show].
    apply truthy_nonempty in Hne. rewrite Hne.
    destruct (isRcloneNotFound error); reflexivity.
Qed.

Lemma classification_of_errors_witness :
  Sync.classify "bash: rclone: command not found" = Sync.ToolNotFound
  /\ Sync.sync_after_rclone
       (Sync.failed_with "bash: rclone: command not found"
          EmptyString EmptyString)
     = (false,
        Renderer.Log "Sync error: bash: rclone: command not found"
        :: Sync.remediation)
  /\ Sync.classify "didn't find section in config file"
     = Sync.TransferError "didn't find section in config file".
Proof.
  split; [|split].
  - apply (proj1 (proj2 (proj2 (proj2
      (classification_of_errors "bash: rclone: command not found"
         EmptyString EmptyString ltac:(discriminate)))))).
  - apply (proj1 (proj2 (proj2
      (classification_of_errors "bash: rclone: command not found"
         EmptyString EmptyString ltac:(discriminate))))).
  - apply (proj1 (proj2
      (classification_of_errors "didn't find section in config file"
         EmptyString EmptyString ltac:(discriminate)))).
    intros [_ Hno]. apply Hno. exists EmptyString, " in config file".
    reflexivity.
Defined.

Lemma join_cons2 (x y : string) (rest : list string) :
  join nl (x :: y :: rest) = x +:+ String newline (join nl (y :: rest)).
Proof. reflexivity. Qed.

(** Splitting the joined lines gives the lines back. *)
Lemma split_join (lines : list string) :
  lines <> [] ->
  (forall l, l ∈ lines -> free_of is_newline l = true) ->
  split is_newline (join nl lines) = lines.
Proof.
  induction lines as [|x [|y rest] IH]; intros Hne Hfree.
  - congruence.
  - simpl. apply split_free, Hfree. left.
  - rewrite join_cons2, split_line.
    + f_equal. apply IH; [discriminate|].
      intros l Hl. apply Hfree. now right.
    + apply Hfree. left.
    + reflexivity.
Qed.

Lemma keep_line_spec (line : string) :
  keep_line line = false <-> progress_line line.
Proof.
  unfold keep_line, progress_line.
  rewrite !andb_false_iff, !negb_false_iff, !startsWith_spec.
  split.
  - intros [[[r ->]|[r ->]]|[r ->]]; exists r; auto.
  - intros [r [->|[->| ->]]]; eauto.
Qed.

End SyncFacts.

(** C7.  For diagnostic text made of the given lines, the advisory output
    of a successful mirror is the text of the lines that do not begin with
    "Transferred:", "Elapsed time:" or "Checking:", joined by newlines in
    their order; when it is not empty it is logged, and the mirror still
    reports success. *)
Theorem stderr_filtering (lines : list string) (stdout : string) :
  (forall l, l ∈ lines -> free_of is_newline l = true) ->
  let stderr := join nl lines in
  let advisory := join nl (filter (fun l => Sync.keep_line l = true) lines) in
  Sync.filteredStderr stderr = advisory
  /\ (forall l, Sync.keep_line l = false <-> Sync.progress_line l)
  /\ (stderr <> EmptyString -> advisory <> EmptyString ->
      Sync.sync_after_rclone (Sync.succeeded_with stdout stderr)
      = (true,
         [Renderer.Log ("Sync stderr: " +:+ advisory)]
         ++ (if truthy stdout
             then [Renderer.Log ("Sync stdout: " +:+ stdout)] else [])
         ++ [Renderer.Log "Sync completed successfully - all files synced"])).
Proof.
  intros Hfree stderr advisory.
  assert (Hfil : Sync.filteredStderr stderr = advisory).
  { subst stderr advisory. unfold Sync.filteredStderr.
    destruct lines as [|x rest]; [reflexivity|].
    rewrite split_join; [reflexivity | discriminate | exact Hfree]. }
  split; [exact Hfil|]. split; [apply keep_line_spec|].
  intros Hs Ha. unfold Sync.sync_after_rclone, Sync.succeeded_with.
  cbn [Renderer.x_error Renderer.x_stderr Renderer.x_stdout Renderer.truthy_opt].
  rewrite Hfil.
  apply truthy_nonempty in Hs, Ha. rewrite Hs, Ha.
  destruct (truthy stdout); reflexivity.
Qed.

(** The example of the specification. *)
Lemma stderr_filtering_witness :
  Sync.filteredStderr
    (join nl ["Transferred: 3 files"; "Elapsed time: 2s";
              "permission denied: /x"])
  = "permission denied: /x"
  /\ Sync.sync_after_rclone
       (Sync.succeeded_with EmptyString
          (join nl ["Transferred: 3 files"; "Elapsed time: 2s";
                    "permission denied: /x"]))
     = (true,
        [Renderer.Log "Sync stderr: permission denied: /x";
         Renderer.Log "Sync completed successfully - all files synced"]).
Proof.
  assert (Hfree : forall l,
            l ∈ ["Transferred: 3 files"; "Elapsed time: 2s";
                 "permission denied: /x"] ->
            free_of is_newline l = true).
  { intros l Hl. repeat (apply elem_of_cons in Hl as [->|Hl]; [reflexivity|]).
    inversion Hl. }
  split.
  - exact (proj1 (stderr_filtering _ EmptyString Hfree)).
  - apply (proj2 (proj2 (stderr_filtering _ EmptyString Hfree)));
      discriminate.
Defined.

(** ** Remote Run Orchestrator *)

Section RunFacts.
Import Renderer Sync Run.

Lemma trace_bind {A B} (m : M A) (k : A -> M B) :
  trace (bind m k) = trace m ++ trace (k (value m)).
Proof.
  unfold bind, trace, value. destruct m as [a t1]. simpl.
  now destruct (k a).
Qed.

Lemma value_bind {A B} (m : M A) (k : A -> M B) :
  value (bind m k) = value (k (value m)).
Proof.
  unfold bind, value. destruct m as [a t1]. simpl. now destruct (k a).
Qed.








End RunFacts.




(** ** Auto-Sync Scheduler *)

Section SchedulerFacts.
Import Renderer Scheduler.

(** One call: the timer of before is cancelled, and the one timer live
    afterwards, if any, is the new one. *)
Lemma setupAutoSync_step (st : State) (tm : Timers) :
  tidy st tm ->
  let '(st', tm') := value (setupAutoSync st tm) in
  tidy st' tm'
  /\ serverSettings st' = serverSettings st
  /\ workspaceRoot st' = workspaceRoot st
  /\ match period (syncInterval (serverSettings st)) with
     | Some ms => live tm' = [(next_id tm, ms)]
                  /\ autoSyncInterval st' = Some (next_id tm)
     | None => live tm' = [] /\ autoSyncInterval st' = None
     end.
Proof.
  intros [Hnext Hlive]. unfold setupAutoSync, period.
  set (cleared :=
         if timer_truthy (autoSyncInterval st)
         then ({| workspaceRoot := workspaceRoot st;
                  serverSettings := serverSettings st;
                  autoSyncInterval := None |},
               match autoSyncInterval st with
               | Some id => clearInterval id tm
               | None => tm
               end)
         else (st, tm)).
  assert (Hc : autoSyncInterval cleared.1 = None
               /\ live cleared.2 = []
               /\ next_id cleared.2 = next_id tm
               /\ serverSettings cleared.1 = serverSettings st
               /\ workspaceRoot cleared.1 = workspaceRoot st).
  { subst cleared.
    destruct Hlive as [[Hnone Hempty]|(id & ms & Hsome & Hid & Hone)].
    - rewrite Hnone. simpl. auto.
    - rewrite Hsome. simpl.
      destruct (Nat.eqb_spec id 0) as [?|_]; [contradiction|]. simpl.
      rewrite Hone. simpl.
      rewrite filter_cons_False by (simpl; intros H; now apply H).
      auto. }
  destruct cleared as [st1 tm1]. simpl in Hc.
  destruct Hc as (Hnone & Hempty & Hn & Hset & Hroot).
  rewrite Hset. cbv zeta.
  destruct (to_number (interval_or_default (syncInterval (serverSettings st))))
    as [z|].
  - destruct (0 <? z)%Z.
    + unfold log, bind, tell, ret, value, setInterval. simpl.
      rewrite Hempty, Hn. simpl. repeat split; auto.
      right. eauto.
    + simpl. repeat split; auto. now rewrite Hn.
  - simpl. repeat split; auto. now rewrite Hn.
Qed.

Lemma rearm_snoc (prev : list Interval) (v : Interval) st tm :
  rearm (prev ++ [v]) st tm
  = let '(st', tm') := rearm prev st tm in
    value (setupAutoSync (with_syncInterval v st') tm').
Proof.
  revert st tm. induction prev as [|u prev IH]; intros st tm; simpl.
  - now destruct (value (setupAutoSync _ _)).
  - destruct (value (setupAutoSync (with_syncInterval u st) tm)) as [st' tm'].
    apply IH.
Qed.

Lemma tidy_with_syncInterval v st tm :
  tidy st tm -> tidy (with_syncInterval v st) tm.
Proof. intros H. exact H. Qed.

Lemma rearm_tidy (intervals : list Interval) st tm :
  tidy st tm ->
  tidy (rearm intervals st tm).1 (rearm intervals st tm).2.
Proof.
  revert st tm. induction intervals as [|v rest IH]; intros st tm Ht; simpl.
  - exact Ht.
  - pose proof (setupAutoSync_step _ _ (tidy_with_syncInterval v _ _ Ht)) as H.
    destruct (value (setupAutoSync (with_syncInterval v st) tm)) as [st' tm'].
    apply IH, H.
Qed.

Lemma tidy_at_most_one st tm : tidy st tm -> length (live tm) <= 1.
Proof.
  intros [_ [[_ ->]|(id & ms & _ & _ & ->)]]; simpl; lia.
Qed.

Lemma tidy_initial root settings : tidy (initial root settings) no_timers.
Proof. split; [discriminate|]. left. split; reflexivity. Qed.

(** After a sequence of calls the live timers are decided by the value
    of the last call alone: the one timer of its period, or none. *)
Lemma rearm_last (root : option string) (settings : ServerSettings)
    (prev : list Interval) (v : Interval) :
  let after := rearm (prev ++ [v]) (initial root settings) no_timers in
  match period v with
  | Some ms => exists id, live after.2 = [(id, ms)]
                          /\ autoSyncInterval after.1 = Some id
  | None => live after.2 = [] /\ autoSyncInterval after.1 = None
  end.
Proof.
  intros after. subst after. rewrite rearm_snoc.
  pose proof (rearm_tidy prev _ _ (tidy_initial root settings)) as Ht.
  destruct (rearm prev (initial root settings) no_timers) as [st tm].
  simpl in Ht.
  pose proof (setupAutoSync_step _ _ (tidy_with_syncInterval v _ _ Ht)) as H.
  destruct (value (setupAutoSync _ tm)) as [st' tm'].
  simpl in H |- *. destruct H as (_ & _ & _ & H).
  destruct (period v) as [ms|]; [|exact H]. destruct H. eauto.
Qed.

End SchedulerFacts.

(** C2.  The first half of the claim holds: every call of [setupAutoSync]
    cancels the timer of the call before, so that at most one timer is
    ever live, and re-arming with 30 after 60 leaves the one timer of 30
    seconds.  The second half fails on the code: a call made when
    [syncInterval] is 0 does not leave the renderer without a timer.  The
    default of line 719 takes the place of the 0 before the test
    [interval > 0] of line 720 sees it, and the call arms a timer of 30
    seconds, whatever calls came before. *)
Theorem setupAutoSync_zero_interval (root : option string)
    (settings : Renderer.ServerSettings) (prev : list Renderer.Interval) :
  length (Scheduler.live
            (Scheduler.rearm prev (Scheduler.initial root settings)
               Scheduler.no_timers).2) <= 1
  /\ (let after :=
        Scheduler.rearm (prev ++ [Renderer.Seconds 0])
          (Scheduler.initial root settings) Scheduler.no_timers in
      exists id, Scheduler.live after.2 = [(id, 30000%Z)]
                 /\ Renderer.autoSyncInterval after.1 = Some id)
  /\ Scheduler.live
       (Scheduler.rearm [Renderer.Seconds 60; Renderer.Seconds 30]
          (Scheduler.initial None (Renderer.serverSettings unconfigured))
          Scheduler.no_timers).2 = [(2, 30000%Z)]
  /\ Scheduler.live
       (Scheduler.rearm [Renderer.Seconds 60; Renderer.Seconds 0]
          (Scheduler.initial None (Renderer.serverSettings unconfigured))
          Scheduler.no_timers).2 = [(2, 30000%Z)].
Proof.
  split; [|split; [|split]].
  - eapply tidy_at_most_one, rearm_tidy, tidy_initial.
  - exact (rearm_last root settings prev (Renderer.Seconds 0)).
  - reflexivity.
  - reflexivity.
Qed.

(** ** Mirrors in flight *)

Section EventLoopFacts.
Import Renderer Sync EventLoop.

Lemma count_insert (f : Phase -> bool) (ts : list Phase) (i : nat)
    (old new : Phase) :
  ts !! i = Some old ->
  length (filter (fun ph => f ph = true) (<[i := new]> ts))
  + (if f old then 1 else 0)
  = length (filter (fun ph => f ph = true) ts) + (if f new then 1 else 0).
Proof.
  intros Hi.
  rewrite insert_take_drop by (eapply lookup_lt_Some; eauto).
  rewrite <- (take_drop_middle ts i old Hi) at 3.
  rewrite !filter_app, !length_app.
  destruct (f old) eqn:Ho, (f new) eqn:Hn.
  - rewrite !filter_cons_True by assumption. simpl. lia.
  - rewrite filter_cons_False by congruence.
    rewrite filter_cons_True by assumption. simpl. lia.
  - rewrite filter_cons_True by assumption.
    rewrite (filter_cons_False _ old) by congruence. simpl. lia.
  - rewrite !filter_cons_False by congruence. lia.
Qed.

Lemma count_snoc (f : Phase -> bool) (ts : list Phase) (ph : Phase) :
  length (filter (fun ph => f ph = true) (ts ++ [ph]))
  = length (filter (fun ph => f ph = true) ts) + (if f ph then 1 else 0).
Proof.
  rewrite filter_app, length_app. destruct (f ph) eqn:E.
  - now rewrite filter_cons_True by assumption.
  - now rewrite filter_cons_False by congruence.
Qed.

(** A call adds at most one activation; a completion adds none. *)
Lemma step_pending (l : Loop) (i : Input) :
  pending (step l i)
  <= match i with Call _ => S (pending l) | _ => pending l end.
Proof.
  unfold pending. destruct i as [c|i r|i r]; simpl.
  - destruct (caller_proceeds c (state l)) as [[|] t0]; simpl; [|lia].
    destruct (start (state l)) as [ph t1]. simpl.
    rewrite count_snoc. destruct (is_pending ph); lia.
  - destruct (tasks l !! i) as [[pn url|cmd|b]|] eqn:Hi; try lia.
    destruct (resume_check (state l) pn r) as [ph t]. simpl.
    pose proof (count_insert is_pending _ _ _ ph Hi) as H. simpl in H.
    destruct (is_pending ph); lia.
  - destruct (tasks l !! i) as [[pn url|cmd|b]|] eqn:Hi; try lia.
    destruct (resume_rclone r) as [ph t]. simpl.
    pose proof (count_insert is_pending _ _ _ ph Hi) as H. simpl in H.
    destruct (is_pending ph); lia.
Qed.

Lemma in_flight_le_pending (l : Loop) : in_flight l <= pending l.
Proof.
  unfold in_flight, pending.
  induction (tasks l) as [|ph ts IH]; [simpl; lia|].
  destruct ph.
  - rewrite (filter_cons_False _ (AwaitCheck _ _)) by (simpl; congruence).
    rewrite (filter_cons_True _ (AwaitCheck _ _)) by reflexivity. simpl. lia.
  - rewrite !filter_cons_True by reflexivity. simpl. lia.
  - rewrite !filter_cons_False by (simpl; congruence). exact IH.
Qed.

Lemma serial_pending (inputs : list Input) (l : Loop) :
  serial l inputs -> pending l <= 1 -> pending (run l inputs) <= 1.
Proof.
  revert l. induction inputs as [|i rest IH]; intros l; simpl; [auto|].
  intros [Hi Hrest] Hl. apply IH; [exact Hrest|].
  pose proof (step_pending l i) as H. destruct i; lia.
Qed.

(** A folder check that succeeds takes the activation to the start of
    the sync tool, whatever the other activations are doing. *)
Lemma resume_check_starts_tool st projectName reply :
  success reply = true ->
  exists rcloneCommand t,
    resume_check st projectName (FetchReply reply)
    = (AwaitRclone rcloneCommand, t)
    /\ Exec rcloneCommand ∈ t.
Proof.
  intros Hok. unfold resume_check, sendToServer_settle, sync_after_check.
  unfold bind, log, tell, ret. rewrite Hok. simpl.
  eexists _, _. split; [reflexivity|]. set_solver.
Qed.

End EventLoopFacts.

(** C1, as amended.  [syncWithServer] keeps no in-progress flag.  A call
    that passes the configuration check sends its folder check at once,
    whatever is already in flight; it is neither rejected nor made to wait.
    When the folder check of an activation succeeds, the sync tool is
    started for it even while other sync-tool processes are running.  At
    most one sync-tool process is in flight as long as the callers do not
    overlap, that is, as long as every call is made after the activations
    before it have returned. *)
Theorem mirrors_not_serialized :
  (forall l c projectName,
     Renderer.value (EventLoop.caller_proceeds c (EventLoop.state l)) = true ->
     Renderer.value (Sync.sync_begin (EventLoop.state l)) = Some projectName ->
     exists url,
       EventLoop.tasks (EventLoop.step l (EventLoop.Call c))
       = EventLoop.tasks l ++ [EventLoop.AwaitCheck projectName url]
       /\ EventLoop.pending (EventLoop.step l (EventLoop.Call c))
          = S (EventLoop.pending l))
  /\ (forall l i projectName url reply,
        EventLoop.tasks l !! i = Some (EventLoop.AwaitCheck projectName url) ->
        Renderer.success reply = true ->
        exists rcloneCommand,
          EventLoop.tasks
            (EventLoop.step l
               (EventLoop.CheckSettled i (Renderer.FetchReply reply))) !! i
          = Some (EventLoop.AwaitRclone rcloneCommand)
          /\ EventLoop.in_flight
               (EventLoop.step l
                  (EventLoop.CheckSettled i (Renderer.FetchReply reply)))
             = S (EventLoop.in_flight l))
  /\ (forall st inputs,
        EventLoop.serial (EventLoop.fresh st) inputs ->
        EventLoop.in_flight (EventLoop.run (EventLoop.fresh st) inputs) <= 1).
Proof.
  split; [|split].
  - intros l c projectName Hgo Hbegin.
    unfold EventLoop.step.
    destruct (EventLoop.caller_proceeds c (EventLoop.state l)) as [go t0].
    simpl in Hgo. subst go.
    unfold EventLoop.start, Sync.sendToServer_begin.
    destruct (Sync.sync_begin (EventLoop.state l)) as [started t] eqn:Hb.
    simpl in Hbegin. subst started.
    assert (Hip : Renderer.truthy_opt
                    (Renderer.ip (Renderer.serverSettings (EventLoop.state l)))
                  = true).
    { unfold Sync.sync_begin in Hb.
      destruct (Renderer.truthy_opt (Renderer.ip _)); [reflexivity|].
      rewrite orb_true_r in Hb. discriminate Hb. }
    rewrite Hip. simpl. eexists. split; [reflexivity|].
    unfold EventLoop.pending. simpl. rewrite count_snoc. simpl. lia.
  - intros l i projectName url reply Hi Hok.
    destruct (resume_check_starts_tool (EventLoop.state l) projectName reply Hok)
      as (rcloneCommand & t & E & _).
    unfold EventLoop.step. rewrite Hi, E. simpl.
    exists rcloneCommand. split.
    + apply list_lookup_insert_eq. eapply lookup_lt_Some; eauto.
    + unfold EventLoop.in_flight. simpl.
      pose proof (count_insert EventLoop.is_running _ _ _
                    (EventLoop.AwaitRclone rcloneCommand) Hi) as H.
      simpl in H. lia.
  - intros st inputs Hserial.
    etransitivity; [apply in_flight_le_pending|].
    apply serial_pending; [exact Hserial|]. unfold EventLoop.pending. simpl. lia.
Qed.

Lemma mirrors_not_serialized_witness :
  EventLoop.in_flight (EventLoop.run (EventLoop.fresh configured) calls_in_turn)
  <= 1
  /\ EventLoop.pending
       (EventLoop.step
          (EventLoop.run (EventLoop.fresh configured)
             [EventLoop.Call EventLoop.WorkspaceOpen])
          (EventLoop.Call EventLoop.AutoSyncTick)) = 2
  /\ EventLoop.in_flight
       (EventLoop.run (EventLoop.fresh configured)
          [EventLoop.Call EventLoop.WorkspaceOpen;
           EventLoop.Call EventLoop.AutoSyncTick;
           EventLoop.CheckSettled 0 folder_ready;
           EventLoop.CheckSettled 1 folder_ready]) = 2.
Proof.
  split; [|split].
  - apply (proj2 (proj2 mirrors_not_serialized) configured calls_in_turn).
    simpl. repeat split; reflexivity.
  - destruct (proj1 mirrors_not_serialized
                (EventLoop.run (EventLoop.fresh configured)
                   [EventLoop.Call EventLoop.WorkspaceOpen])
                EventLoop.AutoSyncTick "app" eq_refl eq_refl)
      as (url & _ & H).
    exact H.
  - destruct (proj1 (proj2 mirrors_not_serialized)
                (EventLoop.run (EventLoop.fresh configured)
                   [EventLoop.Call EventLoop.WorkspaceOpen;
                    EventLoop.Call EventLoop.AutoSyncTick;
                    EventLoop.CheckSettled 0 folder_ready])
                1 "app" "http://10.0.0.5:3100"
                {| Renderer.success := true;
                   Renderer.folderPath := Some "/shareOnling/app";
                   Renderer.error := None; Renderer.output := None;
                   Renderer.returncode := None |}
                eq_refl eq_refl)
      as (cmd & _ & H).
    exact H.
Defined.

(** C1 as stated fails: the timer ticks while the mirror started by the
    opening of the workspace is still waiting for its folder check; both
    checks succeed, and two sync-tool processes run on the same root at
    the same time. *)
Lemma overlapping_mirrors :
  ~ (forall st inputs,
       EventLoop.in_flight (EventLoop.run (EventLoop.fresh st) inputs) <= 1).
Proof.
  intros H. specialize (H configured overlapping_calls).
  vm_compute in H. lia.
Qed.

(** The loop with a single activation, driven by the collaborators' own
    answers, is the sequential [syncWithServer]. *)
Lemma lone_activation_is_syncWithServer (env : Renderer.Env)
    (st : Renderer.State) :
  let l := EventLoop.drive env (EventLoop.step (EventLoop.fresh st)
                        (EventLoop.Call EventLoop.WorkspaceOpen)) 0 in
  EventLoop.tasks l
  = [EventLoop.Returned (Renderer.value (Sync.syncWithServer env st))]
  /\ EventLoop.events l = Renderer.trace (Sync.syncWithServer env st).
Proof.
  unfold EventLoop.drive, EventLoop.step, EventLoop.start, Sync.syncWithServer,
    Sync.syncWithServer_over, Sync.sendToServer, EventLoop.caller_proceeds, EventLoop.fresh,
    EventLoop.emit, EventLoop.resume_check, EventLoop.resume_rclone.
  cbn [Renderer.ret EventLoop.state EventLoop.tasks EventLoop.events].
  unfold Sync.sync_begin.
  destruct (_ || _ || _) eqn:G; [split; reflexivity|].
  apply orb_false_elim in G as [G Hu]. apply orb_false_elim in G as [Hr Hi].
  unfold Sync.sendToServer_begin. rewrite Hi.
  cbn -[Sync.sync_after_check Sync.sync_after_rclone Sync.sendToServer_settle].
  unfold Renderer.bind, Renderer.ret, Renderer.tell, Renderer.value,
    Renderer.trace.
  destruct (Sync.sendToServer_settle _) as [cr t1].
  cbn -[Sync.sync_after_check Sync.sync_after_rclone].
  destruct (Sync.sync_after_check st _ cr) as [[cmd|] t2];
    cbn -[Sync.sync_after_rclone].
  - destruct (Sync.sync_after_rclone _) as [b t3]. cbn.
    split; [reflexivity|]. f_equal. rewrite app_nil_r, <- !app_assoc. reflexivity.
  - split; [reflexivity|]. f_equal; now rewrite ?app_nil_r.
Qed.

(** * Further properties of the code *)

(** ** Diagnostic filtering *)

Section FilterFacts.
Import Renderer Sync.

(** Joining the lines a text splits into gives the text back. *)
Lemma join_split (s : string) : join nl (split is_newline s) = s.
Proof.
  induction s as [|c s IH]; [reflexivity|]. simpl.
  destruct (is_newline c) eqn:Hc.
  - apply Ascii.eqb_eq in Hc as ->.
    destruct (split is_newline s) as [|h t] eqn:E;
      [now apply split_nonempty in E|].
    change (join nl (EmptyString :: h :: t))
      with (String newline (join nl (h :: t))).
    now rewrite IH.
  - destruct (split is_newline s) as [|h [|y t]]; simpl in *;
      now rewrite <- IH.
Qed.

(** No segment of a split contains a separator. *)
Lemma split_segments_free (sep : ascii -> bool) (s : string) :
  Forall (fun l => free_of sep l = true) (split sep s).
Proof.
  induction s as [|c s IH]; simpl; [repeat constructor|].
  destruct (sep c) eqn:Hc; [constructor; [reflexivity|exact IH]|].
  destruct (split sep s) as [|h t]; [repeat constructor; simpl; now rewrite Hc|].
  inversion IH as [|? ? Hh Ht]; subst. constructor; [|exact Ht].
  simpl. now rewrite Hc, Hh.
Qed.

Lemma filter_keeps_all {A} (P : A -> Prop) `{!forall x, Decision (P x)}
    (l : list A) :
  Forall P l -> filter P l = l.
Proof.
  induction 1 as [|x l Hx Hl IH]; [reflexivity|].
  rewrite filter_cons_True by exact Hx. now rewrite IH.
Qed.

Lemma filter_twice {A} (P : A -> Prop) `{!forall x, Decision (P x)}
    (l : list A) :
  filter P (filter P l) = filter P l.
Proof.
  apply filter_keeps_all, Forall_forall.
  intros x Hx. now apply list_elem_of_filter in Hx as [Hx _].
Qed.

(** The lines of the filtered text are the lines that were kept. *)
Lemma split_filtered (stderr : string) :
  filter (fun l => keep_line l = true) (split is_newline stderr) <> [] ->
  split is_newline (filteredStderr stderr)
  = filter (fun l => keep_line l = true) (split is_newline stderr).
Proof.
  intros Hne. unfold filteredStderr. apply split_join; [exact Hne|].
  intros l Hl%list_elem_of_filter. destruct Hl as [_ Hl].
  pose proof (split_segments_free is_newline stderr) as Hfree.
  rewrite Forall_forall in Hfree. now apply Hfree.
Qed.

End FilterFacts.

(** X1.  Diagnostic text none of whose lines begins with a progress
    prefix passes the filter unchanged, whatever its line structure (empty
    lines and a final newline included). *)
Theorem filteredStderr_unchanged (stderr : string) :
  Forall (fun l => ~ Sync.progress_line l) (split is_newline stderr) ->
  Sync.filteredStderr stderr = stderr.
Proof.
  intros H. unfold Sync.filteredStderr.
  rewrite filter_keeps_all; [apply join_split|].
  eapply Forall_impl; [exact H|]. intros l Hl. simpl in Hl.
  destruct (Sync.keep_line l) eqn:E; [reflexivity|].
  now apply keep_line_spec in E.
Qed.

Lemma filteredStderr_unchanged_witness :
  Sync.filteredStderr
    ("permission denied: /x" +:+ nl +:+ nl +:+ "retrying" +:+ nl)
  = "permission denied: /x" +:+ nl +:+ nl +:+ "retrying" +:+ nl.
Proof.
  apply filteredStderr_unchanged.
  repeat constructor; intros H%keep_line_spec; discriminate H.
Defined.

(** X2.  Filtering is idempotent, and no line of the filtered text begins
    with a progress prefix. *)
Theorem filteredStderr_idempotent (stderr : string) :
  Sync.filteredStderr (Sync.filteredStderr stderr) = Sync.filteredStderr stderr
  /\ Forall (fun l => ~ Sync.progress_line l)
       (split is_newline (Sync.filteredStderr stderr)).
Proof.
  destruct (filter (fun l => Sync.keep_line l = true)
              (split is_newline stderr)) as [|x kept] eqn:E.
  - unfold Sync.filteredStderr at 2 3 4. rewrite E. simpl join. split.
    + reflexivity.
    + repeat constructor. intros H%keep_line_spec. discriminate H.
  - assert (Hs : split is_newline (Sync.filteredStderr stderr) = x :: kept).
    { rewrite <- E. apply split_filtered. rewrite E. discriminate. }
    split.
    + unfold Sync.filteredStderr at 1. rewrite Hs, <- E, filter_twice.
      reflexivity.
    + rewrite Hs, <- E. apply Forall_forall.
      intros l [Hl _]%list_elem_of_filter H%keep_line_spec. congruence.
Qed.

(** ** The resolved executable *)

Section ResolvedFacts.
Import ToolPath Ends.

Lemma last_char_app (a t : string) :
  t <> EmptyString -> last_char (a +:+ t) = last_char t.
Proof.
  intros Ht. induction a as [|c a IH]; [reflexivity|].
  simpl. rewrite IH. destruct (a +:+ t) eqn:E; [|reflexivity].
  destruct a; simpl in E; [contradiction | discriminate].
Qed.

Lemma last_char_snoc (s : string) (c : ascii) :
  last_char s = Some c -> exists p, s = p +:+ String c EmptyString.
Proof.
  induction s as [|x s IH]; [discriminate|]. simpl.
  destruct s as [|y s].
  - intros [= ->]. now exists EmptyString.
  - intros [p Hp]%IH. exists (String x p). simpl. now rewrite Hp.
Qed.

Lemma ends_in_separator_last (s : string) :
  ends_in_separator s <->
  exists c, last_char s = Some c /\ is_sep c = true.
Proof.
  split.
  - intros (p & c & -> & Hc). exists c. split; [|exact Hc].
    now rewrite last_char_app.
  - intros (c & [p ->]%last_char_snoc & Hc). now exists p, c.
Qed.

Lemma not_ends_after_exe (a t : string) :
  t <> EmptyString -> ~ ends_in_separator t -> ~ ends_in_separator (a +:+ t).
Proof.
  intros Ht Hn (c & Hl & Hc)%ends_in_separator_last.
  rewrite last_char_app in Hl by exact Ht.
  apply Hn, ends_in_separator_last. eauto.
Qed.

Lemma toLowerCase_app (a b : string) :
  toLowerCase (a +:+ b) = toLowerCase a +:+ toLowerCase b.
Proof. induction a as [|c a IH]; simpl; [reflexivity | now rewrite IH]. Qed.

Lemma free_iff_no_separator (v : string) :
  free_of is_sep v = true <-> ~ contains_separator v.
Proof.
  split.
  - intros Hfree (p & c & q & -> & Hc).
    rewrite free_of_app in Hfree. simpl in Hfree. rewrite Hc in Hfree.
    simpl in Hfree. now rewrite andb_false_r in Hfree.
  - intros Hno. destruct (last_separator is_sep v) as [H|(a & c & b & -> & Hc & _)];
      [exact H|]. destruct Hno. now exists a, c, b.
Qed.

Lemma append_nonempty (a b : string) :
  a <> EmptyString -> a +:+ b <> EmptyString.
Proof. destruct a; [contradiction | discriminate]. Qed.

Lemma or_default_nonempty (v : option string) :
  or_default v "rclone" <> EmptyString.
Proof. apply truthy_nonempty, or_default_truthy. Qed.

(** What the renderer computes, in terms of the defaulted value. *)
Lemma resolve_syncWithServer_cases (v : option string) :
  let e := or_default v "rclone" in
  (ends_in_separator e /\ resolve_syncWithServer v = e +:+ "rclone.exe")
  \/ (~ ends_in_separator e
      /\ (exists seg, last_segment e seg /\ toLowerCase seg = "rclone")
      /\ resolve_syncWithServer v = e +:+ ".exe")
  \/ (~ ends_in_separator e
      /\ (forall seg, last_segment e seg -> toLowerCase seg <> "rclone")
      /\ resolve_syncWithServer v = e).
Proof.
  intros e. unfold resolve_syncWithServer. fold e.
  rewrite (or_default_truthy v : truthy e = true).
  destruct (endsWith e "\" || endsWith e "/") eqn:Hend.
  - left. split; [now apply ends_sep_iff | reflexivity].
  - assert (Hn : ~ ends_in_separator e).
    { intros H%ends_sep_iff. congruence. }
    destruct (includes e "\" || includes e "/") eqn:Hin.
    + apply has_sep_iff, lastPart_is_last_segment in Hin.
      destruct (String.eqb_spec (toLowerCase (pop (split is_sep e))) "rclone")
        as [Hl|Hl].
      * right. left. split; [exact Hn|]. split; [eauto | reflexivity].
      * right. right. split; [exact Hn|]. split; [|reflexivity].
        intros seg Hseg. now rewrite <- (last_segment_unique _ _ Hseg).
    + right. right. split; [exact Hn|]. split; [|reflexivity].
      intros seg Hseg%last_segment_contains%has_sep_iff. congruence.
Qed.

(** The same for the main process, with the case of a bare name. *)
Lemma resolve_updateRcloneConfig_cases (v : option string) :
  let e := or_default v "rclone" in
  (contains_separator e
   /\ resolve_updateRcloneConfig v = resolve_syncWithServer v)
  \/ (~ contains_separator e /\ ends_with e ".exe"
      /\ resolve_updateRcloneConfig v = e)
  \/ (~ contains_separator e /\ ~ ends_with e ".exe"
      /\ resolve_updateRcloneConfig v = e +:+ ".exe").
Proof.
  intros e.
  unfold resolve_updateRcloneConfig, resolve_syncWithServer. fold e.
  rewrite (or_default_truthy v : truthy e = true).
  destruct (endsWith e "\" || endsWith e "/") eqn:Hend.
  - left. split; [now apply ends_contains, ends_sep_iff | reflexivity].
  - destruct (includes e "\" || includes e "/") eqn:Hin.
    + left. split; [now apply has_sep_iff | reflexivity].
    + assert (Hno : ~ contains_separator e).
      { intros H%has_sep_iff. congruence. }
      destruct (endsWith e ".exe") eqn:Hexe; simpl.
      * right. left. split; [exact Hno|].
        split; [now apply endsWith_spec | reflexivity].
      * right. right. split; [exact Hno|]. split; [|reflexivity].
        intros H%endsWith_spec. congruence.
Qed.

Lemma renderer_verbatim_on_resolved (r : string) :
  r <> EmptyString -> ~ ends_in_separator r ->
  (forall seg, last_segment r seg -> toLowerCase seg <> "rclone") ->
  resolve_syncWithServer (Some r) = r.
Proof.
  intros Hr Hend Hseg.
  pose proof (resolve_syncWithServer_cases (Some r)) as H. cbv zeta in H.
  rewrite (or_default_some r Hr) in H.
  destruct H as [[H _]|[(_ & (seg & Hs & Hl) & _)|(_ & _ & H)]].
  - contradiction.
  - now apply Hseg in Hs.
  - exact H.
Qed.

Lemma contains_separator_app (a b : string) :
  contains_separator a -> contains_separator (a +:+ b).
Proof.
  intros (p & c & q & -> & Hc). exists p, c, (q +:+ b).
  split; [|exact Hc]. rewrite append_assoc. reflexivity.
Qed.

Lemma exe_not_separator_ended (t : string) :
  t = "rclone.exe" \/ t = ".exe" ->
  t <> EmptyString /\ ~ ends_in_separator t.
Proof.
  intros [-> | ->]; (split; [discriminate|]);
    intros H%ends_sep_iff; discriminate H.
Qed.

(** The renderer's resolution names a file and is stable. *)
Lemma resolve_syncWithServer_stable (v : option string) :
  let r := resolve_syncWithServer v in
  r <> EmptyString /\ ~ ends_in_separator r
  /\ resolve_syncWithServer (Some r) = r
  /\ (contains_separator (or_default v "rclone") -> contains_separator r).
Proof.
  intros r. subst r.
  pose proof (or_default_nonempty v) as Hne.
  destruct (resolve_syncWithServer_cases v)
    as [[Hend ->]|[(Hend & (seg & Hseg & Hl) & ->)|(Hend & Hseg & ->)]].
  - destruct (exe_not_separator_ended "rclone.exe") as [Ht Hn]; [now left|].
    split; [now apply append_nonempty|].
    split; [now apply not_ends_after_exe|].
    split; [|apply contains_separator_app].
    apply renderer_verbatim_on_resolved;
      [now apply append_nonempty | now apply not_ends_after_exe |].
    destruct Hend as (p & c & Hp & Hc). rewrite Hp, append_assoc. simpl.
    intros seg' Hs%last_segment_unique.
    rewrite pop_split in Hs by (exact Hc || reflexivity). subst seg'.
    discriminate.
  - destruct (exe_not_separator_ended ".exe") as [Ht Hn]; [now right|].
    split; [now apply append_nonempty|].
    split; [now apply not_ends_after_exe|].
    split; [|apply contains_separator_app].
    apply renderer_verbatim_on_resolved;
      [now apply append_nonempty | now apply not_ends_after_exe |].
    destruct Hseg as (p & c & Hp & Hc & Hfree). rewrite Hp, append_assoc. simpl.
    intros seg' Hs%last_segment_unique.
    rewrite pop_split in Hs
      by (exact Hc || (rewrite free_of_app, Hfree; reflexivity)).
    subst seg'. rewrite toLowerCase_app, Hl. discriminate.
  - split; [exact Hne|]. split; [exact Hend|]. split; [|auto].
    now apply renderer_verbatim_on_resolved.
Qed.

End ResolvedFacts.

(** X3.  At each of the three sites the resolved executable is never
    empty and never ends in a path separator.  Nothing more is checked: a
    path with a separator that does not end in one and whose last segment
    is not [rclone] in any letter case, a directory such as
    [C:/tools/rclone/bin] included, is used as it is at all three sites. *)
Theorem resolved_not_separator_ended (rclonePath : option string) :
  (ToolPath.resolve_syncWithServer rclonePath <> EmptyString
   /\ ~ ToolPath.ends_in_separator (ToolPath.resolve_syncWithServer rclonePath))
  /\ (ToolPath.resolve_checkRcloneAvailability rclonePath <> EmptyString
      /\ ~ ToolPath.ends_in_separator
             (ToolPath.resolve_checkRcloneAvailability rclonePath))
  /\ (ToolPath.resolve_updateRcloneConfig rclonePath <> EmptyString
      /\ ~ ToolPath.ends_in_separator
             (ToolPath.resolve_updateRcloneConfig rclonePath))
  /\ (forall v seg,
        rclonePath = Some v ->
        ToolPath.last_segment v seg ->
        ~ ToolPath.ends_in_separator v ->
        toLowerCase seg <> "rclone" ->
        ToolPath.resolve_syncWithServer rclonePath = v
        /\ ToolPath.resolve_checkRcloneAvailability rclonePath = v
        /\ ToolPath.resolve_updateRcloneConfig rclonePath = v).
Proof.
  destruct (resolve_syncWithServer_stable rclonePath) as (Hne & Hend & _ & _).
  split; [now split|]. split; [now split|].
  pose proof (or_default_nonempty rclonePath) as He.
  split.
  - destruct (resolve_updateRcloneConfig_cases rclonePath)
      as [[_ ->]|[(Hno & _ & ->)|(Hno & _ & ->)]].
    + now split.
    + split; [exact He|]. intros H%ends_contains. contradiction.
    + destruct (exe_not_separator_ended ".exe") as [Ht Hn]; [now right|].
      split; [now apply append_nonempty | now apply not_ends_after_exe].
  - intros v seg -> Hseg Hnot Hlow.
    assert (Hv : v <> EmptyString).
    { destruct Hseg as (a & c & -> & _ & _). now destruct a. }
    pose proof (or_default_some v Hv) as Hd.
    assert (Hr : ToolPath.resolve_syncWithServer (Some v) = v).
    { destruct (resolve_syncWithServer_cases (Some v))
        as [[H _]|[(_ & (seg' & Hseg' & Hl) & _)|(_ & _ & H)]].
      - rewrite Hd in H. contradiction.
      - rewrite Hd in Hseg'.
        rewrite <- (last_segment_unique _ _ Hseg') in Hl.
        rewrite (last_segment_unique _ _ Hseg) in Hl. contradiction.
      - now rewrite Hd in H. }
    split; [exact Hr|]. split; [exact Hr|].
    destruct (resolve_updateRcloneConfig_cases (Some v))
      as [[_ H]|[(Hno & _)|(Hno & _)]].
    + now rewrite H.
    + destruct Hno. rewrite Hd. exact (last_segment_contains _ _ Hseg).
    + destruct Hno. rewrite Hd. exact (last_segment_contains _ _ Hseg).
Qed.

Lemma resolved_not_separator_ended_witness :
  ToolPath.resolve_updateRcloneConfig (Some "C:/tools/rclone/bin")
  = "C:/tools/rclone/bin".
Proof.
  refine (proj2 (proj2
            (proj2 (proj2 (proj2
               (resolved_not_separator_ended (Some "C:/tools/rclone/bin"))))
               "C:/tools/rclone/bin" "bin" eq_refl _ _ _))).
  - exists "C:/tools/rclone", "/"%char. repeat split.
  - intros H%ends_sep_iff. discriminate H.
  - discriminate.
Defined.

(** X4.  Resolution is idempotent at every site: resolving a value that is
    already the result of a resolution gives it back unchanged. *)
Theorem resolution_idempotent (rclonePath : option string) :
  ToolPath.resolve_syncWithServer
    (Some (ToolPath.resolve_syncWithServer rclonePath))
  = ToolPath.resolve_syncWithServer rclonePath
  /\ ToolPath.resolve_checkRcloneAvailability
       (Some (ToolPath.resolve_checkRcloneAvailability rclonePath))
     = ToolPath.resolve_checkRcloneAvailability rclonePath
  /\ ToolPath.resolve_updateRcloneConfig
       (Some (ToolPath.resolve_updateRcloneConfig rclonePath))
     = ToolPath.resolve_updateRcloneConfig rclonePath.
Proof.
  destruct (resolve_syncWithServer_stable rclonePath) as (Hne & Hend & Hst & Hc).
  split; [exact Hst|]. split; [exact Hst|].
  pose proof (or_default_nonempty rclonePath) as He.
  destruct (resolve_updateRcloneConfig_cases rclonePath)
    as [[Hin E]|[(Hno & Hexe & E)|(Hno & Hexe & E)]]; rewrite E.
  - pose proof (resolve_updateRcloneConfig_cases
                  (Some (ToolPath.resolve_syncWithServer rclonePath))) as H.
    cbv zeta in H. rewrite (or_default_some _ Hne) in H.
    destruct H as [[_ ->]|[(Hno & _)|(Hno & _)]];
      [exact Hst | destruct Hno; auto | destruct Hno; auto].
  - pose proof (resolve_updateRcloneConfig_cases
                  (Some (or_default rclonePath "rclone"))) as H.
    cbv zeta in H. rewrite (or_default_some _ He) in H.
    destruct H as [[Hin _]|[(_ & _ & ->)|(_ & Hn & _)]];
      [contradiction | reflexivity | contradiction].
  - assert (Hr : or_default rclonePath "rclone" +:+ ".exe" <> EmptyString)
      by now apply append_nonempty.
    pose proof (resolve_updateRcloneConfig_cases
                  (Some (or_default rclonePath "rclone" +:+ ".exe"))) as H.
    cbv zeta in H. rewrite (or_default_some _ Hr) in H.
    destruct H as [[Hin _]|[(_ & _ & ->)|(_ & Hn & _)]].
    + apply free_iff_no_separator in Hin; [contradiction|].
      rewrite free_of_app. apply free_iff_no_separator in Hno.
      now rewrite Hno.
    + reflexivity.
    + destruct Hn. now exists (or_default rclonePath "rclone").
Qed.

(** ** The mirror as a whole *)

Section MirrorFacts.
Import Renderer Sync Mirror.

(** [syncWithServer] by the answers of its collaborators. *)
Lemma syncWithServer_over_unfold (env : Env) (st later : State) :
  syncWithServer_over env st later =
  let post := Post (url st) "checkFolder" [("folderName", projectName st)] in
  let command := commandLine (projectName st) later in
  if preconditions st then
    match fetch env (url st) "checkFolder" [("folderName", projectName st)] with
    | FetchFailed message =>
        (false, [post; Log ("Error communicating with server: " +:+ message);
                 Log "Error checking folder on server"])
    | FetchFalsy => (false, [post; Log "Error checking folder on server"])
    | FetchReply reply =>
        if success reply then
          (value (sync_after_rclone (executeRclone env command)),
           [post;
            Log ("Server folder ready: " +:+ show "undefined" (folderPath reply));
            Log ("Starting sync: " +:+ command);
            Exec command]
           ++ trace (sync_after_rclone (executeRclone env command)))
        else
          (false, [post; Log ("Error preparing server folder: "
                              +:+ show "undefined" (error reply))])
    end
  else
    (false,
     [Log "Error: Workspace not opened or server settings not configured"]).
Proof.
  unfold syncWithServer_over, sync_begin, preconditions, sendToServer,
    sendToServer_begin.
  destruct (truthy_opt (workspaceRoot st)); [|reflexivity].
  destruct (truthy_opt (ip (serverSettings st))); [|reflexivity].
  destruct (truthy_opt (user (serverSettings st))); [|reflexivity].
  unfold url, projectName, commandLine.
  cbn -[sync_after_check sync_after_rclone sendToServer_settle].
  unfold sendToServer_settle, sync_after_check.
  destruct (fetch env _ _ _) as [message| |reply]; try reflexivity.
  cbn -[sync_after_rclone].
  destruct (success reply); cbn -[sync_after_rclone]; [|reflexivity].
  destruct (sync_after_rclone _). reflexivity.
Qed.

Lemma syncWithServer_unfold (env : Env) (st : State) :
  syncWithServer env st =
  let post := Post (url st) "checkFolder" [("folderName", projectName st)] in
  if preconditions st then
    match fetch env (url st) "checkFolder" [("folderName", projectName st)] with
    | FetchFailed message =>
        (false, [post; Log ("Error communicating with server: " +:+ message);
                 Log "Error checking folder on server"])
    | FetchFalsy => (false, [post; Log "Error checking folder on server"])
    | FetchReply reply =>
        if success reply then
          (value (sync_after_rclone (executeRclone env (rcloneCommand st))),
           [post;
            Log ("Server folder ready: " +:+ show "undefined" (folderPath reply));
            Log ("Starting sync: " +:+ rcloneCommand st);
            Exec (rcloneCommand st)]
           ++ trace (sync_after_rclone (executeRclone env (rcloneCommand st))))
        else
          (false, [post; Log ("Error preparing server folder: "
                              +:+ show "undefined" (error reply))])
    end
  else
    (false,
     [Log "Error: Workspace not opened or server settings not configured"]).
Proof. exact (syncWithServer_over_unfold env st st). Qed.

(** What the result of the sync tool is turned into: only log lines, and
    [true] exactly for a result without error. *)
Lemma sync_after_rclone_outcome (result : IpcResult) :
  Forall (fun e => is_log e = true) (trace (sync_after_rclone result))
  /\ (value (sync_after_rclone result) = true <->
      exists r, result = IpcOk r /\ truthy_opt (x_error r) = false).
Proof.
  unfold sync_after_rclone. destruct result as [message|r].
  - split; [repeat constructor|].
    split; [discriminate | intros (r & H & _); discriminate H].
  - destruct (truthy_opt (x_error r)) eqn:He.
    + split.
      * destruct (isRcloneNotFound _); repeat constructor.
      * split; [destruct (isRcloneNotFound _); discriminate|].
        intros (r' & [= <-] & H). congruence.
    + split.
      * destruct (truthy (x_stderr r)), (truthy (filteredStderr (x_stderr r))),
          (truthy (x_stdout r)); repeat constructor.
      * split; [eauto|]. intros _.
        destruct (truthy (x_stderr r)), (truthy (filteredStderr (x_stderr r))),
          (truthy (x_stdout r)); reflexivity.
Qed.

Lemma mirror_started (env : Env) (st : State) (reply : Reply) :
  preconditions st = true ->
  fetch env (url st) "checkFolder" [("folderName", projectName st)]
  = FetchReply reply ->
  success reply = true ->
  trace (syncWithServer env st)
  = [Post (url st) "checkFolder" [("folderName", projectName st)];
     Log ("Server folder ready: " +:+ show "undefined" (folderPath reply));
     Log ("Starting sync: " +:+ rcloneCommand st);
     Exec (rcloneCommand st)]
    ++ trace (sync_after_rclone (executeRclone env (rcloneCommand st)))
  /\ value (syncWithServer env st)
     = value (sync_after_rclone (executeRclone env (rcloneCommand st))).
Proof.
  intros Hp Hf Hs. rewrite syncWithServer_unfold. cbv zeta.
  rewrite Hp, Hf, Hs. split; reflexivity.
Qed.

Lemma logs_have_no_effects (t : list Event) :
  Forall (fun e => is_log e = true) t ->
  filter (fun e => is_exec e = true) t = []
  /\ filter (fun e => is_post e = true) t = [].
Proof.
  induction 1 as [|e t He Ht [IH1 IH2]]; [split; reflexivity|].
  destruct e; try discriminate He.
  rewrite !filter_cons_False by (simpl; congruence). now split.
Qed.

End MirrorFacts.

(** X5.  The effects of one mirror, whatever happens to the renderer's
    variables while it awaits the folder check.  Without an open
    workspace, a server address and a user name at the call it logs one
    line and contacts nothing.  Otherwise it sends exactly one request,
    the folder check for the last segment of the workspace root of the
    call; the sync tool is started at most once, only after the endpoint
    answered that the folder is ready, and with the command built from
    that project name and from the executable setting and the workspace
    root as they are when the answer arrives: when another workspace was
    opened meanwhile, the tool mirrors the new root into the remote folder
    of the old one. *)
Theorem mirror_effects (env : Renderer.Env) (st later : Renderer.State) :
  let t := Renderer.trace (Sync.syncWithServer_over env st later) in
  (Mirror.preconditions st = false ->
   t = [Renderer.Log
          "Error: Workspace not opened or server settings not configured"])
  /\ (Mirror.preconditions st = true ->
      filter (fun e => Mirror.is_post e = true) t
      = [Renderer.Post (Mirror.url st) "checkFolder"
           [("folderName", Mirror.projectName st)]])
  /\ (forall command, Renderer.Exec command ∈ t ->
      command = Mirror.commandLine (Mirror.projectName st) later
      /\ Mirror.preconditions st = true
      /\ exists reply,
           Renderer.fetch env (Mirror.url st) "checkFolder"
             [("folderName", Mirror.projectName st)]
           = Renderer.FetchReply reply
           /\ Renderer.success reply = true)
  /\ length (filter (fun e => Mirror.is_exec e = true) t) <= 1.
Proof.
  intros t. subst t. rewrite syncWithServer_over_unfold. cbv zeta.
  destruct (Mirror.preconditions st).
  2:{ split; [reflexivity|]. split; [discriminate|].
      split; [|simpl; lia].
      intros c Hc.
      repeat (apply elem_of_cons in Hc as [Hc|Hc]; [discriminate Hc|]).
      inversion Hc. }
  split; [discriminate|].
  destruct (Renderer.fetch env _ _ _) as [message| |reply] eqn:Hf.
  - split; [reflexivity|]. split; [|simpl; lia].
    intros c Hc. repeat (apply elem_of_cons in Hc as [Hc|Hc]; [discriminate Hc|]).
    inversion Hc.
  - split; [reflexivity|]. split; [|simpl; lia].
    intros c Hc. repeat (apply elem_of_cons in Hc as [Hc|Hc]; [discriminate Hc|]).
    inversion Hc.
  - destruct (Renderer.success reply) eqn:Hs.
    + destruct (sync_after_rclone_outcome
                  (Renderer.executeRclone env
                     (Mirror.commandLine (Mirror.projectName st) later)))
        as [Hlogs _].
      destruct (logs_have_no_effects _ Hlogs) as [He Hp].
      change (Renderer.trace (?v, ?t)) with t.
      split; [|split].
      * intros _. rewrite filter_app, Hp. reflexivity.
      * intros c [Hc|Hc]%elem_of_app.
        -- repeat (apply elem_of_cons in Hc as [Hc|Hc];
                   [try discriminate Hc|]); [|inversion Hc].
           injection Hc as ->. eauto.
        -- rewrite Forall_forall in Hlogs. apply Hlogs in Hc. discriminate Hc.
      * rewrite filter_app, He. simpl. lia.
    + split; [reflexivity|]. split; [|simpl; lia].
      intros c Hc.
      repeat (apply elem_of_cons in Hc as [Hc|Hc]; [discriminate Hc|]).
      inversion Hc.
Qed.

(** The folder check is for [app] and goes out once; with another
    workspace opened while it was awaited, the one process started has
    the new root and the old project name on its command line. *)
Lemma mirror_effects_witness :
  Renderer.trace (Sync.syncWithServer_over working unconfigured moved)
  = [Renderer.Log
       "Error: Workspace not opened or server settings not configured"]
  /\ filter (fun e => Mirror.is_post e = true)
       (Renderer.trace (Sync.syncWithServer_over refusing configured moved))
     = [Renderer.Post "http://10.0.0.5:3100" "checkFolder"
          [("folderName", "app")]]
  /\ ("rclone sync " +:+ quoted "/home/u/other" +:+ " "
      +:+ quoted "cloud-compiler-sftp:/shareOnling/app" +:+ " --progress"
      = Mirror.commandLine (Mirror.projectName configured) moved
      /\ Mirror.preconditions configured = true
      /\ exists reply,
           Renderer.fetch working (Mirror.url configured) "checkFolder"
             [("folderName", Mirror.projectName configured)]
           = Renderer.FetchReply reply
           /\ Renderer.success reply = true).
Proof.
  split; [|split].
  - apply (proj1 (mirror_effects working unconfigured moved)). reflexivity.
  - apply (proj1 (proj2 (mirror_effects refusing configured moved))).
    reflexivity.
  - refine (proj1 (proj2 (proj2 (mirror_effects working configured moved)))
              ("rclone sync " +:+ quoted "/home/u/other" +:+ " "
               +:+ quoted "cloud-compiler-sftp:/shareOnling/app"
               +:+ " --progress") _).
    vm_compute. do 3 right. left.
Defined.




(** ** The run request *)

Section RunRequestFacts.
Import Renderer Sync Run Mirror.

Lemma remove_first_unfold (s pattern : string) :
  remove_first s pattern =
  if String.prefix pattern s then
    String.substring (String.length pattern)
      (String.length s - String.length pattern) s
  else match s with
       | EmptyString => EmptyString
       | String c s' => String c (remove_first s' pattern)
       end.
Proof. destruct s; reflexivity. Qed.

Lemma length_append (a b : string) :
  String.length (a +:+ b) = String.length a + String.length b.
Proof. induction a as [|c a IH]; simpl; [reflexivity | now rewrite IH]. Qed.

Lemma substring_all (s : string) : String.substring 0 (String.length s) s = s.
Proof. induction s as [|c s IH]; simpl; [reflexivity | now rewrite IH]. Qed.

Lemma substring_after (a b : string) :
  String.substring (String.length a) (String.length b) (a +:+ b) = b.
Proof. induction a as [|c a IH]; simpl; [apply substring_all | exact IH]. Qed.

(** A leading occurrence of the pattern is the one removed. *)
Lemma remove_first_prefix (root rest : string) :
  remove_first (root +:+ rest) root = rest.
Proof.
  rewrite remove_first_unfold.
  assert (H : String.prefix root (root +:+ rest) = true)
    by (apply prefix_spec; eauto).
  rewrite H, length_append.
  replace (String.length root + String.length rest - String.length root)
    with (String.length rest) by lia.
  apply substring_after.
Qed.

Lemma sendToServer_request (env : Env) (st : State) (action : string)
    (data : list (string * string)) :
  truthy_opt (ip (serverSettings st)) = true ->
  exists logs,
    trace (sendToServer env st action data)
    = Post (url st) action data :: logs
    /\ Forall (fun e => is_log e = true) logs.
Proof.
  intros Hip. unfold sendToServer, sendToServer_begin. rewrite Hip.
  cbn -[sendToServer_settle]. fold (url st).
  unfold sendToServer_settle.
  destruct (fetch env _ action data); eexists;
    (split; [reflexivity|]); repeat constructor.
Qed.

Lemma report_logs (runResult : option Reply) :
  Forall (fun e => is_log e = true) (trace (report runResult)).
Proof.
  unfold report. destruct runResult as [r|]; [|repeat constructor].
  destruct (success r), (truthy_opt (output r)), (truthy_opt (error r)),
    (returncode r); repeat constructor.
Qed.

Lemma mirror_true_preconditions (env : Env) (st later : State) :
  value (syncWithServer_over env st later) = true -> preconditions st = true.
Proof.
  rewrite syncWithServer_over_unfold. cbv zeta.
  destruct (preconditions st); [reflexivity | discriminate].
Qed.

End RunRequestFacts.

(** X8.  For a file below the workspace root, the path sent to the
    endpoint is the file's path relative to the root: the root and the one
    separator after it are stripped, nothing else. *)
Theorem relative_path_below_root (root rel : string) (c : ascii) :
  is_sep c = true ->
  Run.strip_leading_sep (Run.remove_first (root +:+ String c rel) root) = rel.
Proof.
  intros Hc. rewrite remove_first_prefix. simpl. now rewrite Hc.
Qed.

Lemma relative_path_below_root_witness :
  Run.strip_leading_sep
    (Run.remove_first ("C:\work\app" +:+ String "\"%char "src\main.py")
       "C:\work\app")
  = "src\main.py".
Proof. apply relative_path_below_root. reflexivity. Defined.

(** X9.  When the mirror succeeds, what [runCodeOnServer] does next is
    decided by the renderer's variables as they are when the mirror
    returns, not as they were at the call.  With a workspace root and a
    server address at that moment it sends exactly one run request, after
    everything the mirror did, to that address: the request carries the
    last segment of that root as the project name, the path of the file
    with that root removed, and the content given; all that follows are
    log lines.  When the address has been cleared meanwhile no run request
    is sent at all. *)
Theorem run_request_after_mirror (env : Renderer.Env)
    (st later after : Renderer.State) (filePath content root : string) :
  Renderer.value (Sync.syncWithServer_over env st later) = true ->
  Renderer.workspaceRoot after = Some root ->
  let t :=
    Renderer.trace
      (Run.runCodeOnServer_over env st later after filePath content) in
  let mirror := Renderer.trace (Sync.syncWithServer_over env st later) in
  let relativeFilePath :=
    Run.strip_leading_sep (Run.remove_first filePath root) in
  (Renderer.truthy_opt (Renderer.ip (Renderer.serverSettings after)) = true ->
   exists logs,
     t = mirror
         ++ Renderer.Log ("Running code: " +:+ relativeFilePath)
            :: Renderer.Post (Mirror.url after) "runCode"
                 [("folderName", Mirror.projectName after);
                  ("filePath", relativeFilePath);
                  ("content", content)]
            :: logs
     /\ Forall (fun e => Mirror.is_log e = true) logs)
  /\ (Renderer.truthy_opt (Renderer.ip (Renderer.serverSettings after)) = false ->
      t = mirror
          ++ [Renderer.Log ("Running code: " +:+ relativeFilePath);
              Renderer.Log "Error: Server IP not configured";
              Renderer.Log "Error: Failed to get run result from server"]).
Proof.
  intros Hok Hafter t mirror rel. subst t mirror rel.
  pose proof (mirror_true_preconditions env st later Hok) as Hpre.
  unfold Mirror.preconditions in Hpre.
  apply andb_prop in Hpre as [Hpre _]. apply andb_prop in Hpre as [Hroot Hip].
  unfold Run.runCodeOnServer_over. rewrite Hroot, Hip. cbn [negb orb].
  rewrite trace_bind, Hok. unfold Run.run_after_sync. cbn [negb].
  rewrite Hafter. unfold Renderer.log. rewrite !trace_bind.
  split.
  - intros Hip'.
    destruct (sendToServer_request env after "runCode"
                [("folderName", pop (split is_sep root));
                 ("filePath",
                  Run.strip_leading_sep (Run.remove_first filePath root));
                 ("content", content)] Hip') as (logs & Hreq & Hlogs).
    rewrite Hreq. unfold Mirror.projectName. rewrite Hafter.
    eexists. split; [reflexivity|].
    apply Forall_app. split; [exact Hlogs | apply report_logs].
  - intros Hip'. unfold Sync.sendToServer, Sync.sendToServer_begin.
    rewrite Hip'. reflexivity.
Qed.

(** A run started in [/home/u/app]: undisturbed it asks the endpoint to
    run [src/main.py] of [app]; with the address cleared while the mirror
    was awaited nothing is asked; with [/home/u/other] opened meanwhile
    the request names the project [other] and the path keeps the old
    root. *)
Lemma run_request_after_mirror_witness :
  (exists logs,
     Renderer.trace (Run.runCodeOnServer_over working configured configured
                       configured "/home/u/app/src/main.py" "print(1)")
     = Renderer.trace (Sync.syncWithServer_over working configured configured)
       ++ Renderer.Log "Running code: src/main.py"
          :: Renderer.Post "http://10.0.0.5:3100" "runCode"
               [("folderName", "app"); ("filePath", "src/main.py");
                ("content", "print(1)")]
          :: logs
     /\ Forall (fun e => Mirror.is_log e = true) logs)
  /\ Renderer.trace (Run.runCodeOnServer_over working configured configured
                       unconfigured "/home/u/app/src/main.py" "print(1)")
     = Renderer.trace (Sync.syncWithServer_over working configured configured)
       ++ [Renderer.Log "Running code: src/main.py";
           Renderer.Log "Error: Server IP not configured";
           Renderer.Log "Error: Failed to get run result from server"]
  /\ exists logs,
       Renderer.trace (Run.runCodeOnServer_over working configured configured
                         moved "/home/u/app/src/main.py" "print(1)")
       = Renderer.trace (Sync.syncWithServer_over working configured configured)
         ++ Renderer.Log "Running code: home/u/app/src/main.py"
            :: Renderer.Post "http://10.0.0.5:3100" "runCode"
                 [("folderName", "other");
                  ("filePath", "home/u/app/src/main.py");
                  ("content", "print(1)")]
            :: logs
       /\ Forall (fun e => Mirror.is_log e = true) logs.
Proof.
  split; [|split].
  - exact (proj1 (run_request_after_mirror working configured configured
                    configured "/home/u/app/src/main.py" "print(1)"
                    "/home/u/app" eq_refl eq_refl) eq_refl).
  - exact (proj2 (run_request_after_mirror working configured configured
                    unconfigured "/home/u/app/src/main.py" "print(1)"
                    "/home/u/app" eq_refl eq_refl) eq_refl).
  - exact (proj1 (run_request_after_mirror working configured configured
                    moved "/home/u/app/src/main.py" "print(1)"
                    "/home/u/other" eq_refl eq_refl) eq_refl).
Defined.

(** ** Loading and saving the settings *)

Section SettingsFacts.
Import Settings.

Lemma updateRcloneConfig_without_credentials (w : World) (settings : Json)
    (ip user : option Json) :
  get settings "ip" = Returns ip -> get settings "user" = Returns user ->
  truthy_value ip = false \/ truthy_value user = false ->
  updateRcloneConfig w settings = Returns false.
Proof.
  unfold updateRcloneConfig. intros -> -> H. cbn [mbind Result_bind].
  destruct H as [-> | ->]; [reflexivity|]. now rewrite orb_true_r.
Qed.

Lemma updateRcloneConfig_without_appdata (w : World) (settings : Json)
    (ip user : option Json) :
  get settings "ip" = Returns ip -> get settings "user" = Returns user ->
  truthy_value ip = true -> truthy_value user = true ->
  APPDATA w = None ->
  updateRcloneConfig w settings = Throws.
Proof.
  unfold updateRcloneConfig. intros -> ->. cbn [mbind Result_bind].
  intros -> -> ->. reflexivity.
Qed.

End SettingsFacts.

(** X10.  [readServerSettings] returns the content of the settings file
    as parsed whenever the provisioning of the sync tool's profile settles,
    whether it succeeded or not; when the provisioning throws (for
    instance with an address and a user configured and [APPDATA] not set)
    a valid settings file is reported as the empty record.  On first use
    the bundled default is returned if it could be copied. *)
Theorem readServerSettings_content
    (JSON_parse : string -> option Settings.Json)
    (SERVER_SETTINGS_PATH defaultSettingsPath : string) (w : Settings.World)
    (p data : string) (settings : Settings.Json) :
  (p = SERVER_SETTINGS_PATH /\ Settings.existsSync w SERVER_SETTINGS_PATH = true
   \/ p = defaultSettingsPath
      /\ Settings.existsSync w SERVER_SETTINGS_PATH = false
      /\ Settings.existsSync w defaultSettingsPath = true
      /\ Settings.writeFileSync_ok w SERVER_SETTINGS_PATH = true) ->
  Settings.readFileSync w p = Some data ->
  JSON_parse data = Some settings ->
  let result :=
    Settings.readServerSettings JSON_parse SERVER_SETTINGS_PATH
      defaultSettingsPath w in
  (forall b, Settings.updateRcloneConfig w settings = Settings.Returns b ->
             result = Settings.Returns settings)
  /\ (Settings.updateRcloneConfig w settings = Settings.Throws ->
      result = Settings.Returns Settings.empty_record)
  /\ (forall ip user,
        Settings.get settings "ip" = Settings.Returns ip ->
        Settings.get settings "user" = Settings.Returns user ->
        (Settings.truthy_value ip = false \/ Settings.truthy_value user = false ->
         result = Settings.Returns settings)
        /\ (Settings.truthy_value ip = true ->
            Settings.truthy_value user = true ->
            Settings.APPDATA w = None ->
            result = Settings.Returns Settings.empty_record)).
Proof.
  intros Hp Hread Hparse result.
  assert (H : (forall b,
                 Settings.updateRcloneConfig w settings = Settings.Returns b ->
                 result = Settings.Returns settings)
              /\ (Settings.updateRcloneConfig w settings = Settings.Throws ->
                  result = Settings.Returns Settings.empty_record)).
  { subst result.
    unfold Settings.readServerSettings, Settings.readServerSettings_try,
      Settings.read, Settings.parse.
    destruct Hp as [[-> He]|(-> & He & Hd & Hw)].
    - rewrite He, Hread. cbn [mbind Settings.Result_bind]. rewrite Hparse.
      cbn [mbind Settings.Result_bind].
      split; [intros b ->|intros ->]; reflexivity.
    - rewrite He, Hd, Hread. cbn [mbind Settings.Result_bind]. rewrite Hparse.
      cbn [mbind Settings.Result_bind]. rewrite Hw.
      cbn [mbind Settings.Result_bind].
      split; [intros b ->|intros ->]; reflexivity. }
  destruct H as [Hret Hthrow]. split; [exact Hret|]. split; [exact Hthrow|].
  intros ip user Hip Huser. split.
  - intros Hc. apply (Hret false).
    now apply (updateRcloneConfig_without_credentials w settings ip user).
  - intros Ti Tu Ha. apply Hthrow.
    now apply (updateRcloneConfig_without_appdata w settings ip user).
Qed.

Lemma readServerSettings_content_witness :
  Settings.readServerSettings parse_stored "user.json" "default.json"
    (failing_tool (fun _ => true))
  = Settings.Returns stored_settings
  /\ Settings.readServerSettings parse_stored "user.json" "default.json"
       (no_appdata (fun _ => true))
     = Settings.Returns Settings.empty_record
  /\ Settings.readServerSettings parse_stored "user.json" "default.json"
       (failing_tool (fun p => String.eqb p "default.json"))
     = Settings.Returns stored_settings.
Proof.
  split; [|split].
  - apply (proj1 (readServerSettings_content parse_stored "user.json"
                    "default.json" (failing_tool (fun _ => true))
                    "user.json" "stored" stored_settings
                    (or_introl (conj eq_refl eq_refl)) eq_refl eq_refl) false).
    reflexivity.
  - apply (proj2 (proj2 (proj2 (readServerSettings_content parse_stored
                    "user.json"
                    "default.json" (no_appdata (fun _ => true))
                    "user.json" "stored" stored_settings
                    (or_introl (conj eq_refl eq_refl)) eq_refl eq_refl))
                    (Some (Settings.JStr "10.0.0.5"))
                    (Some (Settings.JStr "u")) eq_refl eq_refl));
      reflexivity.
  - apply (proj1 (readServerSettings_content parse_stored "user.json"
                    "default.json"
                    (failing_tool (fun p => String.eqb p "default.json"))
                    "default.json" "stored" stored_settings
                    (or_intror (conj eq_refl (conj eq_refl (conj eq_refl eq_refl))))
                    eq_refl eq_refl) false).
    reflexivity.
Defined.

(** X11.  [writeServerSettings] never throws.  It reports [true] when the
    file was written and the provisioning settled, also when the sync
    tool's command failed; it reports [false] when the file could not be
    written, and also when the file was written but the provisioning
    threw. *)
Theorem writeServerSettings_outcome
    (SERVER_SETTINGS_PATH : string) (w : Settings.World)
    (settings : Settings.Json) :
  let result :=
    SettingsWrite.writeServerSettings SERVER_SETTINGS_PATH w settings in
  (Settings.writeFileSync_ok w SERVER_SETTINGS_PATH = false ->
   result = Settings.Returns false)
  /\ (Settings.writeFileSync_ok w SERVER_SETTINGS_PATH = true ->
      (forall b, Settings.updateRcloneConfig w settings = Settings.Returns b ->
                 result = Settings.Returns true)
      /\ (Settings.updateRcloneConfig w settings = Settings.Throws ->
          result = Settings.Returns false)
      /\ (forall ip user,
            Settings.get settings "ip" = Settings.Returns ip ->
            Settings.get settings "user" = Settings.Returns user ->
            Settings.truthy_value ip = true ->
            Settings.truthy_value user = true ->
            Settings.APPDATA w = None ->
            result = Settings.Returns false)).
Proof.
  intros result. subst result.
  unfold SettingsWrite.writeServerSettings,
    SettingsWrite.writeServerSettings_try.
  split.
  - intros ->. reflexivity.
  - intros ->. cbn [mbind Settings.Result_bind].
    split; [intros b ->; reflexivity|]. split; [intros ->; reflexivity|].
    intros ip user Hip Huser Ti Tu Ha.
    now rewrite (updateRcloneConfig_without_appdata w settings ip user).
Qed.

Lemma writeServerSettings_outcome_witness :
  SettingsWrite.writeServerSettings "user.json"
    (failing_tool (fun _ => true)) stored_settings
  = Settings.Returns true
  /\ SettingsWrite.writeServerSettings "user.json"
       (no_appdata (fun _ => true)) stored_settings
     = Settings.Returns false.
Proof.
  split.
  - apply (proj1 (proj2 (writeServerSettings_outcome
                           "user.json" (failing_tool (fun _ => true))
                           stored_settings) eq_refl) false).
    reflexivity.
  - apply (proj2 (proj2 (proj2 (writeServerSettings_outcome
                           "user.json" (no_appdata (fun _ => true))
                           stored_settings) eq_refl))
             (Some (Settings.JStr "10.0.0.5")) (Some (Settings.JStr "u")));
      reflexivity.
Defined.

(** X12.  The provisioning of the sync tool's profile reports success
    exactly when the address and the user are configured, [APPDATA] is
    set, the configuration directory [path.join(APPDATA, 'rclone')] exists
    or could be created, the configured executable resolves, and the
    command built from the executable, the address, the user and the
    password, which is the one command it runs, ended without error.  With
    the address or the user missing it reports failure whatever the state
    of the machine. *)
Theorem provisioning_outcome (w : Settings.World) (settings : Settings.Json) :
  (Settings.updateRcloneConfig w settings = Settings.Returns true <->
   exists ip user appdata rclonePath rcloneExecutable pass,
     Settings.get settings "ip" = Settings.Returns ip
     /\ Settings.truthy_value ip = true
     /\ Settings.get settings "user" = Settings.Returns user
     /\ Settings.truthy_value user = true
     /\ Settings.APPDATA w = Some appdata
     /\ (Settings.existsSync w (Settings.path_join w appdata "rclone") = true
         \/ Settings.mkdirSync_ok w (Settings.path_join w appdata "rclone")
            = true)
     /\ Settings.get settings "rclonePath" = Settings.Returns rclonePath
     /\ Settings.rcloneExecutable_of rclonePath
        = Settings.Returns rcloneExecutable
     /\ Settings.get settings "pass" = Settings.Returns pass
     /\ Settings.exec w
          (Settings.config_command rcloneExecutable ip user pass)
        = Settings.ExecOk)
  /\ (forall fields,
        settings = Settings.JObj fields ->
        Settings.truthy_value (Settings.lookup_field "ip" fields) = false
        \/ Settings.truthy_value (Settings.lookup_field "user" fields) = false ->
        Settings.updateRcloneConfig w settings = Settings.Returns false).
Proof.
  split; [split|].
  - unfold Settings.updateRcloneConfig.
    destruct (Settings.get settings "ip") as [ip|] eqn:Hip; [|discriminate].
    destruct (Settings.get settings "user") as [user|] eqn:Hu; [|discriminate].
    cbn [mbind Settings.Result_bind].
    destruct (Settings.truthy_value ip) eqn:Ti; [|discriminate].
    destruct (Settings.truthy_value user) eqn:Tu; [|discriminate].
    cbn [negb orb].
    destruct (Settings.APPDATA w) as [appdata|] eqn:Ha; [|discriminate].
    destruct (Settings.existsSync w _) eqn:Hdir;
      [|destruct (Settings.mkdirSync_ok w _) eqn:Hmk; [|discriminate]];
      cbn [negb andb];
      (destruct (Settings.get settings "rclonePath") as [rp|] eqn:Hrp;
         [|discriminate]);
      cbn [mbind Settings.Result_bind];
      (destruct (Settings.rcloneExecutable_of rp) as [exe|] eqn:Hexe;
         [|discriminate]);
      cbn [mbind Settings.Result_bind];
      (destruct (Settings.get settings "pass") as [pass|] eqn:Hpass;
         [|discriminate]);
      cbn [mbind Settings.Result_bind];
      (destruct (Settings.exec w _) eqn:He; try discriminate);
      intros _; exists ip, user, appdata, rp, exe, pass; auto 12.
  - intros (ip & user & appdata & rp & exe & pass & Hip & Ti & Hu & Tu & Ha
            & Hdir & Hrp & Hexe & Hpass & He).
    unfold Settings.updateRcloneConfig.
    rewrite Hip, Hu. cbn [mbind Settings.Result_bind].
    rewrite Ti, Tu, Ha. cbn [negb orb].
    assert (Hgo : negb (Settings.existsSync w
                          (Settings.path_join w appdata "rclone"))
                  && negb (Settings.mkdirSync_ok w
                             (Settings.path_join w appdata "rclone"))
                  = false).
    { destruct Hdir as [-> | ->]; [reflexivity | apply andb_false_r]. }
    rewrite Hgo, Hrp. cbn [mbind Settings.Result_bind].
    rewrite Hexe. cbn [mbind Settings.Result_bind].
    rewrite Hpass. cbn [mbind Settings.Result_bind].
    now rewrite He.
  - intros fields -> H.
    now apply (updateRcloneConfig_without_credentials w _
                 (Settings.lookup_field "ip" fields)
                 (Settings.lookup_field "user" fields)).
Qed.

(** With the address alone the provisioning fails; with the stored
    settings on a machine where everything succeeds it reports success,
    and the command run is the profile's for [rclone.exe]. *)
Lemma provisioning_outcome_witness :
  Settings.updateRcloneConfig (failing_tool (fun _ => true))
    (Settings.JObj [("ip", Settings.JStr "10.0.0.5")])
  = Settings.Returns false
  /\ Settings.updateRcloneConfig (bare_world (fun _ => true) (fun _ => None))
       stored_settings
     = Settings.Returns true
  /\ Settings.config_command "rclone.exe" (Some (Settings.JStr "10.0.0.5"))
       (Some (Settings.JStr "u")) None
     = "rclone.exe config create cloud-compiler-sftp sftp host="
       +:+ quoted "10.0.0.5" +:+ " user=" +:+ quoted "u"
       +:+ " port=22 --non-interactive".
Proof.
  split; [|split].
  - apply (proj2 (provisioning_outcome (failing_tool (fun _ => true)) _)
             [("ip", Settings.JStr "10.0.0.5")] eq_refl).
    right. reflexivity.
  - apply (proj2 (proj1 (provisioning_outcome
                           (bare_world (fun _ => true) (fun _ => None))
                           stored_settings))).
    exists (Some (Settings.JStr "10.0.0.5")), (Some (Settings.JStr "u")),
      "C:\Users\u\AppData\Roaming", None, "rclone.exe", None.
    repeat split; try reflexivity. left. reflexivity.
  - reflexivity.
Defined.

(** ** Snapshots *)

Section SnapshotFacts.
Import Fs Tree Snapshot.

Lemma well_formed_folder name path children :
  well_formed (Folder name path children) = true <-> Forall child_ok children.
Proof.
  simpl. rewrite forallb_forall, Forall_forall. split.
  - intros H c Hc%list_elem_of_In. specialize (H c Hc).
    destruct c; [exact H | discriminate].
  - intros H c Hc%list_elem_of_In. specialize (H c Hc).
    destruct c; [exact H | contradiction].
Qed.

(** What [readTree] returns for a directory is a folder node for it. *)
Lemma readTree_folder fuel fs dirPath t :
  readTree fuel fs dirPath = Some (Some t) ->
  exists children,
    t = Folder (path_basename fs dirPath) dirPath children
    /\ exists fuel',
         fuel = S fuel'
         /\ readTree_loop fs (readTree fuel' fs) dirPath
              (match readdirSync fs dirPath with
               | Some es => es
               | None => []
               end) [] = Some children.
Proof.
  destruct fuel as [|fuel']; [discriminate|]. simpl. unfold safeStat.
  destruct (statSync fs dirPath) as [stat|]; [|discriminate].
  destruct (isDirectory stat); simpl; [|discriminate].
  destruct (readTree_loop _ _ _ _ _) as [children|] eqn:L; [|discriminate].
  intros [= <-]. eauto.
Qed.

Lemma readTree_loop_shape fs rec dirPath entries children out :
  (forall full t, rec full = Some (Some t) ->
                  node_path t = full /\ is_folder t = true) ->
  readTree_loop fs rec dirPath entries children = Some out ->
  exists pushed,
    out = children ++ pushed
    /\ Forall2 (child_of fs dirPath) pushed
         (filter (fun e => d_kind e <> KOther) entries).
Proof.
  intros Hrec. revert children out.
  induction entries as [|entry rest IH]; intros children out; simpl.
  - intros [= <-]. exists []. rewrite app_nil_r. split; [reflexivity|constructor].
  - destruct (d_kind entry) eqn:K.
    + destruct (rec _) as [sub|] eqn:R; [|discriminate].
      intros (pushed & -> & H)%IH.
      exists (sub :: pushed). rewrite <- app_assoc. split; [reflexivity|].
      rewrite filter_cons_True by congruence. constructor; [|exact H].
      unfold child_of. rewrite K. destruct sub as [t|]; [|reflexivity].
      destruct (Hrec _ _ R) as [Hp Hf]. now split.
    + intros (pushed & -> & H)%IH.
      eexists (_ :: pushed). rewrite <- app_assoc. split; [reflexivity|].
      rewrite filter_cons_True by congruence. constructor; [|exact H].
      unfold child_of. rewrite K. now split.
    + intros (pushed & -> & H)%IH.
      exists pushed. split; [reflexivity|].
      now rewrite filter_cons_False by (intros H'; now apply H').
Qed.

Lemma readTree_loop_ok fs rec dirPath entries children out :
  (forall entry r,
     entry ∈ entries -> d_kind entry = KDirectory ->
     rec (path_join fs dirPath (d_name entry)) = Some r -> child_ok r) ->
  Forall child_ok children ->
  readTree_loop fs rec dirPath entries children = Some out ->
  Forall child_ok out.
Proof.
  revert children out.
  induction entries as [|entry rest IH]; intros children out Hrec Hacc; simpl.
  - now intros [= <-].
  - assert (Hrest : forall e r, e ∈ rest -> d_kind e = KDirectory ->
                      rec (path_join fs dirPath (d_name e)) = Some r -> child_ok r).
    { intros e r He. apply Hrec. now right. }
    destruct (d_kind entry) eqn:K.
    + destruct (rec _) as [sub|] eqn:R; [|discriminate].
      apply IH; [exact Hrest|]. apply Forall_app. split; [exact Hacc|].
      constructor; [|constructor]. apply (Hrec entry sub); [left|exact K|exact R].
    + apply IH; [exact Hrest|]. apply Forall_app. split; [exact Hacc|].
      repeat constructor.
    + now apply IH.
Qed.

End SnapshotFacts.

(** X13.  A snapshot describes the directory as it was listed: the root
    node carries the path asked for and the name [path.basename] gives
    for it, and its children are, in listing order, one per entry that is
    a file or a directory, each with the path [path.join] gives for the
    directory and the entry's name, whatever the platform's separator and
    normalisation; a file's node carries the entry's name.  A directory
    that cannot be listed has no children. *)
Theorem snapshot_matches_listing (fuel : nat) (fs : Fs.t) (dirPath : string)
    (t : Tree.TreeNode) :
  Tree.readTree fuel fs dirPath = Some (Some t) ->
  exists children,
    t = Tree.Folder (Fs.path_basename fs dirPath) dirPath children
    /\ Forall2 (Snapshot.child_of fs dirPath) children
         (Snapshot.listed fs dirPath).
Proof.
  intros (children & -> & fuel' & -> & L)%readTree_folder.
  exists children. split; [reflexivity|].
  apply readTree_loop_shape in L as (pushed & -> & H); [exact H|].
  intros full t (ch & -> & _)%readTree_folder. now split.
Qed.

Lemma snapshot_matches_listing_witness :
  exists children,
    Tree.Folder "ws" "/ws"
      [Some (Tree.FileNode "a.txt" "/ws/a.txt");
       Some (Tree.Folder "src" "/ws/src"
               [Some (Tree.FileNode "main.py" "/ws/src/main.py")])]
    = Tree.Folder (Fs.path_basename small_fs "/ws") "/ws" children
    /\ Forall2 (Snapshot.child_of small_fs "/ws") children
         (Snapshot.listed small_fs "/ws").
Proof.
  apply (snapshot_matches_listing 3 small_fs "/ws"). reflexivity.
Defined.

(** X14.  On a filesystem where every listed directory can still be
    stat'ed as a directory when the walk reaches it, every snapshot is
    well formed: no child is [null], at any depth. *)
Theorem snapshot_well_formed (fs : Fs.t) (fuel : nat) (dirPath : string)
    (t : Tree.TreeNode) :
  Snapshot.stable fs ->
  Tree.readTree fuel fs dirPath = Some (Some t) ->
  Tree.well_formed t = true.
Proof.
  intros Hstable. revert dirPath t.
  induction fuel as [|fuel IH]; intros dirPath t; [discriminate|].
  intros (children & -> & fuel' & [= <-] & L)%readTree_folder.
  apply well_formed_folder.
  apply readTree_loop_ok in L; [exact L| |constructor].
  intros entry r Hin Hk Hr.
  destruct (Fs.readdirSync fs dirPath) as [es|] eqn:Hls; [|inversion Hin].
  pose proof (Hstable dirPath es entry Hls Hin Hk) as Hstat.
  destruct r as [sub|]; [exact (IH _ _ Hr)|].
  destruct fuel as [|fuel'']; [discriminate|].
  apply readTree_null_iff in Hr as [Hr|(st & Hst & Hd)].
  - congruence.
  - rewrite Hstat in Hst. injection Hst as <-. discriminate Hd.
Qed.

Lemma snapshot_well_formed_witness :
  Tree.well_formed
    (Tree.Folder "ws" "/ws"
       [Some (Tree.FileNode "a.txt" "/ws/a.txt");
        Some (Tree.Folder "src" "/ws/src"
                [Some (Tree.FileNode "main.py" "/ws/src/main.py")])])
  = true.
Proof.
  apply (snapshot_well_formed small_fs 3 "/ws"); [|reflexivity].
  intros dirPath entries entry Hls Hin Hk. unfold small_fs in *. simpl in *.
  destruct (String.eqb_spec dirPath "/ws") as [->|_].
  - injection Hls as <-.
    repeat (apply elem_of_cons in Hin as [->|Hin]; [try discriminate Hk|]);
      [reflexivity | inversion Hin].
  - destruct (String.eqb_spec dirPath "/ws/src") as [->|_]; [|discriminate].
    injection Hls as <-.
    repeat (apply elem_of_cons in Hin as [->|Hin]; [try discriminate Hk|]).
    inversion Hin.
Defined.

(** ** The watch set *)

Section WatchSetFacts.
Import Fs Watch MainProcess Reach.

(** Clearing removes every path that starts with the text of [root]. *)
Lemma clear_removes (root p : string) (l : list (string * nat)) (s : Watch.State) :
  startsWith p root = true ->
  watchers s !! p = None \/ (exists w, (p, w) ∈ l) ->
  watchers (foldl (clear_one root) s l) !! p = None.
Proof.
  intros Hp. revert s. induction l as [|[q w] l IH]; intros s H; simpl.
  - destruct H as [H|[w H]]; [exact H | inversion H].
  - apply IH. destruct H as [H|[w' H]].
    + left. destruct (startsWith q root); simpl; [|exact H].
      destruct (decide (q = p)) as [->|Hne];
        [apply lookup_delete_eq | now rewrite lookup_delete_ne].
    + apply elem_of_cons in H as [[= <- <-]|H]; [|right; eauto].
      left. rewrite Hp. simpl. apply lookup_delete_eq.
Qed.

Lemma cleared_below_root (root p : string) (s : Watch.State) :
  startsWith p root = true ->
  watchers (foldl (clear_one root) s (map_to_list (watchers s))) !! p = None.
Proof.
  intros Hp. apply clear_removes; [exact Hp|].
  destruct (watchers s !! p) as [w|] eqn:E; [|now left].
  right. exists w. now apply elem_of_map_to_list.
Qed.

(** Clearing keeps the watch set sound. *)
Lemma clear_sound (root : string) (l : list (string * nat)) (s : Watch.State) :
  NoDup l.*1 ->
  (forall q w, (q, w) ∈ l -> watchers s !! q = Some w) ->
  sound s -> sound (foldl (clear_one root) s l).
Proof.
  revert s. induction l as [|[q w] l IH]; intros s Hnd Hl Hs; simpl; [exact Hs|].
  apply NoDup_cons in Hnd as [Hq Hnd].
  assert (Hqw : watchers s !! q = Some w) by (apply Hl; left).
  destruct Hs as (Hopen & Hinj & Hclosed).
  apply IH; [exact Hnd| |].
  - intros q' w' Hin. unfold clear_one.
    assert (q' <> q).
    { intros ->. apply Hq. apply list_elem_of_fmap. now exists (q, w'). }
    destruct (startsWith q root); simpl.
    + rewrite lookup_delete_ne by congruence. apply Hl. now right.
    + apply Hl. now right.
  - unfold clear_one.
    destruct (startsWith q root);
      [|exact (conj Hopen (conj Hinj Hclosed))].
    split; [|split]; simpl.
    + intros p w' Hp.
      destruct (decide (q = p)) as [->|Hne];
        [now rewrite lookup_delete_eq in Hp|].
      rewrite lookup_delete_ne in Hp by exact Hne.
      destruct (Hopen p w' Hp) as [Hlt Hno]. split; [exact Hlt|].
      intros [Hc|Hc%elem_of_singleton]%elem_of_union; [contradiction|].
      subst w'. apply Hne. now apply (Hinj q p w).
    + intros p p' w' Hp Hp'.
      destruct (decide (q = p)) as [->|Hne];
        [now rewrite lookup_delete_eq in Hp|].
      destruct (decide (q = p')) as [->|Hne'];
        [now rewrite lookup_delete_eq in Hp'|].
      rewrite lookup_delete_ne in Hp, Hp' by assumption.
      now apply (Hinj p p' w').
    + intros w' [Hc|Hc%elem_of_singleton]%elem_of_union; [now apply Hclosed|].
      subst w'. now apply (Hopen q w).
Qed.

Lemma attach_loop_sound fs rec dir entries :
  (forall d s c, rec d s = Some c -> sound s -> sound (state_of c)) ->
  forall s c, attach_loop fs rec dir entries s = Some c -> sound s ->
              sound (state_of c).
Proof.
  intros Hrec. induction entries as [|entry rest IH]; intros s c; simpl.
  - now intros [= <-].
  - destruct (d_kind entry); try apply IH.
    destruct (rec _ s) as [[s'|s']|] eqn:R; [| |discriminate].
    + intros H Hs. apply (IH _ _ H). exact (Hrec _ _ _ R Hs).
    + intros [= <-] Hs. exact (Hrec _ _ _ R Hs).
Qed.

(** Arming keeps the watch set sound: the watcher it adds is new. *)
Lemma attachWatcher_sound fuel fs dir s c :
  attachWatcher fuel fs dir s = Some c -> sound s -> sound (state_of c).
Proof.
  revert dir s c. induction fuel as [|fuel IH]; intros dir s c; simpl;
    [discriminate|].
  destruct (watchers s !! dir) eqn:Hdir; [now intros [= <-]|].
  destruct (watch_ok fs dir); simpl; [|now intros [= <-]].
  intros H (Hopen & Hinj & Hclosed).
  apply (attach_loop_sound _ _ _ _ IH _ _ H).
  split; [|split]; simpl.
  - intros p w Hp. destruct (decide (dir = p)) as [<-|Hne].
    + rewrite lookup_insert_eq in Hp. injection Hp as <-.
      split; [lia|]. intros Hc%Hclosed. lia.
    + rewrite lookup_insert_ne in Hp by exact Hne.
      destruct (Hopen p w Hp). split; [lia | assumption].
  - intros p q w Hp Hq.
    destruct (decide (dir = p)) as [<-|Hne], (decide (dir = q)) as [<-|Hne'];
      [reflexivity| | |].
    + rewrite lookup_insert_eq in Hp. injection Hp as <-.
      rewrite lookup_insert_ne in Hq by exact Hne'.
      destruct (Hopen q _ Hq). lia.
    + rewrite lookup_insert_eq in Hq. injection Hq as <-.
      rewrite lookup_insert_ne in Hp by exact Hne.
      destruct (Hopen p _ Hp). lia.
    + rewrite lookup_insert_ne in Hp, Hq by assumption. now apply (Hinj p q w).
  - intros w Hw%Hclosed. lia.
Qed.

Lemma watchFolderRecursive_sound fuel fs root s c :
  watchFolderRecursive fuel fs root s = Some c -> sound s ->
  sound (state_of c).
Proof.
  unfold watchFolderRecursive. intros H Hs.
  apply (attachWatcher_sound _ _ _ _ _ H).
  apply clear_sound; [apply NoDup_fst_map_to_list| |exact Hs].
  intros q w. apply elem_of_map_to_list.
Qed.

(** Arming covers what it reaches. *)
Lemma attach_loop_covered fs rec dir entries (pending : string -> Prop) :
  (forall d s c, rec d s = Some (Normal c) -> covered fs pending s ->
     covered fs pending c /\ is_Some (watchers c !! d)) ->
  (forall d s c, rec d s = Some c ->
     forall p w, watchers s !! p = Some w -> watchers (state_of c) !! p = Some w) ->
  forall s c, attach_loop fs rec dir entries s = Some (Normal c) ->
    covered fs pending s ->
    covered fs pending c
    /\ (forall p, is_Some (watchers s !! p) -> is_Some (watchers c !! p))
    /\ forall entry, entry ∈ entries -> d_kind entry = KDirectory ->
         is_Some (watchers c !! path_join fs dir (d_name entry)).
Proof.
  intros Hrec Hkeep. induction entries as [|entry rest IH]; intros s c; simpl.
  - intros [= <-] Hc. split; [exact Hc|]. split; [auto|].
    intros e He. inversion He.
  - destruct (d_kind entry) eqn:K.
    + destruct (rec _ s) as [[s'|s']|] eqn:R; [|discriminate|discriminate].
      intros H Hc. destruct (Hrec _ _ _ R Hc) as [Hc' Hd].
      destruct (IH _ _ H Hc') as (Hc'' & Hmono & Hrest).
      split; [exact Hc''|]. split.
      * intros p [w Hp]. apply Hmono. exists w.
        exact (Hkeep _ _ _ R p w Hp).
      * intros e [->|He]%elem_of_cons Hk; [now apply Hmono | now apply Hrest].
    + intros H Hc. destruct (IH _ _ H Hc) as (Hc' & Hmono & Hrest).
      split; [exact Hc'|]. split; [exact Hmono|].
      intros e [->|He]%elem_of_cons Hk; [congruence | now apply Hrest].
    + intros H Hc. destruct (IH _ _ H Hc) as (Hc' & Hmono & Hrest).
      split; [exact Hc'|]. split; [exact Hmono|].
      intros e [->|He]%elem_of_cons Hk; [congruence | now apply Hrest].
Qed.

Lemma attachWatcher_covered fs fuel (pending : string -> Prop) dir s c :
  attachWatcher fuel fs dir s = Some (Normal c) ->
  covered fs pending s ->
  covered fs pending c /\ is_Some (watchers c !! dir).
Proof.
  revert pending dir s c.
  induction fuel as [|fuel IH]; intros pending dir s c; simpl; [discriminate|].
  destruct (watchers s !! dir) as [w|] eqn:Hdir.
  { intros [= <-] Hc. split; [exact Hc | eauto]. }
  destruct (watch_ok fs dir); simpl; [|discriminate].
  intros H Hc.
  set (s1 := {| watchers := <[dir:=next_handle s]> (watchers s);
                closed := closed s; next_handle := S (next_handle s) |}) in *.
  assert (Hc1 : covered fs (fun q => pending q \/ q = dir) s1).
  { intros d child [w Hd] Hnp Hsub. subst s1. simpl in *.
    destruct (decide (dir = d)) as [->|Hne]; [destruct Hnp; now right|].
    rewrite lookup_insert_ne in Hd by exact Hne.
    destruct (Hc d child) as [w' Hw']; [eauto | tauto | exact Hsub |].
    destruct (decide (dir = child)) as [->|Hne'];
      [rewrite lookup_insert_eq | rewrite lookup_insert_ne by exact Hne']; eauto. }
  destruct (attach_loop_covered fs (attachWatcher fuel fs) dir _
              (fun q => pending q \/ q = dir)
              (fun d s c => IH _ d s c)
              (fun d s c Hr => proj2 (attachWatcher_keeps _ _ _ _ _ Hr))
              _ _ H Hc1) as (Hc' & Hmono & Hsubs).
  assert (Hdirc : is_Some (watchers c !! dir)).
  { apply Hmono. subst s1. simpl. rewrite lookup_insert_eq. eauto. }
  split; [|exact Hdirc].
  intros d child Hd Hnp Hsub.
  destruct (decide (d = dir)) as [->|Hne].
  - destruct Hsub as (entries & entry & Hls & Hin & Hk & ->).
    apply Hsubs; [|exact Hk]. now rewrite Hls.
  - apply (Hc' d child Hd); [tauto | exact Hsub].
Qed.

(** Where [path.join] puts an entry below its directory by appending to
    the directory's text, every directory reached from [root] starts with
    the text of [root]. *)
Lemma reachable_starts_with fs root p :
  (forall dir name, startsWith (path_join fs dir name) dir = true) ->
  reachable fs root p -> startsWith p root = true.
Proof.
  intros Hjoin.
  induction 1 as [|dir child _ IH (entries & entry & _ & _ & _ & ->)].
  - apply startsWith_spec. exists EmptyString. now rewrite append_nil_r.
  - apply startsWith_spec in IH as [r ->].
    specialize (Hjoin (root +:+ r) (d_name entry)).
    apply startsWith_spec in Hjoin as [q ->]. apply startsWith_spec.
    eexists. now rewrite append_assoc.
Qed.

Lemma no_watch_sound : sound no_watch.
Proof.
  split; [|split]; simpl.
  - intros p w H. rewrite lookup_empty in H. discriminate H.
  - intros p q w H. rewrite lookup_empty in H. discriminate H.
  - intros w H. now apply not_elem_of_empty in H.
Qed.

End WatchSetFacts.

(** X15.  After [watchFolderRecursive(root)] returns, the root is
    watched, and so is every directory reached from it through the
    listings, provided that the paths [path.join] gives for the reached
    directories start with the text of [root]; those are the keys the
    clearing loop removes, and a key it leaves makes [attachWatcher]
    return without visiting what lies below. *)
Theorem arming_covers_tree (fuel : nat) (fs : Fs.t) (root : string)
    (s s' : Watch.State) (p : string) :
  Watch.watchFolderRecursive fuel fs root s = Some (Watch.Normal s') ->
  (forall q, Reach.reachable fs root q -> startsWith q root = true) ->
  Reach.reachable fs root p ->
  is_Some (Watch.watchers s' !! root) /\ is_Some (Watch.watchers s' !! p).
Proof.
  unfold Watch.watchFolderRecursive.
  set (s0 := foldl (Watch.clear_one root) s (map_to_list (Watch.watchers s))).
  intros H Hbelow Hreach.
  destruct (attachWatcher_covered fs fuel
              (fun q => is_Some (Watch.watchers s0 !! q)) root s0 s' H)
    as [Hcov Hroot].
  { intros d child Hd Hnp. contradiction. }
  split; [exact Hroot|].
  induction Hreach as [|dir child Hdir IH Hsub]; [exact Hroot|].
  apply (Hcov dir child IH); [|exact Hsub].
  intros [w Hw]. subst s0.
  rewrite cleared_below_root in Hw; [discriminate|].
  exact (Hbelow _ Hdir).
Qed.

Lemma arming_covers_tree_witness :
  is_Some
    (Watch.watchers
       {| Watch.watchers := <["/ws/src" := 1]> (<["/ws" := 0]> ∅);
          Watch.closed := ∅; Watch.next_handle := 2 |} !! "/ws/src").
Proof.
  refine (proj2 (arming_covers_tree 2 small_fs "/ws" MainProcess.no_watch
                   _ "/ws/src" _ _ _)).
  - vm_compute. reflexivity.
  - intros q. apply reachable_starts_with. intros dir name.
    apply startsWith_spec. exists ("/" +:+ name). reflexivity.
  - apply (Reach.reach_step _ _ "/ws" "/ws/src"); [constructor|].
    exists [ {| Fs.d_name := "a.txt"; Fs.d_kind := Fs.KFile |};
             {| Fs.d_name := "src"; Fs.d_kind := Fs.KDirectory |} ],
           {| Fs.d_name := "src"; Fs.d_kind := Fs.KDirectory |}.
    repeat split. right. left.
Defined.

(** X16.  The watch set is sound when every watcher in the map is open
    and no two directories share a watcher.  It is sound when the process
    starts, and [openWorkspace], the callback of [fs.watch] and the
    [pick-workspace] handler keep it sound.  The [window-all-closed]
    handler, the one other place that touches the watchers, does not: it
    closes every watcher and keeps the map, so that afterwards every
    watcher in the map is closed, and the watch set is sound only if the
    map was empty. *)
Theorem watch_set_sound (fuel : nat) (fs : Fs.t) (st : MainProcess.State) :
  MainProcess.sound MainProcess.no_watch
  /\ (MainProcess.sound (MainProcess.watch st) ->
      (forall folderPath o,
         MainProcess.openWorkspace fuel fs folderPath st = Some o ->
         MainProcess.sound (MainProcess.watch (MainProcess.after o)))
      /\ (forall dir filename o,
            MainProcess.on_change fuel fs dir filename st = Some o ->
            MainProcess.sound (MainProcess.watch (MainProcess.after o)))
      /\ (forall path dialog st' picked,
            MainProcess.pick_workspace fuel fs path dialog st
            = Some (st', picked) ->
            MainProcess.sound (MainProcess.watch st'))
      /\ (forall darwin,
            let st' := (MainProcess.window_all_closed darwin st).1 in
            Watch.watchers (MainProcess.watch st')
            = Watch.watchers (MainProcess.watch st)
            /\ (forall p w,
                  Watch.watchers (MainProcess.watch st') !! p = Some w ->
                  w ∈ Watch.closed (MainProcess.watch st'))
            /\ (MainProcess.sound (MainProcess.watch st')
                <-> Watch.watchers (MainProcess.watch st) = ∅))).
Proof.
  split; [exact no_watch_sound|].
  intros Hs. split; [|split; [|split]].
  - intros folderPath o. unfold MainProcess.openWorkspace.
    destruct (Tree.readTree fuel fs folderPath); [|discriminate].
    destruct (Watch.watchFolderRecursive _ _ _ _) as [c|] eqn:W;
      [|discriminate].
    intros [= <-]. simpl. exact (watchFolderRecursive_sound _ _ _ _ _ W Hs).
  - intros dir filename o. unfold MainProcess.on_change.
    destruct (Tree.readTree fuel fs _); [|discriminate].
    destruct filename as [name|]; [|now intros [= <-]].
    destruct (truthy name); [|now intros [= <-]].
    destruct (Fs.safeStat fs _) as [stat|]; [|now intros [= <-]].
    destruct (Fs.isDirectory stat); [|now intros [= <-]].
    destruct (Watch.attachWatcher _ _ _ _) as [c|] eqn:A; [|discriminate].
    intros [= <-]. simpl. exact (attachWatcher_sound _ _ _ _ _ A Hs).
  - intros path dialog st' picked. unfold MainProcess.pick_workspace.
    destruct path as [folder|].
    + destruct (Tree.readTree fuel fs folder); [|discriminate].
      now intros [= <- _].
    + destruct dialog as [folder|]; [|now intros [= <- _]].
      destruct (truthy folder); [|now intros [= <- _]].
      destruct (Watch.watchFolderRecursive _ _ _ _) as [[s|s]|] eqn:W;
        [| |discriminate].
      * destruct (Tree.readTree fuel fs folder); [|discriminate].
        intros [= <- _]. simpl.
        exact (watchFolderRecursive_sound _ _ _ _ _ W Hs).
      * intros [= <- _]. simpl.
        exact (watchFolderRecursive_sound _ _ _ _ _ W Hs).
  - intros darwin st'. subst st'. simpl.
    split; [reflexivity|].
    assert (Hall : forall p w,
              Watch.watchers (MainProcess.watch st) !! p = Some w ->
              w ∈ Watch.closed (MainProcess.watch st)
                  ∪ map_img (Watch.watchers (MainProcess.watch st))).
    { intros p w Hp. apply elem_of_union. right.
      apply elem_of_map_img. now exists p. }
    split; [exact Hall|]. split.
    + intros (Hopen & _ & _). apply map_empty. intros p.
      destruct (Watch.watchers (MainProcess.watch st) !! p) as [w|] eqn:Hp;
        [|reflexivity].
      destruct (Hopen p w Hp) as [_ Hno]. simpl in Hno.
      destruct Hno. exact (Hall p w Hp).
    + intros Hempty. destruct Hs as (Hopen & Hinj & Hclosed).
      split; [|split]; simpl.
      * intros p w Hp. rewrite Hempty, lookup_empty in Hp. discriminate Hp.
      * intros p q w Hp. rewrite Hempty, lookup_empty in Hp. discriminate Hp.
      * intros w [Hw|Hw]%elem_of_union; [now apply Hclosed|].
        apply elem_of_map_img in Hw as [p Hp].
        rewrite Hempty, lookup_empty in Hp. discriminate Hp.
Qed.

(** The watch set after [/ws] was opened is sound; once all windows are
    closed the watcher of [/ws] is still in the map, and closed. *)
Lemma watch_set_sound_witness :
  MainProcess.sound (MainProcess.watch opened_ws)
  /\ 0 ∈ Watch.closed
           (MainProcess.watch
              (MainProcess.window_all_closed true opened_ws).1).
Proof.
  assert (Hs : MainProcess.sound (MainProcess.watch opened_ws)).
  { refine (proj1 (proj2 (watch_set_sound 3 small_fs
                            {| MainProcess.workspaceRoot := None;
                               MainProcess.watch := MainProcess.no_watch |})
                     (proj1 (watch_set_sound 3 small_fs
                               {| MainProcess.workspaceRoot := None;
                                  MainProcess.watch := MainProcess.no_watch |})))
              "/ws"
              {| MainProcess.after := opened_ws;
                 MainProcess.sent :=
                   [MainProcess.WorkspaceOpened "/ws"
                      (Some (Tree.Folder "ws" "/ws"
                         [Some (Tree.FileNode "a.txt" "/ws/a.txt");
                          Some (Tree.Folder "src" "/ws/src"
                            [Some (Tree.FileNode "main.py"
                                     "/ws/src/main.py")])]))];
                 MainProcess.threw := false |} _).
    vm_compute. reflexivity. }
  split; [exact Hs|].
  refine (proj1 (proj2 (proj2 (proj2 (proj2
            (proj2 (watch_set_sound 3 small_fs opened_ws) Hs))) true))
            "/ws" 0 _).
  vm_compute. reflexivity.
Defined.

(** X17.  Opening a workspace does not tear down the watches of the one
    before: with a sound watch set, every watch on a path that does not
    start with the text of the new root stays armed, on the same watcher.
    The renderer is sent the snapshot of the new root. *)
Theorem openWorkspace_keeps_other_watches (fuel : nat) (fs : Fs.t)
    (folderPath : string) (st : MainProcess.State) (o : MainProcess.Outcome)
    (p : string) (w : nat) :
  MainProcess.openWorkspace fuel fs folderPath st = Some o ->
  MainProcess.sound (MainProcess.watch st) ->
  Watch.armed (MainProcess.watch st) p w ->
  startsWith p folderPath = false ->
  Watch.armed (MainProcess.watch (MainProcess.after o)) p w
  /\ MainProcess.workspaceRoot (MainProcess.after o) = Some folderPath
  /\ exists tree,
       Tree.readTree fuel fs folderPath = Some tree
       /\ MainProcess.sent o = [MainProcess.WorkspaceOpened folderPath tree].
Proof.
  unfold MainProcess.openWorkspace.
  destruct (Tree.readTree fuel fs folderPath) as [tree|]; [|discriminate].
  destruct (Watch.watchFolderRecursive _ _ _ _) as [c|] eqn:W; [|discriminate].
  intros [= <-] (Hopen & Hinj & _) [Hp Hw] Hpre. simpl.
  destruct (watchFolderRecursive_frame _ _ _ _ _ W) as [Hkeep Hclosed].
  split; [|split; [reflexivity | eauto]].
  split; [now apply Hkeep|].
  rewrite Hclosed. intros [Hc|Hc]%elem_of_union; [contradiction|].
  apply elem_of_list_to_set, list_elem_of_fmap in Hc as ([q w'] & Hq & Hin).
  simpl in Hq. subst w'.
  apply list_elem_of_filter in Hin as [Hqpre Hin]. simpl in Hqpre.
  apply elem_of_map_to_list in Hin.
  assert (p = q) by exact (Hinj p q w Hp Hin). congruence.
Qed.

Lemma openWorkspace_keeps_other_watches_witness :
  Watch.armed
    {| Watch.watchers :=
         <["/other" := 2]> (<["/ws/src" := 1]> (<["/ws" := 0]> ∅));
       Watch.closed := ∅; Watch.next_handle := 3 |} "/ws/src" 1.
Proof.
  refine (proj1 (openWorkspace_keeps_other_watches 3
                   flat_fs "/other"
                   {| MainProcess.workspaceRoot := Some "/ws";
                      MainProcess.watch :=
                        {| Watch.watchers :=
                             <["/ws/src" := 1]> (<["/ws" := 0]> ∅);
                           Watch.closed := ∅; Watch.next_handle := 2 |} |}
                   {| MainProcess.after :=
                        {| MainProcess.workspaceRoot := Some "/other";
                           MainProcess.watch :=
                             {| Watch.watchers :=
                                  <["/other" := 2]>
                                    (<["/ws/src" := 1]> (<["/ws" := 0]> ∅));
                                Watch.closed := ∅; Watch.next_handle := 3 |} |};
                      MainProcess.sent :=
                        [MainProcess.WorkspaceOpened "/other"
                           (Some (Tree.Folder "other" "/other" []))];
                      MainProcess.threw := false |}
                   "/ws/src" 1 _ _ _ _)).
  - vm_compute. reflexivity.
  - apply (watchFolderRecursive_sound 3 small_fs "/ws" MainProcess.no_watch
             (Watch.Normal _)); [vm_compute; reflexivity | exact no_watch_sound].
  - split; [reflexivity | apply not_elem_of_empty].
  - reflexivity.
Defined.

(** ** Tabs *)

Section TabsFacts.
Import Tabs.

Lemma find_path_Some filePath ts t :
  find_path filePath ts = Some t -> t ∈ ts /\ path t = filePath.
Proof.
  unfold find_path. induction ts as [|x ts IH]; simpl; [discriminate|].
  destruct (String.eqb_spec (path x) filePath) as [E|_].
  - intros [= <-]. split; [left | exact E].
  - intros [H1 H2]%IH. split; [now right | exact H2].
Qed.

Lemma find_path_None filePath ts :
  find_path filePath ts = None -> filePath ∉ path <$> ts.
Proof.
  unfold find_path. induction ts as [|x ts IH]; simpl.
  - intros _ H. inversion H.
  - destruct (String.eqb_spec (path x) filePath) as [E|Hne]; [discriminate|].
    intros H%IH [E|Hin]%elem_of_cons; [congruence | contradiction].
Qed.

Lemma find_path_first filePath before tab after :
  path tab = filePath -> filePath ∉ path <$> before ->
  find_path filePath (before ++ tab :: after) = Some tab.
Proof.
  intros Hp. unfold find_path. induction before as [|x before IH]; simpl.
  - intros _. apply String.eqb_eq in Hp. now rewrite Hp.
  - intros Hno. destruct (String.eqb_spec (path x) filePath) as [E|_].
    + destruct Hno. rewrite <- E. left.
    + apply IH. intros H. apply Hno. now right.
Qed.

Lemma findIndex_path_first filePath before tab after :
  path tab = filePath -> filePath ∉ path <$> before ->
  findIndex_path filePath (before ++ tab :: after) = Some (length before).
Proof.
  intros Hp. induction before as [|x before IH]; simpl.
  - intros _. apply String.eqb_eq in Hp. now rewrite Hp.
  - intros Hno. destruct (String.eqb_spec (path x) filePath) as [E|_].
    + destruct Hno. rewrite <- E. left.
    + rewrite IH; [reflexivity|]. intros H. apply Hno. now right.
Qed.

(** A tab found by its path splits the list at its first occurrence. *)
Lemma findIndex_path_split filePath ts idx :
  findIndex_path filePath ts = Some idx ->
  exists before tab after,
    ts = before ++ tab :: after /\ path tab = filePath
    /\ (filePath ∉ path <$> before) /\ idx = length before.
Proof.
  revert idx. induction ts as [|x ts IH]; intros idx; simpl; [discriminate|].
  destruct (String.eqb_spec (path x) filePath) as [E|Hne].
  - intros [= <-]. exists [], x, ts. repeat split; [exact E|].
    intros H. inversion H.
  - destruct (findIndex_path filePath ts) as [i|]; [|discriminate].
    intros [= <-]. destruct (IH i eq_refl) as (b & t & a & -> & Hp & Hno & ->).
    exists (x :: b), t, a. repeat split; [exact Hp|].
    intros [E|Hin]%elem_of_cons; [congruence | contradiction].
Qed.

Lemma update_first_keys (test : Tab -> bool) (change : Tab -> Tab) ts :
  (forall t, path (change t) = path t /\ model (change t) = model t) ->
  (fun t => (path t, model t)) <$> update_first test change ts
  = (fun t => (path t, model t)) <$> ts.
Proof.
  intros Hc. induction ts as [|x ts IH]; [reflexivity|].
  cbn [update_first]. destruct (test x); rewrite !fmap_cons.
  - destruct (Hc x) as [-> ->]. reflexivity.
  - f_equal. exact IH.
Qed.

(** Coherence looks at the paths and models of the tabs only. *)
Lemma coherent_by_keys st st' :
  (fun t => (path t, model t)) <$> tabs st'
  = (fun t => (path t, model t)) <$> tabs st ->
  activeTabPath st' = activeTabPath st -> shown st' = shown st ->
  coherent st -> coherent st'.
Proof.
  intros Hk Ha Hs [Hnd Hact].
  assert (Hpaths : path <$> tabs st' = path <$> tabs st).
  { apply (f_equal (fmap fst)) in Hk.
    now rewrite <- !list_fmap_compose in Hk. }
  split; [now rewrite Hpaths|].
  intros p Hp. rewrite Ha in Hp. destruct (Hact p Hp) as (t & Hin & Ht & Hsh).
  assert (Hkin : (path t, model t) ∈ (fun t => (path t, model t)) <$> tabs st').
  { rewrite Hk. apply list_elem_of_fmap. now exists t. }
  apply list_elem_of_fmap in Hkin as (t' & [= E1 E2] & Hin').
  exists t'. repeat split; [exact Hin' | congruence | congruence].
Qed.

Lemma activateTab_coherent filePath st :
  coherent st -> coherent (activateTab filePath st).
Proof.
  intros [Hnd Hact]. unfold activateTab.
  destruct (find_path filePath (tabs st)) as [tab|] eqn:F; [|now split].
  apply find_path_Some in F as [Hin Hp]. split; [exact Hnd|]. simpl.
  intros p [= <-]. now exists tab.
Qed.

Lemma on_content_change_coherent m st :
  coherent st -> coherent (on_content_change m st).
Proof.
  apply coherent_by_keys; try reflexivity. simpl.
  apply update_first_keys. intros t. now destruct (dirty t).
Qed.

Lemma elem_of_delete_other {A} (l : list A) (i : nat) (x t : A) :
  l !! i = Some x -> t ∈ l -> t <> x -> t ∈ delete i l.
Proof.
  intros Hi Hin Hne. rewrite delete_take_drop.
  rewrite <- (take_drop_middle l i x Hi) in Hin.
  apply elem_of_app in Hin as [Hin|[->|Hin]%elem_of_cons];
    [apply elem_of_app; now left | contradiction | apply elem_of_app; now right].
Qed.

(** [tabs[idx] || tabs[idx - 1]] after the removal at [idx]. *)
Lemma neighbour_after_removal {A} (before after : list A) :
  match (before ++ after) !! length before with
  | Some t => Some t
  | None => match length before with
            | 0 => None
            | S i => (before ++ after) !! i
            end
  end
  = match after with
    | t :: _ => Some t
    | [] => last before
    end.
Proof.
  destruct after as [|t after].
  - rewrite app_nil_r, lookup_ge_None_2 by lia.
    destruct before as [|b before] using rev_ind; [reflexivity|].
    rewrite length_app, last_snoc. simpl.
    replace (length before + 1) with (S (length before)) by lia.
    rewrite lookup_app_r by lia.
    now replace (length before - length before) with 0 by lia.
  - now rewrite list_lookup_middle by reflexivity.
Qed.

Lemma closeTab_coherent filePath confirmed st :
  coherent st -> coherent (closeTab filePath confirmed st).
Proof.
  intros Hc. pose proof Hc as [Hnd Hact]. unfold closeTab.
  destruct (findIndex_path filePath (tabs st)) as [idx|] eqn:F; [|exact Hc].
  destruct (tabs st !! idx) as [tab|] eqn:Hidx; [|exact Hc].
  destruct (dirty tab && negb confirmed); [exact Hc|].
  assert (Hnd' : NoDup (path <$> delete idx (tabs st))).
  { rewrite delete_take_drop, fmap_app.
    rewrite <- (take_drop_middle _ _ _ Hidx), fmap_app, fmap_cons in Hnd.
    apply NoDup_app in Hnd as (H1 & H2 & H3). apply NoDup_cons in H3 as [_ H3].
    apply NoDup_app. repeat split; [exact H1| |exact H3].
    intros x Hx Hx'. apply (H2 x Hx). now right. }
  assert (Htab : path tab = filePath).
  { apply findIndex_path_split in F as (b & t & a & E & Hp & _ & ->).
    rewrite E in Hidx. rewrite list_lookup_middle in Hidx by reflexivity.
    congruence. }
  assert (Hother : forall p, activeTabPath st = Some p -> p <> filePath ->
            exists t, t ∈ delete idx (tabs st) /\ path t = p
                      /\ shown st = Some (model t)).
  { intros p Hp Hne. destruct (Hact p Hp) as (t & Hin & Ht & Hsh).
    exists t. repeat split; [|exact Ht|exact Hsh].
    apply (elem_of_delete_other _ _ tab); [exact Hidx | exact Hin | congruence]. }
  destruct (activeTabPath st) as [active|] eqn:Ha.
  - destruct (String.eqb_spec active filePath) as [->|Hne].
    + split; [exact Hnd'|]. simpl.
      set (next := match delete idx (tabs st) !! idx with
                   | Some t => Some t
                   | None => match idx with
                             | 0 => None
                             | S i => delete idx (tabs st) !! i
                             end
                   end).
      assert (Hnext : forall t, next = Some t -> t ∈ delete idx (tabs st)).
      { intros t. subst next.
        destruct (delete idx (tabs st) !! idx) eqn:E1.
        - intros [= <-]. eapply list_elem_of_lookup_2; eauto.
        - destruct idx; [discriminate|]. intros H.
          eapply list_elem_of_lookup_2; eauto. }
      intros p Hp. destruct next as [t|]; [|discriminate].
      simpl in Hp. injection Hp as <-. exists t. auto.
    + split; [exact Hnd'|]. simpl. rewrite Ha. intros p [= <-].
      now apply Hother.
  - split; [exact Hnd'|]. simpl. rewrite Ha. discriminate.
Qed.

Lemma saveActiveTab_coherent saved st :
  coherent st -> coherent (saveActiveTab saved st).1.
Proof.
  intros Hc. unfold saveActiveTab.
  destruct (activeTabPath st) as [active|]; [|exact Hc].
  destruct (find_path active (tabs st)); [|exact Hc].
  destruct saved; [|exact Hc]. simpl.
  revert Hc. apply coherent_by_keys; try reflexivity. simpl.
  apply update_first_keys. intros x. now split.
Qed.

Lemma on_content_change_paths m st :
  path <$> tabs (on_content_change m st) = path <$> tabs st.
Proof.
  pose proof (update_first_keys (fun t => String.eqb (model t) m)
                (fun t => if negb (dirty t) then set_dirty true t else t)
                (tabs st)) as Hk.
  simpl. apply (f_equal (fmap fst)) in Hk;
    [|intros t; now destruct (dirty t)].
  now rewrite <- !list_fmap_compose in Hk.
Qed.

Lemma openFile_resume_coherent Uri_file filePath fileName read fires st :
  filePath ∉ path <$> tabs st ->
  coherent st ->
  coherent (openFile_resume Uri_file filePath fileName read fires st).
Proof.
  intros Hfresh Hc. unfold openFile_resume.
  destruct read as [content|]; [|exact Hc].
  apply activateTab_coherent.
  set (st1 := match models st !! Uri_file filePath with
              | Some _ =>
                  if fires then on_content_change (Uri_file filePath) st
                  else st
              | None => st
              end).
  assert (Hc1 : coherent st1
                /\ path <$> tabs st1 = path <$> tabs st).
  { subst st1. destruct (models st !! Uri_file filePath); [|now split].
    destruct fires; [|now split].
    split; [now apply on_content_change_coherent|].
    apply on_content_change_paths. }
  destruct Hc1 as [[Hnd Hact] Hpaths].
  split; simpl.
  - rewrite fmap_app. apply NoDup_app. split; [exact Hnd|]. split.
    + intros x Hx Hx'. apply elem_of_cons in Hx' as [->|Hx']; [|inversion Hx'].
      rewrite Hpaths in Hx. contradiction.
    + apply NoDup_singleton.
  - intros p Hp. destruct (Hact p Hp) as (t & Hin & Ht & Hsh).
    exists t. split; [|now split].
    apply elem_of_app. now left.
Qed.

Lemma openFile_coherent Uri_file filePath fileName read fires st :
  coherent st -> coherent (openFile Uri_file filePath fileName read fires st).
Proof.
  intros Hc. unfold openFile, openFile_begin.
  destruct (find_path filePath (tabs st)) as [existing|] eqn:F;
    [now apply activateTab_coherent|].
  apply openFile_resume_coherent; [|exact Hc].
  now apply find_path_None.
Qed.

Lemma NoDup_rename (old new : string) (l : list string) :
  NoDup l -> new ∉ l ->
  NoDup ((fun p => if String.eqb p old then new else p) <$> l).
Proof.
  induction 1 as [|x l Hx Hnd IH]; intros Hnew; [constructor|].
  rewrite fmap_cons. apply NoDup_cons. split.
  - intros (y & Hy & Hin)%list_elem_of_fmap.
    destruct (String.eqb_spec x old) as [Hxo|Hxo],
             (String.eqb_spec y old) as [Hyo|Hyo].
    + apply Hx. congruence.
    + apply Hnew. right. congruence.
    + apply Hnew. apply elem_of_cons. left. congruence.
    + apply Hx. congruence.
  - apply IH. intros H. apply Hnew. now right.
Qed.

Lemma promptRename_coherent oldPath newName renamed st :
  (forall newPath, renamed = Some newPath -> newPath ∉ path <$> tabs st) ->
  coherent st -> coherent (promptRename_enter oldPath newName renamed st).1.
Proof.
  intros Hfresh Hc. pose proof Hc as [Hnd Hact]. unfold promptRename_enter.
  destruct (negb (truthy newName) || String.eqb newName _); [exact Hc|].
  destruct renamed as [newPath|]; [|exact Hc].
  destruct (truthy newPath); [|exact Hc]. simpl.
  specialize (Hfresh newPath eq_refl).
  assert (Hpaths :
            path <$> map (rename_tab oldPath newPath newName) (tabs st)
            = (fun p => if String.eqb p oldPath then newPath else p)
                <$> (path <$> tabs st)).
  { generalize (tabs st). intros ts.
    induction ts as [|t ts IH]; [reflexivity|]. cbn [map].
    rewrite !fmap_cons. f_equal; [|exact IH].
    unfold rename_tab. now destruct (String.eqb (path t) oldPath). }
  split; simpl.
  - rewrite Hpaths. now apply NoDup_rename.
  - intros p Hp. destruct (activeTabPath st) as [active|]; [|discriminate].
    destruct (Hact active eq_refl) as (t & Hin & Ht & Hsh).
    exists (rename_tab oldPath newPath newName t).
    split; [apply list_elem_of_fmap; now exists t|].
    unfold rename_tab. rewrite Ht.
    destruct (String.eqb active oldPath); injection Hp as <-; now split.
Qed.

Lemma activateTab_tabs filePath st :
  tabs (activateTab filePath st) = tabs st
  /\ models (activateTab filePath st) = models st.
Proof.
  unfold activateTab. now destruct (find_path filePath (tabs st)).
Qed.

Lemma on_content_change_keys m st :
  (fun t => (path t, model t)) <$> tabs (on_content_change m st)
  = (fun t => (path t, model t)) <$> tabs st.
Proof.
  simpl. apply update_first_keys. intros t. now destruct (dirty t).
Qed.

(** What the second half of [openFile] does to the list of tabs. *)
Lemma resume_shape Uri_file filePath fileName content fires st :
  exists ts t,
    tabs (openFile_resume Uri_file filePath fileName (Some content) fires st)
    = ts ++ [t]
    /\ (fun t => (path t, model t)) <$> ts
       = (fun t => (path t, model t)) <$> tabs st
    /\ path t = filePath /\ model t = Uri_file filePath.
Proof.
  unfold openFile_resume. rewrite (proj1 (activateTab_tabs _ _)). simpl.
  eexists _, _. split; [reflexivity|]. split; [|now split].
  destruct (models st !! Uri_file filePath); [|reflexivity].
  destruct fires; [|reflexivity]. apply on_content_change_keys.
Qed.

Lemma keys_paths (ts ts' : list Tab) :
  (fun t => (path t, model t)) <$> ts = (fun t => (path t, model t)) <$> ts' ->
  path <$> ts = path <$> ts'.
Proof.
  intros Hk. apply (f_equal (fmap fst)) in Hk.
  now rewrite <- !list_fmap_compose in Hk.
Qed.

Lemma resume_twice_shape Uri_file filePath name1 name2 content1 content2
    fires1 fires2 st :
  exists ts t1 t2,
    tabs
      (openFile_resume Uri_file filePath name2 (Some content2) fires2
         (openFile_resume Uri_file filePath name1 (Some content1) fires1 st))
    = ts ++ [t1; t2]
    /\ path <$> ts = path <$> tabs st
    /\ path t1 = filePath /\ path t2 = filePath
    /\ model t1 = Uri_file filePath /\ model t2 = Uri_file filePath.
Proof.
  destruct (resume_shape Uri_file filePath name1 content1 fires1 st)
    as (ts1 & t1 & E1 & K1 & P1 & M1).
  destruct (resume_shape Uri_file filePath name2 content2 fires2
              (openFile_resume Uri_file filePath name1 (Some content1)
                 fires1 st))
    as (ts2 & t2 & E2 & K2 & P2 & M2).
  rewrite E1, fmap_app in K2.
  apply fmap_app_inv in K2 as (l1 & l2 & K2a & K2b & ->).
  destruct l2 as [|t1' [|? ?]]; try discriminate K2b.
  injection K2b as Hp Hm.
  exists l1, t1', t2. split; [rewrite E2, <- app_assoc; reflexivity|].
  split; [apply keys_paths; congruence|].
  repeat split; congruence.
Qed.

Lemma resume_model_value Uri_file filePath fileName content fires st :
  value <$>
    models (openFile_resume Uri_file filePath fileName (Some content) fires st)
      !! Uri_file filePath
  = Some content.
Proof.
  unfold openFile_resume. rewrite (proj2 (activateTab_tabs _ _)). simpl.
  now rewrite lookup_insert_eq.
Qed.

End TabsFacts.

(** X18.  The tab bar stays coherent: no two tabs have the same path, and
    the active path is the path of an open tab whose model the editor
    shows.  It is so when the renderer starts, and activating and closing
    tabs, editing, saving and opening a file uninterrupted keep it so; the
    second half of [openFile] keeps it so when no tab for the path was
    opened while the file was read, and a rename when no open tab has the
    new path. *)
Theorem tabs_stay_coherent (Uri_file : string -> string) (st : Tabs.State) :
  Tabs.coherent Tabs.initial
  /\ (Tabs.coherent st ->
      (forall filePath fileName read fires,
         Tabs.coherent (Tabs.openFile Uri_file filePath fileName read fires st))
      /\ (forall filePath fileName read fires,
            filePath ∉ Tabs.path <$> Tabs.tabs st ->
            Tabs.coherent
              (Tabs.openFile_resume Uri_file filePath fileName read fires st))
      /\ (forall filePath, Tabs.coherent (Tabs.activateTab filePath st))
      /\ (forall filePath confirmed,
            Tabs.coherent (Tabs.closeTab filePath confirmed st))
      /\ (forall m, Tabs.coherent (Tabs.on_content_change m st))
      /\ (forall saved, Tabs.coherent (Tabs.saveActiveTab saved st).1)
      /\ (forall oldPath newName renamed,
            (forall newPath, renamed = Some newPath ->
                             newPath ∉ Tabs.path <$> Tabs.tabs st) ->
            Tabs.coherent
              (Tabs.promptRename_enter oldPath newName renamed st).1)).
Proof.
  split.
  - split; [constructor | discriminate].
  - intros Hc. split; [|split; [|split; [|split; [|split; [|split]]]]].
    + intros. now apply openFile_coherent.
    + intros. now apply openFile_resume_coherent.
    + intros. now apply activateTab_coherent.
    + intros. now apply closeTab_coherent.
    + intros. now apply on_content_change_coherent.
    + intros. now apply saveActiveTab_coherent.
    + intros. now apply promptRename_coherent.
Qed.

Lemma tabs_stay_coherent_witness :
  Tabs.coherent
    (Tabs.closeTab "/ws/a.py" false
       (Tabs.openFile id "/ws/b.py" "b.py" (Some "print(2)") false
          (Tabs.openFile id "/ws/a.py" "a.py" (Some "print(1)") false
             Tabs.initial))).
Proof.
  pose proof (proj1 (tabs_stay_coherent id Tabs.initial)) as H0.
  pose proof (proj1 (proj2 (tabs_stay_coherent id _) H0)
                "/ws/a.py" "a.py" (Some "print(1)") false) as H1.
  pose proof (proj1 (proj2 (tabs_stay_coherent id _) H1)
                "/ws/b.py" "b.py" (Some "print(2)") false) as H2.
  exact (proj1 (proj2 (proj2 (proj2 (proj2 (tabs_stay_coherent id _) H2))))
           "/ws/a.py" false).
Defined.

(** X19.  Closing a tab removes its first occurrence and nothing else.
    If it was the active one, the tab that followed it becomes active, or
    the one before it when it was the last, or none when it was the only
    one; otherwise the active tab stays.  A dirty tab is closed only when
    the user confirms. *)
Theorem closeTab_neighbour (st : Tabs.State) (before after : list Tabs.Tab)
    (tab : Tabs.Tab) (confirmed : bool) :
  Tabs.tabs st = before ++ tab :: after ->
  Tabs.path tab ∉ Tabs.path <$> before ->
  let st' := Tabs.closeTab (Tabs.path tab) confirmed st in
  (Tabs.dirty tab = true -> confirmed = false -> st' = st)
  /\ (Tabs.dirty tab = false \/ confirmed = true ->
      Tabs.tabs st' = before ++ after
      /\ Tabs.models st' = Tabs.models st
      /\ (Tabs.activeTabPath st = Some (Tabs.path tab) ->
          let next := match after with
                      | t :: _ => Some t
                      | [] => last before
                      end in
          Tabs.activeTabPath st' = Tabs.path <$> next
          /\ Tabs.shown st' = Tabs.model <$> next)
      /\ (Tabs.activeTabPath st <> Some (Tabs.path tab) ->
          Tabs.activeTabPath st' = Tabs.activeTabPath st
          /\ Tabs.shown st' = Tabs.shown st)).
Proof.
  intros Hts Hfirst st'. subst st'. unfold Tabs.closeTab.
  rewrite Hts, (findIndex_path_first _ before tab after eq_refl Hfirst).
  rewrite list_lookup_middle by reflexivity.
  assert (Hdel : delete (length before) (before ++ tab :: after)
                 = before ++ after).
  { clear. induction before as [|b before IH]; [reflexivity|].
    simpl. f_equal. exact IH. }
  split.
  - intros -> ->. reflexivity.
  - intros Hgo.
    assert (Hc : Tabs.dirty tab && negb confirmed = false).
    { destruct Hgo as [-> | ->]; [reflexivity | apply andb_false_r]. }
    rewrite Hc, Hdel.
    destruct (Tabs.activeTabPath st) as [active|] eqn:Ha.
    + destruct (String.eqb_spec active (Tabs.path tab)) as [->|Hne]; simpl.
      * rewrite neighbour_after_removal.
        split; [reflexivity|]. split; [reflexivity|].
        split; [now intros _ | congruence].
      * split; [reflexivity|]. split; [reflexivity|].
        split; [congruence | now intros _].
    + simpl. split; [reflexivity|]. split; [reflexivity|].
      split; [discriminate | now intros _].
Qed.

Lemma closeTab_neighbour_witness :
  Tabs.tabs
    (Tabs.closeTab "/ws/b.py" false three_tabs)
  = [tab_a; tab_c]
  /\ Tabs.activeTabPath (Tabs.closeTab "/ws/b.py" false three_tabs)
     = Some "/ws/c.py".
Proof.
  assert (Hfirst : Tabs.path tab_b ∉ Tabs.path <$> [tab_a]).
  { intros [H|H]%elem_of_cons; [discriminate H | inversion H]. }
  destruct (closeTab_neighbour three_tabs [tab_a] [tab_c] tab_b false
              eq_refl Hfirst) as [_ H].
  destruct (H (or_introl eq_refl)) as (Ht & _ & Ha & _).
  split; [exact Ht | exact (proj1 (Ha eq_refl))].
Defined.

(** X20.  Two calls of [openFile] for a path with no tab, the second made
    while the first still reads the file, both pass the test for an
    existing tab: once both reads have settled the tab bar holds two tabs
    for the path, on one model, which holds what the second read gave; the
    tab bar is no longer coherent. *)
Theorem overlapping_opens_duplicate
    (Uri_file : string -> string) (st : Tabs.State)
    (filePath name1 name2 content1 content2 : string) (fires1 fires2 : bool) :
  filePath ∉ Tabs.path <$> Tabs.tabs st ->
  let first := Tabs.openFile_begin filePath st in
  let second := Tabs.openFile_begin filePath first.1 in
  let st' :=
    Tabs.openFile_resume Uri_file filePath name2 (Some content2) fires2
      (Tabs.openFile_resume Uri_file filePath name1 (Some content1) fires1
         second.1) in
  first.2 = true /\ second.2 = true
  /\ (exists ts t1 t2,
        Tabs.tabs st' = ts ++ [t1; t2]
        /\ Tabs.path <$> ts = Tabs.path <$> Tabs.tabs st
        /\ Tabs.path t1 = filePath /\ Tabs.path t2 = filePath
        /\ Tabs.model t1 = Uri_file filePath
        /\ Tabs.model t2 = Uri_file filePath)
  /\ Tabs.value <$> Tabs.models st' !! Uri_file filePath = Some content2
  /\ ~ Tabs.coherent st'.
Proof.
  intros Hfresh first second st'.
  assert (F : Tabs.find_path filePath (Tabs.tabs st) = None).
  { destruct (Tabs.find_path filePath (Tabs.tabs st)) as [t|] eqn:F;
      [|reflexivity].
    apply find_path_Some in F as [Hin Hp]. destruct Hfresh.
    apply list_elem_of_fmap. now exists t. }
  assert (E1 : first = (st, true)).
  { subst first. unfold Tabs.openFile_begin. now rewrite F. }
  assert (E2 : second = (st, true)).
  { subst second. rewrite E1. simpl. unfold Tabs.openFile_begin.
    now rewrite F. }
  subst st'. rewrite E2, E1. cbn [fst snd].
  split; [reflexivity|]. split; [reflexivity|].
  assert (Hshape : exists ts t1 t2,
            Tabs.tabs
              (Tabs.openFile_resume Uri_file filePath name2 (Some content2)
                 fires2
                 (Tabs.openFile_resume Uri_file filePath name1
                    (Some content1) fires1 st))
            = ts ++ [t1; t2]
            /\ Tabs.path <$> ts = Tabs.path <$> Tabs.tabs st
            /\ Tabs.path t1 = filePath /\ Tabs.path t2 = filePath
            /\ Tabs.model t1 = Uri_file filePath
            /\ Tabs.model t2 = Uri_file filePath).
  { apply resume_twice_shape. }
  split; [exact Hshape|]. split.
  - apply resume_model_value.
  - destruct Hshape as (ts & t1 & t2 & Ht & _ & Hp1 & Hp2 & _).
    intros [Hnd _]. rewrite Ht, fmap_app in Hnd.
    apply NoDup_app in Hnd as (_ & _ & Hnd). simpl in Hnd.
    rewrite Hp1, Hp2 in Hnd. apply NoDup_cons in Hnd as [Hnd _].
    apply Hnd. left.
Qed.

Lemma overlapping_opens_duplicate_witness :
  ~ Tabs.coherent
      (Tabs.openFile_resume id "/ws/a.py" "a.py" (Some "print(1)") false
         (Tabs.openFile_resume id "/ws/a.py" "a.py" (Some "print(1)") false
            Tabs.initial)).
Proof.
  assert (Hfresh : "/ws/a.py" ∉ Tabs.path <$> Tabs.tabs Tabs.initial).
  { intros H. inversion H. }
  exact (proj2 (proj2 (proj2 (proj2
           (overlapping_opens_duplicate id Tabs.initial "/ws/a.py"
              "a.py" "a.py" "print(1)" "print(1)" false false Hfresh))))).
Defined.

Section TabModelFacts.
Import Tabs.

Lemma find_path_renamed oldPath newPath newName ts :
  newPath <> oldPath ->
  find_path oldPath (map (rename_tab oldPath newPath newName) ts) = None.
Proof.
  intros Hne. unfold find_path.
  induction ts as [|x ts IH]; [reflexivity|]. cbn [map List.find].
  rewrite IH. unfold rename_tab.
  destruct (String.eqb_spec (path x) oldPath) as [E|Hx]; simpl.
  - now destruct (String.eqb_spec newPath oldPath).
  - now destruct (String.eqb_spec (path x) oldPath).
Qed.

Lemma update_first_by_path (p : string) (t : Tab) (ts : list Tab) :
  NoDup (path <$> ts) -> t ∈ ts -> path t = p ->
  forall t',
    t' ∈ update_first (fun x => String.eqb (path x) p) (set_dirty false) ts
    <-> t' = set_dirty false t \/ (t' ∈ ts /\ path t' <> p).
Proof.
  intros Hnd Hin Hp t'. induction ts as [|x ts IH]; [inversion Hin|].
  rewrite fmap_cons in Hnd. apply NoDup_cons in Hnd as [Hx Hnd].
  cbn [update_first].
  destruct (String.eqb_spec (path x) p) as [E|Hne].
  - assert (t = x) as ->.
    { apply elem_of_cons in Hin as [->|Hin]; [reflexivity|].
      destruct Hx. rewrite E, <- Hp. apply list_elem_of_fmap. now exists t. }
    rewrite !elem_of_cons. split.
    + intros [->|H]; [now left|]. right. split; [now right|].
      intros E'. apply Hx. rewrite E, <- E'.
      apply list_elem_of_fmap. now exists t'.
    + intros [->|[[->|H] Hne]]; [now left | contradiction | now right].
  - apply elem_of_cons in Hin as [->|Hin]; [contradiction|].
    rewrite !elem_of_cons, (IH Hnd Hin). split.
    + intros [->|[->|[H1 H2]]]; [right; split; [now left|exact Hne]
                                 | now left | right; split; [now right|exact H2]].
    + intros [->|[[->|H1] H2]]; [right; now left | now left
                                 | right; right; now split].
Qed.

End TabModelFacts.

(** X21.  A rename changes the path and name of the open tab and leaves
    its model the one of the old path.  When a file is then opened at the
    old path, the new tab takes that same model and [openFile] sets it to
    what was read: the renamed tab and the new tab share one model, which
    holds the content of the new file. *)
Theorem rename_then_open_shares_model
    (Uri_file : string -> string) (st : Tabs.State) (t : Tabs.Tab)
    (oldPath newName newPath fileName content : string) (fires : bool) :
  t ∈ Tabs.tabs st ->
  Tabs.path t = oldPath ->
  Tabs.model t = Uri_file oldPath ->
  JsString.truthy newName = true ->
  newName <> JsString.pop (JsString.split JsString.is_sep oldPath) ->
  JsString.truthy newPath = true ->
  newPath <> oldPath ->
  let st1 := (Tabs.promptRename_enter oldPath newName (Some newPath) st).1 in
  let st2 := Tabs.openFile Uri_file oldPath fileName (Some content) fires st1 in
  exists t1 t2,
    t1 ∈ Tabs.tabs st2 /\ t2 ∈ Tabs.tabs st2
    /\ Tabs.path t1 = newPath /\ Tabs.path t2 = oldPath
    /\ Tabs.model t1 = Uri_file oldPath /\ Tabs.model t2 = Uri_file oldPath
    /\ Tabs.value <$> Tabs.models st2 !! Uri_file oldPath = Some content.
Proof.
  intros Hin Hp Hm Hname Hbase Hnew Hne st1 st2.
  assert (E1 : Tabs.tabs st1
               = map (Tabs.rename_tab oldPath newPath newName) (Tabs.tabs st)).
  { subst st1. unfold Tabs.promptRename_enter. rewrite Hname, Hnew.
    destruct (String.eqb_spec newName
                (JsString.pop (JsString.split JsString.is_sep oldPath)));
      [contradiction|reflexivity]. }
  assert (E2 : st2 = Tabs.openFile_resume Uri_file oldPath fileName
                       (Some content) fires st1).
  { subst st2. unfold Tabs.openFile, Tabs.openFile_begin.
    now rewrite E1, find_path_renamed. }
  destruct (resume_shape Uri_file oldPath fileName content fires st1)
    as (ts & t2 & Ets & K & P2 & M2).
  rewrite <- E2 in Ets.
  assert (Hk : (newPath, Uri_file oldPath)
               ∈ (fun t => (Tabs.path t, Tabs.model t)) <$> ts).
  { rewrite K, E1. apply list_elem_of_fmap.
    exists (Tabs.rename_tab oldPath newPath newName t). split.
    - unfold Tabs.rename_tab. rewrite Hp, String.eqb_refl. simpl.
      now rewrite Hm.
    - apply list_elem_of_fmap. now exists t. }
  apply list_elem_of_fmap in Hk as (t1 & [= Hp1 Hm1] & Hin1).
  exists t1, t2. rewrite Ets.
  split; [apply elem_of_app; now left|].
  split; [apply elem_of_app; right; left|].
  split; [congruence|]. split; [exact P2|]. split; [congruence|].
  split; [exact M2|].
  rewrite E2. apply resume_model_value.
Qed.

Lemma rename_then_open_shares_model_witness :
  exists t1 t2,
    let st2 :=
      Tabs.openFile id "/ws/b.py" "b.py" (Some "print(3)") true
        (Tabs.promptRename_enter "/ws/b.py" "d.py" (Some "/ws/d.py")
           three_tabs).1 in
    t1 ∈ Tabs.tabs st2 /\ t2 ∈ Tabs.tabs st2
    /\ Tabs.path t1 = "/ws/d.py" /\ Tabs.path t2 = "/ws/b.py"
    /\ Tabs.model t1 = "/ws/b.py" /\ Tabs.model t2 = "/ws/b.py"
    /\ Tabs.value <$> Tabs.models st2 !! "/ws/b.py" = Some "print(3)".
Proof.
  assert (Hin : tab_b ∈ Tabs.tabs three_tabs) by (right; left).
  exact (rename_then_open_shares_model id three_tabs tab_b "/ws/b.py" "d.py"
           "/ws/d.py" "b.py" "print(3)" true Hin eq_refl eq_refl eq_refl
           ltac:(vm_compute; discriminate) eq_refl ltac:(discriminate)).
Defined.

(** X22.  With a coherent tab bar and an active tab, [saveActiveTab] asks
    for the content of the active tab's model to be written to the active
    path.  When the write fails nothing changes; when it succeeds, and
    nothing else happened meanwhile, the active tab is clean and every
    other tab, the active path, the shown model and the models are as
    before. *)
Theorem saveActiveTab_clears_active (st : Tabs.State) (p : string) :
  Tabs.coherent st ->
  Tabs.activeTabPath st = Some p ->
  exists t,
    t ∈ Tabs.tabs st /\ Tabs.path t = p
    /\ (forall saved,
          (Tabs.saveActiveTab saved st).2
          = Some (p, default EmptyString
                       (Tabs.value <$> Tabs.models st !! Tabs.model t)))
    /\ (Tabs.saveActiveTab false st).1 = st
    /\ let st' := (Tabs.saveActiveTab true st).1 in
       (forall t', t' ∈ Tabs.tabs st'
                   <-> t' = Tabs.set_dirty false t
                       \/ (t' ∈ Tabs.tabs st /\ Tabs.path t' <> p))
       /\ Tabs.activeTabPath st' = Some p
       /\ Tabs.shown st' = Tabs.shown st
       /\ Tabs.models st' = Tabs.models st.
Proof.
  intros [Hnd Hact] Ha. unfold Tabs.saveActiveTab. rewrite Ha.
  destruct (Tabs.find_path p (Tabs.tabs st)) as [t|] eqn:F.
  - apply find_path_Some in F as [Hin Hp]. exists t.
    split; [exact Hin|]. split; [exact Hp|]. split.
    { intros saved. rewrite Hp.
      destruct saved; simpl;
        now destruct (Tabs.models st !! Tabs.model t). }
    split; [reflexivity|]. simpl.
    split; [now apply update_first_by_path|]. now split.
  - apply find_path_None in F. destruct (Hact p Ha) as (t & Hin & Hp & _).
    destruct F. apply list_elem_of_fmap. now exists t.
Qed.

Lemma saveActiveTab_clears_active_witness :
  (Tabs.saveActiveTab false three_tabs).1 = three_tabs
  /\ (Tabs.saveActiveTab true three_tabs).2 = Some ("/ws/b.py", EmptyString).
Proof.
  assert (Hc : Tabs.coherent three_tabs).
  { split.
    - apply NoDup_ListNoDup. repeat constructor; simpl; intuition discriminate.
    - intros p [= <-]. exists tab_b. split; [right; left | now split]. }
  destruct (saveActiveTab_clears_active three_tabs "/ws/b.py" Hc eq_refl)
    as (t & _ & _ & Hreq & Hfail & _).
  split; [exact Hfail|]. rewrite (Hreq true). reflexivity.
Defined.

(** ** The explorer *)

Section ExplorerFacts.
Import Tree Snapshot Explorer.

Lemma TreeNode_nested_ind (P : TreeNode -> Prop) :
  (forall name path, P (FileNode name path)) ->
  (forall name path children,
     Forall (fun c => match c with Some t => P t | None => True end) children ->
     P (Folder name path children)) ->
  forall t, P t.
Proof.
  intros Hfile Hfolder. fix IH 1. intros [name path children|name path].
  - apply Hfolder. induction children as [|[c|] cs IHcs]; constructor; auto.
  - apply Hfile.
Qed.

Lemma createTreeItem_total E t :
  well_formed t = true -> exists item, createTreeItem E t = Some item.
Proof.
  induction t as [name path|name path children IH] using TreeNode_nested_ind.
  - intros _. now eexists.
  - intros Hwf%well_formed_folder. cbn [createTreeItem].
    destruct (isExpanded E (Folder name path children)); [|now eexists].
    assert (Hl : exists items,
               items_of (createTreeItem E) children = Some items).
    { induction children as [|c cs IHcs]; [now eexists|].
      apply Forall_cons in Hwf as [Hc Hcs]. apply Forall_cons in IH as [IHc IH].
      destruct c as [c|]; [|contradiction].
      cbn [items_of].
      destruct (IHc Hc) as [item ->]. destruct (IHcs IH Hcs) as [items ->].
      now eexists. }
    destruct Hl as [items ->]. now eexists.
Qed.

Lemma items_of_null render (children : list (option TreeNode)) :
  None ∈ children -> items_of render children = None.
Proof.
  induction children as [|c cs IH]; intros Hin; [inversion Hin|].
  destruct c as [c|]; [|reflexivity].
  apply elem_of_cons in Hin as [Hin|Hin]; [discriminate|].
  cbn [items_of]. fold (items_of render). rewrite (IH Hin).
  now destruct (render c).
Qed.

Lemma click_flips E name path children :
  always_collapsed name = false ->
  isExpanded (click E (Folder name path children))
    (Folder name path children)
  = negb (isExpanded E (Folder name path children))
  /\ click (click E (Folder name path children)) (Folder name path children)
     = E.
Proof.
  intros Hname. cbn [click isExpanded]. rewrite Hname. cbn [negb].
  rewrite !andb_true_r.
  destruct (decide (path ∈ E)) as [Hin|Hout].
  - rewrite (bool_decide_eq_true_2 _ Hin).
    assert (Hgone : path ∉ E ∖ {[path]}).
    { rewrite elem_of_difference, elem_of_singleton. tauto. }
    rewrite (bool_decide_eq_false_2 _ Hgone). split; [reflexivity|].
    apply set_eq. intros x.
    rewrite elem_of_union, elem_of_difference, elem_of_singleton.
    destruct (decide (x = path)) as [->|Hx]; tauto.
  - rewrite (bool_decide_eq_false_2 _ Hout).
    assert (Hthere : path ∈ E ∪ {[path]}).
    { rewrite elem_of_union, elem_of_singleton. tauto. }
    rewrite (bool_decide_eq_true_2 _ Hthere). split; [reflexivity|].
    apply set_eq. intros x.
    rewrite elem_of_difference, elem_of_union, elem_of_singleton.
    destruct (decide (x = path)) as [->|Hx]; tauto.
Qed.

End ExplorerFacts.

(** X23.  Rendering a tree throws only on a [null] it reaches.  A well
    formed tree is rendered whatever folders are expanded; a folder shown
    collapsed is rendered without looking at its children; an expanded
    folder with a [null] child makes [createTreeItem] throw.  So when a
    workspace is opened with a snapshot whose root holds a [null] child,
    [applyWorkspace] throws in [renderTree], before [syncWithServer],
    unless the root folder's name is one that is always collapsed. *)
Theorem rendering_throws_on_null_only
    (E : gset string) (name path : string)
    (children : list (option Tree.TreeNode)) :
  (forall t, Tree.well_formed t = true ->
             exists item, Explorer.createTreeItem E t = Some item)
  /\ (Explorer.isExpanded E (Tree.Folder name path children) = false ->
      Explorer.createTreeItem E (Tree.Folder name path children)
      = Some (Explorer.FolderItem name false []))
  /\ (None ∈ children ->
      (Explorer.isExpanded E (Tree.Folder name path children) = true ->
       Explorer.createTreeItem E (Tree.Folder name path children) = None)
      /\ (Explorer.always_collapsed name = false ->
          (Explorer.applyWorkspace path
             (Some (Tree.Folder name path children))).2 = None)).
Proof.
  split; [intros t; apply createTreeItem_total|]. split.
  - intros Hx. cbn [Explorer.createTreeItem]. now rewrite Hx.
  - intros Hnull. split.
    + intros Hx. cbn [Explorer.createTreeItem]. rewrite Hx.
      now rewrite items_of_null.
    + intros Hname. unfold Explorer.applyWorkspace, Explorer.renderTree.
      cbn [snd Explorer.createTreeItem Explorer.isExpanded].
      rewrite Hname, bool_decide_eq_true_2 by (now apply elem_of_singleton).
      cbn [negb andb]. now rewrite items_of_null.
Qed.

Lemma rendering_throws_on_null_only_witness :
  (Explorer.applyWorkspace "/ws"
     (Some (Tree.Folder "ws" "/ws"
              [Some (Tree.FileNode "a.txt" "/ws/a.txt"); None;
               Some (Tree.FileNode "b.txt" "/ws/b.txt")]))).2 = None.
Proof.
  assert (Hnull : None ∈ [Some (Tree.FileNode "a.txt" "/ws/a.txt"); None;
                          Some (Tree.FileNode "b.txt" "/ws/b.txt")])
    by (right; left).
  exact (proj2 (proj2 (proj2 (rendering_throws_on_null_only ∅ "ws" "/ws" _))
                  Hnull) eq_refl).
Defined.

(** X24.  A click on a folder that is not always collapsed flips whether
    it is shown expanded, and a second click restores the set of expanded
    paths.  A folder that is always collapsed is shown collapsed whatever
    was clicked, although a click on it records its path as expanded. *)
Theorem click_toggles (E : gset string) (name path : string)
    (children : list (option Tree.TreeNode)) :
  let node := Tree.Folder name path children in
  (Explorer.always_collapsed name = false ->
   Explorer.isExpanded (Explorer.click E node) node
   = negb (Explorer.isExpanded E node)
   /\ Explorer.click (Explorer.click E node) node = E)
  /\ (Explorer.always_collapsed name = true ->
      Explorer.isExpanded E node = false
      /\ Explorer.click E node = E ∪ {[path]}
      /\ Explorer.createTreeItem (Explorer.click E node) node
         = Some (Explorer.FolderItem name false [])).
Proof.
  intros node. split; [apply click_flips|]. intros Hname. subst node.
  cbn [Explorer.click Explorer.isExpanded Explorer.createTreeItem].
  rewrite Hname. cbn [negb]. rewrite !andb_false_r. now split.
Qed.

Lemma click_toggles_witness :
  Explorer.click
    (Explorer.click {[ "/ws" ]} (Tree.Folder "src" "/ws/src" []))
    (Tree.Folder "src" "/ws/src" [])
  = {[ "/ws" ]}
  /\ Explorer.click {[ "/ws" ]} (Tree.Folder ".git" "/ws/.git" [])
     = {[ "/ws" ]} ∪ {[ "/ws/.git" ]}.
Proof.
  split.
  - exact (proj2 (proj1 (click_toggles {[ "/ws" ]} "src" "/ws/src" [])
                    eq_refl)).
  - exact (proj1 (proj2 (proj2 (click_toggles {[ "/ws" ]} ".git" "/ws/.git" [])
                           eq_refl))).
Defined.

(** ** Language detection *)

Section LanguageFacts.
Import JsString Language.

Lemma shebang_truthy content :
  startsWith content "#!" = true -> truthy content = true.
Proof. destruct content; [discriminate | reflexivity]. Qed.

End LanguageFacts.

Ltac by_extension finish :=
  repeat match goal with
         | |- context [JsString.endsWith ?f ?e] =>
             let E := fresh "E" in
             destruct (JsString.endsWith f e) eqn:E;
             cbn [orb andb negb existsb];
             [solve [finish] | ]
         end.

(** X25.  [detectLanguage] always gives one of twelve language ids.  When
    the lowercased file name ends in a known extension the content plays
    no part; otherwise the result is [plaintext] unless the content starts
    with a shebang, and with a shebang that has [sh] anywhere in the
    content the result is never [plaintext]. *)
Theorem detectLanguage_by_extension (filename content content' : string) :
  Language.detectLanguage filename content ∈ Language.languages
  /\ (Language.known_extension filename = true ->
      Language.detectLanguage filename content
      = Language.detectLanguage filename content')
  /\ (Language.known_extension filename = false ->
      (JsString.startsWith content "#!" = false ->
       Language.detectLanguage filename content = "plaintext")
      /\ (JsString.startsWith content "#!" = true ->
          JsString.includes content "sh" = true ->
          Language.detectLanguage filename content <> "plaintext")).
Proof.
  unfold Language.known_extension, Language.extensions,
    Language.detectLanguage, Language.languages.
  generalize (JsString.toLowerCase filename). intros f.
  split; [|split].
  - by_extension ltac:(repeat first [left | right]).
    destruct (JsString.truthy content && JsString.startsWith content "#!");
      [|repeat first [left | right]].
    destruct (JsString.includes content "python");
      [repeat first [left | right]|].
    destruct (JsString.includes content "node");
      [repeat first [left | right]|].
    destruct (JsString.includes content "bash" || JsString.includes content "sh");
      repeat first [left | right].
  - cbn [existsb].
    by_extension ltac:(intros; first [reflexivity | discriminate]).
    discriminate.
  - cbn [existsb].
    by_extension ltac:(intros; discriminate).
    intros _. split.
    + intros ->. now rewrite andb_false_r.
    + intros Hs Hsh. rewrite Hs, (shebang_truthy _ Hs), Hsh, orb_true_r.
      cbn [andb].
      destruct (JsString.includes content "python"); [discriminate|].
      destruct (JsString.includes content "node"); discriminate.
Qed.

Lemma detectLanguage_by_extension_witness :
  Language.detectLanguage "Main.PY" "x" = Language.detectLanguage "Main.PY" "y"
  /\ Language.detectLanguage "run" "#!/bin/zsh" <> "plaintext".
Proof.
  split.
  - exact (proj1 (proj2 (detectLanguage_by_extension "Main.PY" "x" "y"))
             eq_refl).
  - exact (proj2 (proj2 (proj2 (detectLanguage_by_extension
                                  "run" "#!/bin/zsh" EmptyString)) eq_refl)
             eq_refl eq_refl).
Defined.

(** ** Refreshing the explorer *)

(** X26.  The refresh the renderer asks for after creating, renaming or
    deleting an entry reaches the [pick-workspace] handler without a path,
    so the handler opens the folder dialog.  When the dialog is cancelled
    nothing is rendered and the main process is unchanged; the tree is
    rendered again only when the user picks the very folder that is the
    renderer's workspace root, and it is then the snapshot of that folder;
    in every case the root of the main process is afterwards what it was
    or the folder picked. *)
Theorem refresh_goes_through_dialog (fuel : nat) (fs : Fs.t)
    (workspaceRoot dialog : option string) (st : MainProcess.State) :
  (dialog = None ->
   Refresh.refresh fuel fs workspaceRoot dialog st = Some (st, None))
  /\ (forall st' r,
        Refresh.refresh fuel fs workspaceRoot dialog st = Some (st', r) ->
        (MainProcess.workspaceRoot st' = MainProcess.workspaceRoot st
         \/ MainProcess.workspaceRoot st' = dialog)
        /\ forall tree,
             r = Some tree ->
             dialog = workspaceRoot
             /\ MainProcess.workspaceRoot st' = workspaceRoot
             /\ exists root,
                  workspaceRoot = Some root
                  /\ Tree.readTree fuel fs root = Some tree).
Proof.
  unfold Refresh.refresh, Refresh.api_pickWorkspace,
    MainProcess.pick_workspace.
  split; [now intros ->|].
  intros st' r. destruct dialog as [folder|].
  - destruct (JsString.truthy folder).
    + destruct (Watch.watchFolderRecursive fuel fs folder
                  (MainProcess.watch st)) as [[s|s]|]; [| |discriminate].
      * destruct (Tree.readTree fuel fs folder) as [tree|] eqn:Ht;
          [|discriminate].
        unfold Refresh.same_root. destruct workspaceRoot as [root|].
        -- destruct (String.eqb_spec folder root) as [->|Hne].
           ++ intros [= <- <-]. split; [now right|].
              intros t [= <-]. split; [reflexivity|].
              split; [reflexivity|]. now exists root.
           ++ intros [= <- <-]. split; [now right|]. discriminate.
        -- intros [= <- <-]. split; [now right|]. discriminate.
      * intros [= <- <-]. split; [now left|]. discriminate.
    + unfold Refresh.same_root. intros [= <- <-].
      split; [now left|]. discriminate.
  - unfold Refresh.same_root. intros [= <- <-].
    split; [now left|]. discriminate.
Qed.

Lemma refresh_goes_through_dialog_witness :
  Refresh.refresh 2 flat_fs (Some "/ws") None
    {| MainProcess.workspaceRoot := Some "/ws";
       MainProcess.watch := MainProcess.no_watch |}
  = Some ({| MainProcess.workspaceRoot := Some "/ws";
             MainProcess.watch := MainProcess.no_watch |}, None).
Proof.
  exact (proj1 (refresh_goes_through_dialog 2 flat_fs (Some "/ws") None
                  {| MainProcess.workspaceRoot := Some "/ws";
                     MainProcess.watch := MainProcess.no_watch |}) eq_refl).
Defined.
